(** * machine-collaboration-utility: the pause protocol, jobs and the job registry

    A shallow embedding of
      - [src/bots/Virtual/commands/pause.js]   (the pause orchestrator),
      - [src/server/middleware/jobs/job.js]    (the [Job] class),
      - the [Jobs] registry bundled in [src/server/middleware/files/index.js],
      - the [Files] class of [src/server/middleware/files/index.js] (the file
        store, over a small model of the file system),
      - the definition of the Melzi bot, [src/unnamed/part_000],
    together with the parts of JavaScript they rely on: numbers (IEEE 754
    binary64, through the Standard Library's [SpecFloat]), [Number(...)],
    number-to-string conversion, the backtracking matcher behind
    [String.prototype.match], and [String.prototype.split]. *)

From Stdlib Require Import ZArith Bool List Ascii String SpecFloat Lia.
From stdpp Require Import base option list strings gmap.

Local Open Scope Z_scope.

(** ** JavaScript strings

    A JavaScript string is a sequence of UTF-16 code units.  The embedding
    uses Rocq strings and reads every character as one code unit below 256;
    the instruction dialect the devices speak is plain ASCII. *)

Definition chars (s : string) : list ascii := list_ascii_of_string s.
Definition unchars (l : list ascii) : string := string_of_list_ascii l.
Definition code (c : ascii) : Z := Z.of_nat (nat_of_ascii c).

Definition is_digit (c : ascii) : bool := (48 <=? code c) && (code c <=? 57).
Definition digit_value (c : ascii) : Z := code c - 48.

(** ** JavaScript numbers *)

Module JsNum.

(** Number values are IEEE 754 binary64 values: 53 bits of precision,
    exponents below 1024. *)
Definition prec : Z := 53.
Definition emax : Z := 1024.

Definition number : Type := spec_float.

Definition NaN : number := S754_nan.
Definition add (a b : number) : number := SFadd prec emax a b.
Definition sub (a b : number) : number := SFsub prec emax a b.

Definition of_Z (z : Z) : number := binary_normalize prec emax z 0 false.

(** Number of binary digits of a non-negative integer. *)
Definition bits (z : Z) : Z := Z.log2 z + 1.

Fixpoint log10_fuel (fuel : nat) (z : Z) : Z :=
  match fuel with
  | O => 0
  | S fuel' => if z <? 10 then 0 else 1 + log10_fuel fuel' (z / 10)
  end.

(** [log10 z] is the number of decimal digits of [z], less one. *)
Definition log10 (z : Z) : Z := log10_fuel (Z.to_nat (bits z)) z.

(** [of_decimal neg m e] is the number nearest to (-1)^neg * m * 10^e, ties
    to even: the rounding ECMAScript prescribes for numeric literals and for
    [Number] applied to a string.  For a negative [e] the quotient
    m * 2^s / 10^(-e) is computed with at least 56 bits and its last bit
    records whether the division left a remainder, so that one rounding to
    53 bits gives the correctly rounded result. *)
Definition of_decimal (neg : bool) (m e : Z) : number :=
  if m =? 0 then S754_zero neg
  else if 330 <? log10 m + e then S754_infinity neg
  else if log10 m + e <? -400 then S754_zero neg
  else
    let r :=
      if 0 <=? e then binary_normalize prec emax (m * 10 ^ e) 0 false
      else
        let d := 10 ^ (- e) in
        let s := Z.max 0 (58 + bits d - bits m) in
        let n := m * 2 ^ s in
        let q := n / d in
        let sticky := if n mod d =? 0 then 0 else 1 in
        binary_normalize prec emax (2 * q + sticky) (- s - 1) false in
    if neg then SFopp r else r.

(** *** Number::toString *)

Fixpoint digits_fuel (fuel : nat) (z : Z) (acc : list ascii) : list ascii :=
  match fuel with
  | O => acc
  | S fuel' =>
      let c := ascii_of_nat (Z.to_nat (48 + z mod 10)) in
      if z <? 10 then c :: acc else digits_fuel fuel' (z / 10) (c :: acc)
  end.

(** Decimal digits of a non-negative integer. *)
Definition digits (z : Z) : list ascii :=
  digits_fuel (S (Z.to_nat (log10 z))) z [].

Fixpoint strip_zeros_fuel (fuel : nat) (s : Z) (e : Z) : Z * Z :=
  match fuel with
  | O => (s, e)
  | S fuel' =>
      if (0 <? s) && (s mod 10 =? 0) then strip_zeros_fuel fuel' (s / 10) (e + 1)
      else (s, e)
  end.

(** The exact value of a finite number is num / den. *)
Definition ratio (m : positive) (e : Z) : Z * Z :=
  if 0 <=? e then (Z.pos m * 2 ^ e, 1) else (Z.pos m, 2 ^ (- e)).

(** [decimal_exponent num den] is the [n] with 10^(n-1) <= num/den < 10^n. *)
Definition decimal_exponent (num den : Z) : Z :=
  let g := log10 num - log10 den in
  (* 10^(g-1) < num/den < 10^(g+1) *)
  let ge_pow (k : Z) := (* 10^k <= num/den *)
    if 0 <=? k then den * 10 ^ k <=? num else den <=? num * 10 ^ (- k) in
  if ge_pow g then g + 1 else g.

(** The shortest decimal [s * 10^x] that reads back as [v], searching the
    digit counts k = 1, 2, ...; of two candidates with [k] digits the one
    nearer to [v] is taken. *)
Fixpoint shortest (fuel : nat) (k : Z) (v : number) (num den n : Z) : Z * Z :=
  match fuel with
  | O => (0, 0)
  | S fuel' =>
      let x := n - k in
      (* v * 10^(-x) = a / b *)
      let a := if 0 <=? x then num else num * 10 ^ (- x) in
      let b := if 0 <=? x then den * 10 ^ x else den in
      let lo := a / b in
      let hi := lo + 1 in
      let ok (s : Z) := match SFcompare (of_decimal false s x) v with
                        | Some Eq => true | _ => false end in
      let lo_nearer := 2 * (a - lo * b) <=? b in
      match ok lo, ok hi with
      | true, true => if lo_nearer then (lo, x) else (hi, x)
      | true, false => (lo, x)
      | false, true => (hi, x)
      | false, false => shortest fuel' (k + 1) v num den n
      end
  end.

Definition zeros (n : Z) : list ascii := repeat "0"%char (Z.to_nat n).

(** Number::toString(x) of ECMAScript, radix 10. *)
Definition to_chars (x : number) : list ascii :=
  match x with
  | S754_nan => chars "NaN"
  | S754_zero _ => chars "0"
  | S754_infinity neg => (if neg then chars "-" else []) ++ chars "Infinity"
  | S754_finite neg m e =>
      let '(num, den) := ratio m e in
      let n0 := decimal_exponent num den in
      let '(s0, x0) := shortest 20 1 (S754_finite false m e) num den n0 in
      let '(s, x) := strip_zeros_fuel 400 s0 x0 in
      let ds := digits s in
      let k := Z.of_nat (length ds) in
      let n := k + x in
      let body :=
        if (k <=? n) && (n <=? 21) then ds ++ zeros (n - k)
        else if (0 <? n) && (n <=? 21) then
          take (Z.to_nat n) ds ++ chars "." ++ drop (Z.to_nat n) ds
        else if (-6 <? n) && (n <=? 0) then
          chars "0." ++ zeros (- n) ++ ds
        else
          let ex := n - 1 in
          let exs := (if 0 <=? ex then chars "+" else chars "-") ++ digits (Z.abs ex) in
          match ds with
          | [] => []
          | d :: rest =>
              (d :: (if (k =? 1) then [] else chars "." ++ rest)) ++ chars "e" ++ exs
          end in
      (if neg then chars "-" else []) ++ body
  end.

Definition to_string (x : number) : string := unchars (to_chars x).

End JsNum.

(** ** JavaScript values, [Number(...)] and string conversion *)

Inductive JsVal : Type :=
| VUndefined
| VNumber (n : JsNum.number)
| VString (s : string).

(** WhiteSpace and LineTerminator code units below 256: TAB, LF, VT, FF, CR,
    SP and NBSP.  The same set is what [\s] matches in a regular expression. *)
Definition is_space (c : ascii) : bool :=
  ((9 <=? code c) && (code c <=? 13)) || (code c =? 32) || (code c =? 160).

Module StringToNumber.

Fixpoint span (p : ascii -> bool) (l : list ascii) : list ascii * list ascii :=
  match l with
  | c :: l' => if p c then let '(a, b) := span p l' in (c :: a, b) else ([], l)
  | [] => ([], [])
  end.

Definition trim (l : list ascii) : list ascii :=
  rev (snd (span is_space (rev (snd (span is_space l))))).

(** Value of a digit string in the given radix, most significant first. *)
Definition digit_in (radix : Z) (c : ascii) : option Z :=
  let v :=
    if is_digit c then code c - 48
    else if (97 <=? code c) && (code c <=? 102) then code c - 87
    else if (65 <=? code c) && (code c <=? 70) then code c - 55
    else 99 in
  if v <? radix then Some v else None.

Fixpoint radix_value (radix : Z) (acc : Z) (l : list ascii) : option Z :=
  match l with
  | [] => Some acc
  | c :: l' =>
      match digit_in radix c with
      | Some v => radix_value radix (acc * radix + v) l'
      | None => None
      end
  end.

Definition decimal_value (l : list ascii) : Z :=
  fold_left (fun acc c => acc * 10 + digit_value c) l 0.

(** ExponentPart, when present: [(e|E) (+|-)? DecimalDigits]. *)
Definition exponent_part (l : list ascii) : option Z :=
  match l with
  | [] => Some 0
  | c :: l1 =>
      if (code c =? 101) || (code c =? 69) then
        let '(neg, l2) :=
          match l1 with
          | s :: l2 => if code s =? 45 then (true, l2)
                       else if code s =? 43 then (false, l2) else (false, l1)
          | [] => (false, l1)
          end in
        let '(ds, rest) := span is_digit l2 in
        match ds, rest with
        | _ :: _, [] => Some (if neg then - decimal_value ds else decimal_value ds)
        | _, _ => None
        end
      else None
  end.

(** StrUnsignedDecimalLiteral. *)
Definition unsigned_decimal (neg : bool) (l : list ascii) : JsNum.number :=
  if String.eqb (unchars l) "Infinity" then S754_infinity neg
  else
    let '(ip, l1) := span is_digit l in
    let '(fp, l2) :=
      match l1 with
      | c :: l1' => if code c =? 46 then span is_digit l1' else ([], l1)
      | [] => ([], l1)
      end in
    match ip ++ fp with
    | [] => JsNum.NaN
    | ds =>
        match exponent_part l2 with
        | Some ex => JsNum.of_decimal neg (decimal_value ds) (ex - Z.of_nat (length fp))
        | None => JsNum.NaN
        end
    end.

(** StringToNumber of ECMAScript: the value of [Number(s)] for a string. *)
Definition parse (s : string) : JsNum.number :=
  match trim (chars s) with
  | [] => S754_zero false
  | c :: l =>
      let prefixed (radix : Z) (ds : list ascii) :=
        match ds with
        | [] => JsNum.NaN
        | _ => match radix_value radix 0 ds with
               | Some v => JsNum.of_decimal false v 0
               | None => JsNum.NaN
               end
        end in
      match c :: l with
      | z :: x :: ds =>
          if (code z =? 48) && ((code x =? 120) || (code x =? 88)) then prefixed 16 ds
          else if (code z =? 48) && ((code x =? 111) || (code x =? 79)) then prefixed 8 ds
          else if (code z =? 48) && ((code x =? 98) || (code x =? 66)) then prefixed 2 ds
          else if code z =? 45 then unsigned_decimal true (x :: ds)
          else if code z =? 43 then unsigned_decimal false (x :: ds)
          else unsigned_decimal false (c :: l)
      | _ => unsigned_decimal false (c :: l)
      end
  end.

End StringToNumber.

(** [Number(v)]. *)
Definition Number (v : JsVal) : JsNum.number :=
  match v with
  | VUndefined => JsNum.NaN
  | VNumber n => n
  | VString s => StringToNumber.parse s
  end.

(** [String(v)], the conversion a template literal applies to a substitution. *)
Definition ToString (v : JsVal) : string :=
  match v with
  | VUndefined => "undefined"
  | VNumber n => JsNum.to_string n
  | VString s => s
  end.

(** The binary [+] operator: concatenation when an operand is a string,
    numeric addition otherwise. *)
Definition js_plus (a b : JsVal) : JsVal :=
  match a, b with
  | VString _, _ | _, VString _ => VString (ToString a +:+ ToString b)
  | _, _ => VNumber (JsNum.add (Number a) (Number b))
  end.

(** ** Regular expressions: the backtracking matcher

    The fragment of ECMAScript regular expressions [m114Regex] is written in:
    characters, character classes, greedy [*] and [+] over a character class,
    greedy [?], sequencing and capture groups. *)

Module Regex.

Inductive regex : Type :=
| Chr (c : ascii)
| Class (p : ascii -> bool)
| Star (p : ascii -> bool)
| Plus (p : ascii -> bool)
| Opt (r : regex)
| Seq (r1 r2 : regex)
| Group (i : nat) (r : regex).

(** Captures: entry [i] is the text of group [i], [None] when the group
    did not take part in the match (JavaScript's [undefined]). *)
Abbreviation captures := (list (option string)).

Definition cont : Type := list ascii -> captures -> option captures.

(** Greedy repetition of a class: take as many characters as possible and
    give them back one at a time while the continuation fails. *)
Fixpoint star (p : ascii -> bool) (s : list ascii) (caps : captures) (k : cont)
  : option captures :=
  match s with
  | c :: s' =>
      if p c then
        match star p s' caps k with
        | Some r => Some r
        | None => k s caps
        end
      else k s caps
  | [] => k [] caps
  end.

Fixpoint run (r : regex) (s : list ascii) (caps : captures) (k : cont)
  : option captures :=
  match r with
  | Chr c =>
      match s with
      | x :: s' => if Ascii.eqb x c then k s' caps else None
      | [] => None
      end
  | Class p =>
      match s with
      | x :: s' => if p x then k s' caps else None
      | [] => None
      end
  | Star p => star p s caps k
  | Plus p =>
      match s with
      | x :: s' => if p x then star p s' caps k else None
      | [] => None
      end
  | Opt r1 =>
      match run r1 s caps k with
      | Some res => Some res
      | None => k s caps
      end
  | Seq r1 r2 => run r1 s caps (fun s1 caps1 => run r2 s1 caps1 k)
  | Group i r1 =>
      run r1 s caps (fun s1 caps1 =>
        k s1 (<[i := Some (unchars (take (length s - length s1) s))]> caps1))
  end.

(** Number of capture groups, group 0 (the whole match) included. *)
Fixpoint groups (r : regex) : nat :=
  match r with
  | Opt r1 => groups r1
  | Seq r1 r2 => Nat.max (groups r1) (groups r2)
  | Group i r1 => Nat.max (S i) (groups r1)
  | _ => 1%nat
  end.

(** The matcher is tried at every start index, leftmost first. *)
Fixpoint exec_from (r : regex) (s : list ascii) : option captures :=
  match run (Group 0 r) s (replicate (groups r) None) (fun _ caps => Some caps) with
  | Some caps => Some caps
  | None =>
      match s with
      | _ :: s' => exec_from r s'
      | [] => None
      end
  end.

(** [str.match(r)] for a regular expression without flags: the captures of
    the leftmost match, or [None] for JavaScript's [null]. *)
Definition js_match (str : string) (r : regex) : option captures :=
  exec_from r (chars str).

(** [m[i]] on a match result. *)
Definition capture (m : captures) (i : nat) : JsVal :=
  match m !! i with
  | Some (Some s) => VString s
  | _ => VUndefined
  end.

Definition any_char (c : ascii) : bool := negb ((code c =? 10) || (code c =? 13)).
Definition sign_char (c : ascii) : bool := (code c =? 43) || (code c =? 45).

End Regex.

(** ** Completions: a state monad in which a [throw] keeps the state

    A JavaScript function mutates the objects it reaches and either returns
    or throws; what it changed before throwing stays changed. *)

Inductive JsError : Type :=
| Error (message : string)
| TypeError (message : string)
| ThrownString (message : string).

(** [`${ex}`] *)
Definition error_to_string (e : JsError) : string :=
  match e with
  | Error m => "Error: " +:+ m
  | TypeError m => "TypeError: " +:+ m
  | ThrownString m => m
  end.

Inductive Completion (A : Type) : Type :=
| Normal (a : A)
| Throw (e : JsError).
Arguments Normal {A} a.
Arguments Throw {A} e.

Definition M (S A : Type) : Type := S -> S * Completion A.

Definition ret_M {S A} (a : A) : M S A := fun s => (s, Normal a).
Definition bind_M {S A B} (f : A -> M S B) (m : M S A) : M S B :=
  fun s => match m s with
           | (s', Normal a) => f a s'
           | (s', Throw e) => (s', Throw e)
           end.
Definition throw {S A} (e : JsError) : M S A := fun s => (s, Throw e).
Definition try_catch {S A} (m : M S A) (h : JsError -> M S A) : M S A :=
  fun s => match m s with
           | (s', Normal a) => (s', Normal a)
           | (s', Throw e) => h e s'
           end.
Definition get {S} : M S S := fun s => (s, Normal s).
Definition gets {S A} (f : S -> A) : M S A := fun s => (s, Normal (f s)).
Definition modify {S} (f : S -> S) : M S unit := fun s => (f s, Normal tt).

#[global] Instance M_ret {S} : MRet (M S) := fun A => @ret_M S A.
#[global] Instance M_bind {S} : MBind (M S) := fun A B => @bind_M S A B.

(** ** Logging *)

Inductive Level : Type := LDebug | LInfo | LError.

Record LogEntry : Type := { level : Level; args : list string }.

Definition Logger : Type := list LogEntry.

Definition log_to (lg : Logger) (l : Level) (a : list string) : Logger :=
  lg ++ [ {| level := l; args := a |} ].

Definition dquote : string := String "034"%char EmptyString.
Definition newline : string := String "010"%char EmptyString.

Definition includes (l : list string) (x : string) : bool := existsb (String.eqb x) l.

(** ** javascript-state-machine

    [StateMachine.create] turns the event table into one method per event
    name.  Calling a method looks the current state up among the event's
    [from] states (or the wildcard), refuses with the error callback when
    there is none, and otherwise moves to the [to] state. *)

Record FsmEvent : Type := { ev_name : string; ev_from : string; ev_to : string }.

Module StateMachine.

Definition WILDCARD : string := "*".
Definition INVALID_TRANSITION : string := "100".

(** [map[name]]: the [from -> to] pairs of one event, later rows of the table
    overriding earlier ones; a missing [from] means the wildcard and a
    missing [to] means staying. *)
Definition row_from (e : FsmEvent) : string :=
  if String.eqb (ev_from e) EmptyString then WILDCARD else ev_from e.
Definition row_to (e : FsmEvent) : string :=
  if String.eqb (ev_to e) EmptyString then row_from e else ev_to e.

Definition defined (events : list FsmEvent) (name : string) : bool :=
  existsb (fun e => String.eqb (ev_name e) name) events.

Definition lookup (events : list FsmEvent) (name from : string) : option string :=
  fold_left
    (fun acc e =>
       if String.eqb (ev_name e) name && String.eqb (row_from e) from
       then Some (row_to e) else acc)
    events None.

Definition has {A} (o : option A) : bool :=
  match o with Some _ => true | None => false end.

Definition can (events : list FsmEvent) (name current : string) : bool :=
  defined events name
  && (has (lookup events name current) || has (lookup events name WILDCARD)).

(** The state an event leads to from [current]. *)
Definition target (events : list FsmEvent) (name current : string) : string :=
  match lookup events name current with
  | Some t => t
  | None =>
      match lookup events name WILDCARD with
      | Some t => if String.eqb t WILDCARD then current else t
      | None => current
      end
  end.

(** What calling [fsm.name()] amounts to. *)
Inductive outcome : Type :=
| NoSuchMethod                       (* the table has no event of that name *)
| Invalid (from to : string)         (* the error callback is called *)
| NoTransition                       (* [from === to]: nothing is entered *)
| Moved (from to : string).          (* [current] becomes [to], callbacks run *)

Definition fire (events : list FsmEvent) (name current : string) : outcome :=
  if negb (defined events name) then NoSuchMethod
  else if negb (can events name current) then Invalid current (target events name current)
  else if String.eqb current (target events name current) then NoTransition
  else Moved current (target events name current).

Definition invalid_message (name current : string) : string :=
  "event " +:+ name +:+ " inappropriate in current state " +:+ current.

End StateMachine.

(** ** job.js: the [Job] class *)

(** The tables of [react/modules/Jobs/jobFsmDefinitions], which job.js
    requires and which is not among the sources: they are parameters of
    everything below. *)
Record JobFsmDefinitions : Type := {
  fsmEvents : list FsmEvent;
  processingJob : list string          (* [metaStates.processingJob] *)
}.

(** timer-stopwatch: whether the watch is running and the time it has
    accumulated; the passing of wall-clock time is not modelled. *)
Record Stopwatch : Type := { sw_running : bool; sw_ms : Z }.

Definition Stopwatch_start (sw : Stopwatch) : Stopwatch :=
  {| sw_running := true; sw_ms := sw_ms sw |}.
Definition Stopwatch_stop (sw : Stopwatch) : Stopwatch :=
  {| sw_running := false; sw_ms := sw_ms sw |}.

Record Job : Type := {
  job_uuid : string;
  job_botUuid : string;
  job_fileUuid : option string;
  job_fsm : string;                    (* [this.fsm.current] *)
  job_stopwatch : Stopwatch;
  job_started : option Z;
  job_elapsed : option Z;
  job_percentComplete : Z
}.

Definition set_job_fsm (s : string) (j : Job) : Job :=
  {| job_uuid := job_uuid j; job_botUuid := job_botUuid j;
     job_fileUuid := job_fileUuid j; job_fsm := s;
     job_stopwatch := job_stopwatch j; job_started := job_started j;
     job_elapsed := job_elapsed j; job_percentComplete := job_percentComplete j |}.

Definition set_job_stopwatch (sw : Stopwatch) (j : Job) : Job :=
  {| job_uuid := job_uuid j; job_botUuid := job_botUuid j;
     job_fileUuid := job_fileUuid j; job_fsm := job_fsm j;
     job_stopwatch := sw; job_started := job_started j;
     job_elapsed := job_elapsed j; job_percentComplete := job_percentComplete j |}.

Definition set_job_started (t : option Z) (j : Job) : Job :=
  {| job_uuid := job_uuid j; job_botUuid := job_botUuid j;
     job_fileUuid := job_fileUuid j; job_fsm := job_fsm j;
     job_stopwatch := job_stopwatch j; job_started := t;
     job_elapsed := job_elapsed j; job_percentComplete := job_percentComplete j |}.

(** What [getJob()] returns.  [null] and [undefined] are both [None];
    [snap_fileUuid = None] stands for [false]. *)
Record JobSnapshot : Type := {
  snap_botUuid : string;
  snap_uuid : string;
  snap_state : string;
  snap_fileUuid : option string;
  snap_started : option Z;
  snap_elapsed : option Z;
  snap_percentComplete : Z
}.

Module JobClass.

(** A method runs on the job object and the global [logger]. *)
Definition ctx : Type := (Job * Logger)%type.

Definition this : M ctx Job := gets fst.
Definition update (f : Job -> Job) : M ctx unit :=
  modify (fun c => (f (fst c), snd c)).
Definition logger (l : Level) (a : list string) : M ctx unit :=
  modify (fun c => (fst c, log_to (snd c) l a)).

Definition truthy (t : option Z) : bool :=
  match t with Some z => negb (z =? 0) | None => false end.

Definition getJob (j : Job) : JobSnapshot :=
  {| snap_botUuid := job_botUuid j;
     snap_uuid := job_uuid j;
     snap_state := if String.eqb (job_fsm j) EmptyString then "ready" else job_fsm j;
     snap_fileUuid := job_fileUuid j;
     snap_started := if truthy (job_started j) then job_started j else None;
     snap_elapsed :=
       if truthy (job_started j)
       then (if sw_ms (job_stopwatch j) =? 0 then job_elapsed j
             else Some (sw_ms (job_stopwatch j)))
       else None;
     snap_percentComplete := job_percentComplete j |}.

(** The [error] callback of the job's state machine (lines 64-68). *)
Definition fsmError (j : Job) (eventName from to : string) : string :=
  "Invalid job " +:+ job_uuid j +:+ " state change on event " +:+ dquote +:+ eventName
    +:+ dquote +:+ " from " +:+ dquote +:+ from +:+ dquote +:+ " to " +:+ dquote +:+ to
    +:+ dquote +:+ newline +:+ "args: " +:+ dquote +:+ dquote +:+ newline
    +:+ "errorCode: " +:+ dquote +:+ StateMachine.INVALID_TRANSITION +:+ dquote +:+ newline
    +:+ "errorMessage: " +:+ dquote +:+ StateMachine.invalid_message eventName from +:+ dquote.

(** The synchronous part of [onenterstate] (lines 71-72); the database
    update and the broadcast that follow its first [await] run later and
    swallow their own failures. *)
Definition onenterstate (event from to : string) : M ctx unit :=
  j ← this;
  logger LInfo ["Job " +:+ job_uuid j +:+ " Bot " +:+ job_botUuid j +:+ " event " +:+ event
                  +:+ ": Transitioning from " +:+ from +:+ " to " +:+ to +:+ "."].

(** [this.fsm.<event>()] *)
Definition fsm (defs : JobFsmDefinitions) (event : string) : M ctx unit :=
  j ← this;
  match StateMachine.fire (fsmEvents defs) event (job_fsm j) with
  | StateMachine.NoSuchMethod =>
      throw (TypeError ("this.fsm." +:+ event +:+ " is not a function"))
  | StateMachine.Invalid from to =>
      logger LError [fsmError j event from to];;
      throw (Error (fsmError j event from to))
  | StateMachine.NoTransition => mret tt
  | StateMachine.Moved from to =>
      update (set_job_fsm to);;
      onenterstate event from to
  end.

Definition stopwatch_start : M ctx unit :=
  update (fun j => set_job_stopwatch (Stopwatch_start (job_stopwatch j)) j).
Definition stopwatch_stop : M ctx unit :=
  update (fun j => set_job_stopwatch (Stopwatch_stop (job_stopwatch j)) j).

(** [start()], lines 147-160; [now] is [new Date().getTime()]. *)
Definition start (defs : JobFsmDefinitions) (now : Z) : M ctx unit :=
  j ← this;
  if negb (String.eqb (job_fsm j) "ready")
  then throw (Error ("Cannot start job from state " +:+ job_fsm j))
  else
    try_catch
      (update (set_job_started (Some now));;
       stopwatch_start;;
       fsm defs "start")
      (fun ex => logger LError ["Job start failure " +:+ error_to_string ex]).

(** [pause()], lines 168-183. *)
Definition pause (defs : JobFsmDefinitions) : M ctx unit :=
  j ← this;
  if String.eqb (job_fsm j) "paused" then mret tt
  else if negb (String.eqb (job_fsm j) "running")
  then throw (Error ("Cannot pause job from state " +:+ job_fsm j))
  else
    try_catch
      (stopwatch_stop;;
       fsm defs "pause")
      (fun ex => logger LError ["Job pause failure " +:+ error_to_string ex]).

(** [resume()], lines 191-205. *)
Definition resume (defs : JobFsmDefinitions) : M ctx unit :=
  j ← this;
  if String.eqb (job_fsm j) "running" then mret tt
  else if negb (String.eqb (job_fsm j) "paused")
  then throw (Error ("Cannot resume job from state " +:+ job_fsm j))
  else
    try_catch
      (stopwatch_start;;
       fsm defs "resume")
      (fun ex => logger LError ["Job resume failure " +:+ error_to_string ex]).

(** [cancel()], lines 213-225. *)
Definition cancel (defs : JobFsmDefinitions) : M ctx unit :=
  j ← this;
  if negb (includes (processingJob defs) (job_fsm j))
  then throw (Error ("Cannot cancel job from state " +:+ dquote +:+ job_fsm j +:+ dquote))
  else
    try_catch
      (stopwatch_stop;;
       fsm defs "cancel")
      (fun ex => logger LError ["Job cancel failure " +:+ error_to_string ex]).

(** [complete()], lines 227-233. *)
Definition complete (defs : JobFsmDefinitions) : M ctx unit :=
  j ← this;
  if negb (String.eqb (job_fsm j) "running")
  then throw (Error ("Cannot complete job from state " +:+ dquote +:+ job_fsm j +:+ dquote))
  else
    fsm defs "completeJob";;
    stopwatch_stop.

(** *** Creating a job *)

(** The argument of the constructor; a field that is [None] is [undefined].
    [app], the server, is passed on and nothing of it is read here. *)
Record JobParams : Type := {
  params_botUuid : option string;
  params_fileUuid : option string;
  params_jobUuid : option string;
  params_initialState : option string;
  params_id : option Z;
  params_subscribers : option (list string)   (* [None]: not an array *)
}.

(** The object the constructor leaves. *)
Record JobObject : Type := {
  this_botUuid : option string;
  this_fileUuid : option string;
  this_uuid : string;
  this_initialState : option string;
  this_id : option Z;
  this_subscribers : list string
}.

(** [constructor(jobParams)], lines 27-36; [uuidGenerator] is what
    [uuidGenerator()] returns when it is called. *)
Definition constructor (uuidGenerator : string) (jobParams : JobParams) : JobObject :=
  {| this_botUuid := params_botUuid jobParams;
     this_fileUuid := params_fileUuid jobParams;
     this_uuid := match params_jobUuid jobParams with
                  | Some jobUuid => jobUuid
                  | None => uuidGenerator
                  end;
     this_initialState := params_initialState jobParams;
     this_id := params_id jobParams;
     this_subscribers := match params_subscribers jobParams with
                         | Some subscribers => subscribers
                         | None => []
                         end |}.

(** Lines 51-60. *)
Definition initialState_of (initialState : option string) : string :=
  match initialState with
  | Some s =>
      if String.eqb s "complete" || String.eqb s "canceled" then s else "canceled"
  | None => "initializing"
  end.

(** [StateMachine.create] with [initial: initialState]: the state machine
    starts in [none] and the table gets a first row, the event [startup] from
    [none] to the initial state, which [create] fires at once. *)
Definition startup (initialState : string) : FsmEvent :=
  {| ev_name := "startup"; ev_from := "none"; ev_to := initialState |}.

Definition created (defs : JobFsmDefinitions) (initialState : string) : JobFsmDefinitions :=
  {| fsmEvents := startup initialState :: fsmEvents defs;
     processingJob := processingJob defs |}.

(** [initialize()], lines 45-117.  [jobModel] is the outcome of
    [await jobModel(this.app)], a module that is not among the sources: the
    exception it rejects with, or [None].  The stopwatch is created stopped
    at 0; its [onTime] handler runs on timer ticks, which are not modelled.
    The result is the initialised object. *)
Definition initialize (defs : JobFsmDefinitions) (jobModel : option JsError)
    (o : JobObject) : M Logger Job :=
  match jobModel with
  | Some ex => throw ex
  | None =>
      match this_botUuid o with
      | None => throw (Error (dquote +:+ "botUuid" +:+ dquote +:+ " is not defined"))
      | Some botUuid =>
          let initialState := initialState_of (this_initialState o) in
          let table := created defs initialState in
          let job :=
            {| job_uuid := this_uuid o; job_botUuid := botUuid;
               job_fileUuid := this_fileUuid o; job_fsm := "none";
               job_stopwatch := {| sw_running := false; sw_ms := 0 |};
               job_started := None; job_elapsed := None;
               job_percentComplete := 0 |} in
          fun lg =>
            match (fsm table "startup";;
                   j ← this;
                   if String.eqb (job_fsm j) "initializing"
                   then fsm table "initializationDone"
                   else mret tt) (job, lg) with
            | ((j, lg'), Normal _) => (lg', Normal j)
            | ((_, lg'), Throw ex) => (lg', Throw ex)
            end
      end
  end.

End JobClass.

(** ** pause.js: the device, its queue entries and the pause command *)

(** The tables of [react/modules/Bots/botFsmDefinitions], which pause.js
    requires and which is not among the sources: parameters as well. *)
Record BotFsmDefinitions : Type := {
  botFsmEvents : list FsmEvent;
  pauseable : list string              (* [metaStates.pauseable] *)
}.

Record Position : Type := { pos_x : JsVal; pos_y : JsVal; pos_z : JsVal; pos_e : JsVal }.

Record Settings : Type := {
  name : string;
  offsetX : JsVal;
  offsetY : JsVal;
  offsetZ : JsVal
}.

(** The closures pause.js creates, each with the variables it captured.
    Entries of the queue are bare instruction strings or objects with an
    optional [preCallback], [code], [processData] and [postCallback]. *)
Inductive ProcessData : Type :=
| PdM114.                                         (* lines 54-63 *)

Inductive Callback : Type :=
| CbPauseDone                                     (* lines 34-36 *)
| CbStartingMovements                             (* lines 50-52 *)
| CbCapturePosition (cell : nat)                  (* lines 67-69 *)
| CbPrependPauseEnd (pauseEndCommand : Command)   (* lines 73-75 *)
| CbPauseJob (pauseMovementCommand : list Command)(* lines 81-87 *)
| CbDeferredPause                                 (* lines 92-96 *)
with Command : Type :=
| CmdCode (code : string)
| CmdEntry (preCallback : option Callback) (code : option string)
           (processData : option ProcessData) (postCallback : option Callback).

(** What the instrumented run records, oldest first: instruction text put on
    the wire, entries that have completed (satisfied, post-callback run), and
    calls of the methods of [self.fsm]. *)
Inductive Event : Type :=
| Sent (code : string)
| Completed (c : Command)
| BotFsm (event : string).

(** The device object [self], the queue it owns and the logger.  [cells]
    holds the [let pausedPosition] of every call of [pause], which the lift
    entry's pre-callback assigns to; [inflight] is the entry that has been
    sent and awaits its response; [fault] is an exception that escaped a
    callback of the queue; [history] is the record of [Event]s. *)
Record Bot : Type := {
  settings : Settings;
  fsm_current : string;                (* [self.fsm.current] *)
  currentJob : option Job;
  pausedPosition : option Position;
  pauseableState : option string;
  queue : list Command;
  inflight : option Command;
  fault : option JsError;
  cells : list (option Position);
  logger : Logger;
  history : list Event
}.

Definition set_fsm_current (v : string) (b : Bot) : Bot :=
  {| settings := settings b; fsm_current := v; currentJob := currentJob b;
     pausedPosition := pausedPosition b; pauseableState := pauseableState b;
     queue := queue b; inflight := inflight b; fault := fault b; cells := cells b;
     logger := logger b; history := history b |}.
Definition set_currentJob (v : option Job) (b : Bot) : Bot :=
  {| settings := settings b; fsm_current := fsm_current b; currentJob := v;
     pausedPosition := pausedPosition b; pauseableState := pauseableState b;
     queue := queue b; inflight := inflight b; fault := fault b; cells := cells b;
     logger := logger b; history := history b |}.
Definition set_pausedPosition (v : option Position) (b : Bot) : Bot :=
  {| settings := settings b; fsm_current := fsm_current b; currentJob := currentJob b;
     pausedPosition := v; pauseableState := pauseableState b;
     queue := queue b; inflight := inflight b; fault := fault b; cells := cells b;
     logger := logger b; history := history b |}.
Definition set_pauseableState (v : option string) (b : Bot) : Bot :=
  {| settings := settings b; fsm_current := fsm_current b; currentJob := currentJob b;
     pausedPosition := pausedPosition b; pauseableState := v;
     queue := queue b; inflight := inflight b; fault := fault b; cells := cells b;
     logger := logger b; history := history b |}.
Definition set_queue (v : list Command) (b : Bot) : Bot :=
  {| settings := settings b; fsm_current := fsm_current b; currentJob := currentJob b;
     pausedPosition := pausedPosition b; pauseableState := pauseableState b;
     queue := v; inflight := inflight b; fault := fault b; cells := cells b;
     logger := logger b; history := history b |}.
Definition set_inflight (v : option Command) (b : Bot) : Bot :=
  {| settings := settings b; fsm_current := fsm_current b; currentJob := currentJob b;
     pausedPosition := pausedPosition b; pauseableState := pauseableState b;
     queue := queue b; inflight := v; fault := fault b; cells := cells b;
     logger := logger b; history := history b |}.
Definition set_fault (v : option JsError) (b : Bot) : Bot :=
  {| settings := settings b; fsm_current := fsm_current b; currentJob := currentJob b;
     pausedPosition := pausedPosition b; pauseableState := pauseableState b;
     queue := queue b; inflight := inflight b; fault := v; cells := cells b;
     logger := logger b; history := history b |}.
Definition set_cells (v : list (option Position)) (b : Bot) : Bot :=
  {| settings := settings b; fsm_current := fsm_current b; currentJob := currentJob b;
     pausedPosition := pausedPosition b; pauseableState := pauseableState b;
     queue := queue b; inflight := inflight b; fault := fault b; cells := v;
     logger := logger b; history := history b |}.
Definition set_logger (v : Logger) (b : Bot) : Bot :=
  {| settings := settings b; fsm_current := fsm_current b; currentJob := currentJob b;
     pausedPosition := pausedPosition b; pauseableState := pauseableState b;
     queue := queue b; inflight := inflight b; fault := fault b; cells := cells b;
     logger := v; history := history b |}.
Definition set_history (v : list Event) (b : Bot) : Bot :=
  {| settings := settings b; fsm_current := fsm_current b; currentJob := currentJob b;
     pausedPosition := pausedPosition b; pauseableState := pauseableState b;
     queue := queue b; inflight := inflight b; fault := fault b; cells := cells b;
     logger := logger b; history := v |}.

Definition record (e : Event) : M Bot unit :=
  modify (fun b => set_history (history b ++ [e]) b).

Definition self_logger (l : Level) (a : list string) : M Bot unit :=
  modify (fun b => set_logger (log_to (logger b) l a) b).

(** Modelled from the spec: [Bot.getBot], which pause.js calls and which is not
    among the sources, "the current device/job snapshot": the settings, the
    state of the device state machine and the [getJob()] of the current job. *)
Record BotSnapshot : Type := {
  bot_settings : Settings;
  bot_state : string;
  bot_currentJob : option JobSnapshot
}.

Definition getBot (b : Bot) : BotSnapshot :=
  {| bot_settings := settings b;
     bot_state := fsm_current b;
     bot_currentJob := JobClass.getJob <$> currentJob b |}.

(** Modelled from the spec: the command queue's [prependCommands] and
    [queueCommands] (section 4.1), which take one entry or an array of
    entries: insertion at the head, insertion at the tail, nothing else. *)
Definition prependCommands (cmds : list Command) : M Bot unit :=
  modify (fun b => set_queue (cmds ++ queue b) b).
Definition queueCommands (cmds : list Command) : M Bot unit :=
  modify (fun b => set_queue (queue b ++ cmds) b).

(** Modelled from the spec: [self.fsm], the device state machine, which the
    Bot class (not among the sources) creates.  Section 4.2: "firing a
    transition from a state that does not permit it raises a state-transition
    error"; this is also what javascript-state-machine does when no [error]
    callback is configured (it throws the message).  No transition callbacks
    are assumed.  The call is recorded before it is carried out. *)
Definition self_fsm (defs : BotFsmDefinitions) (event : string) : M Bot unit :=
  record (BotFsm event);;
  b ← get;
  match StateMachine.fire (botFsmEvents defs) event (fsm_current b) with
  | StateMachine.NoSuchMethod =>
      throw (TypeError ("self.fsm." +:+ event +:+ " is not a function"))
  | StateMachine.Invalid from _ =>
      throw (ThrownString (StateMachine.invalid_message event from))
  | StateMachine.NoTransition => mret tt
  | StateMachine.Moved _ to => modify (set_fsm_current to)
  end.

(** A method call on [self.currentJob]. *)
Definition self_currentJob {A} (method : string) (m : M JobClass.ctx A) : M Bot A :=
  b ← get;
  match currentJob b with
  | None => throw (TypeError ("Cannot read property '" +:+ method +:+ "' of undefined"))
  | Some j =>
      fun b0 =>
        match m (j, logger b0) with
        | ((j', lg'), r) => (set_logger lg' (set_currentJob (Some j') b0), r)
        end
  end.

(** Line 45: [.*X:(n)\s*Y:(n)\s*Z:(n)\s*E:(n).*] where [(n)] is
    [([+-]?\d+(\.\d+)?)]; the groups are numbered 1 to 8. *)
Definition number_group (i : nat) : Regex.regex :=
  Regex.Group i
    (Regex.Seq (Regex.Opt (Regex.Class Regex.sign_char))
       (Regex.Seq (Regex.Plus is_digit)
          (Regex.Opt (Regex.Group (S i)
             (Regex.Seq (Regex.Chr ".") (Regex.Plus is_digit)))))).

Definition axis (letter : ascii) (i : nat) : Regex.regex :=
  Regex.Seq (Regex.Chr letter) (Regex.Seq (Regex.Chr ":") (number_group i)).

Definition m114Regex : Regex.regex :=
  Regex.Seq (Regex.Star Regex.any_char)
 (Regex.Seq (axis "X" 1)
 (Regex.Seq (Regex.Star is_space)
 (Regex.Seq (axis "Y" 3)
 (Regex.Seq (Regex.Star is_space)
 (Regex.Seq (axis "Z" 5)
 (Regex.Seq (Regex.Star is_space)
 (Regex.Seq (axis "E" 7)
            (Regex.Star Regex.any_char)))))))).

(** Lines 54-63: the response-processing function of the M114 entry. *)
Definition processData_M114 (data : string) : M Bot bool :=
  match Regex.js_match data m114Regex with
  | None => throw (TypeError "Cannot read property '1' of null")
  | Some parsedPosition =>
      b ← get;
      modify (set_pausedPosition (Some
        {| pos_x := VNumber (JsNum.sub (Number (Regex.capture parsedPosition 1))
                                       (Number (offsetX (settings b))));
           pos_y := VNumber (JsNum.sub (Number (Regex.capture parsedPosition 3))
                                       (Number (offsetY (settings b))));
           pos_z := VNumber (JsNum.sub (Number (Regex.capture parsedPosition 5))
                                       (Number (offsetZ (settings b))));
           pos_e := VNumber (Number (Regex.capture parsedPosition 7)) |}));;
      mret true
  end.

Definition run_processData (pd : ProcessData) (data : string) : M Bot bool :=
  match pd with
  | PdM114 => processData_M114 data
  end.

(** Lines 39-44. *)
Definition undefined_position : Position :=
  {| pos_x := VUndefined; pos_y := VUndefined; pos_z := VUndefined; pos_e := VUndefined |}.

(** Lines 33-37. *)
Definition pauseEndCommand : Command :=
  CmdEntry None None None (Some CbPauseDone).

(** Line 70, the template literal [`G1 Z${pausedPosition.z + 10}`]. *)
Definition lift_code (pausedPosition : Position) : string :=
  "G1 Z" +:+ ToString (js_plus (pos_z pausedPosition) (VNumber (JsNum.of_Z 10))).

(** Lines 46-77.  The array literal is evaluated when [pause] runs: [cell] is
    the variable [pausedPosition] and [now] the object it holds at that time. *)
Definition pauseMovementCommand (cell : nat) (now : Position) : list Command :=
  [ CmdCode "M400";
    CmdEntry (Some CbStartingMovements) (Some "M114") (Some PdM114) None;
    CmdEntry (Some (CbCapturePosition cell)) (Some (lift_code now)) None None;
    CmdEntry None None None (Some (CbPrependPauseEnd pauseEndCommand)) ].

(** Lines 91-97. *)
Definition deferredPauseCommand : Command :=
  CmdEntry None None None (Some CbDeferredPause).

(** [self.logger.debug('Just queued pause', self.getBot().settings.name, self.fsm.current)] *)
Definition just_queued_pause : M Bot unit :=
  b ← get;
  self_logger LDebug ["Just queued pause"; name (bot_settings (getBot b)); fsm_current b].

Definition run_callback (jdefs : JobFsmDefinitions) (defs : BotFsmDefinitions)
    (cb : Callback) : M Bot unit :=
  match cb with
  | CbPauseDone => self_fsm defs "pauseDone"
  | CbStartingMovements => self_logger LDebug ["Starting pause movements"]
  | CbCapturePosition cell =>
      b ← get;
      modify (set_cells (<[cell := pausedPosition b]> (cells b)))
  | CbPrependPauseEnd c => prependCommands [c]
  | CbPauseJob movement =>
      self_logger LDebug ["Starting pause command"];;
      self_currentJob "pause" (JobClass.pause jdefs);;
      prependCommands movement
  | CbDeferredPause =>
      just_queued_pause;;
      b ← get;
      modify (set_pauseableState (Some (fsm_current b)));;
      self_fsm defs "pause"
  end.

(** Lines 7-104, the body of the [try]. *)
Definition pause_try (defs : BotFsmDefinitions) : M Bot unit :=
  self ← get;
  match currentJob self with
  | None =>
      throw (Error ("Bot " +:+ name (settings self) +:+ " is not currently processing a job"))
  | Some job =>
      if negb (includes (pauseable defs) (fsm_current self)) then
        throw (Error ("Cannot pause bot from state " +:+ dquote +:+ fsm_current self +:+ dquote))
      else if negb (String.eqb (job_fsm job) "running") then
        throw (Error ("Cannot pause job from state " +:+ dquote +:+ job_fsm job +:+ dquote))
      else
        let commandArray : list Command := [] in
        let pausedPosition := undefined_position in
        let cell := length (cells self) in
        modify (set_cells (cells self ++ [Some pausedPosition]));;
        let movement := pauseMovementCommand cell pausedPosition in
        prependCommands [CmdEntry None None None (Some (CbPauseJob movement))];;
        if String.eqb (fsm_current self) "blocking" || String.eqb (fsm_current self) "unblocking"
        then
          queueCommands (deferredPauseCommand :: commandArray)
        else
          prependCommands commandArray;;
          just_queued_pause;;
          modify (set_pauseableState (Some (fsm_current self)));;
          self_fsm defs "pause"
  end.

(** Lines 5-110. *)
Definition pause (defs : BotFsmDefinitions) : M Bot BotSnapshot :=
  try_catch (pause_try defs)
            (fun ex => self_logger LError ["Pause error"; error_to_string ex]);;
  gets getBot.

(** ** The drain loop of the command queue

    The command queue class is not among the sources; its drain loop is
    modelled from section 4.1 of the spec: the head entry is popped, its
    pre-callback runs, its instruction text (if any) is transmitted, each
    response line goes to the entry's response-processing function (if any),
    which says whether more lines are expected; an entry with neither text nor
    processing function is satisfied at once; a satisfied entry has its
    post-callback run, and the drain continues.  Every instruction sent is
    answered: transport failures and time are outside the model, and so is the
    checksum suffix of the transmitted text. *)

(** Modelled from the spec: two points of the command queue that section 4.1
    leaves open, as parameters of the drain.  [moreLinesWhen] is the Boolean
    by which a processing function asks for more lines (section 4.1 says
    [true]).  [haltOnThrow] says what an exception escaping a callback does:
    stop the drain with the exception as [fault], or log the failed entry and
    go on with the next one (the policy section 4.1 gives for transport
    errors). *)
Record QueueConvention : Type := {
  moreLinesWhen : bool;
  haltOnThrow : bool
}.

Definition preCallback_of (c : Command) : option Callback :=
  match c with CmdCode _ => None | CmdEntry pre _ _ _ => pre end.
Definition code_of (c : Command) : option string :=
  match c with CmdCode s => Some s | CmdEntry _ code _ _ => code end.
Definition processData_of (c : Command) : option ProcessData :=
  match c with CmdCode _ => None | CmdEntry _ _ pd _ => pd end.
Definition postCallback_of (c : Command) : option Callback :=
  match c with CmdCode _ => None | CmdEntry _ _ _ post => post end.

Section Drain.

Variable jdefs : JobFsmDefinitions.
Variable defs : BotFsmDefinitions.
Variable conv : QueueConvention.

(** Modelled from the spec: the queue invoking a callback "(if any)". *)
Definition run_optional (cb : option Callback) : M Bot unit :=
  match cb with
  | Some f => run_callback jdefs defs f
  | None => mret tt
  end.

(** Modelled from the spec: "Once satisfied, invoke the post-callback (if
    any), then continue draining"; the entry has then completed. *)
Definition finish (c : Command) : M Bot unit :=
  run_optional (postCallback_of c);;
  record (Completed c).

(** Modelled from the spec: the entry at the head of the queue is started:
    "invoke its pre-callback (if any), transmit its instruction text (if any)
    [...] then wait for response line(s)"; "An entry with no instruction text
    and no processing function is satisfied immediately after its
    pre-callback runs." *)
Definition begin (c : Command) : M Bot unit :=
  run_optional (preCallback_of c);;
  match code_of c, processData_of c with
  | Some text, _ => record (Sent text);; modify (set_inflight (Some c))
  | None, Some _ => modify (set_inflight (Some c))
  | None, None => finish c
  end.

(** Modelled from the spec: a piece of the drain is run; an exception that
    escapes it fails the entry at hand, as [haltOnThrow] says. *)
Definition attempt (m : M Bot unit) (b : Bot) : Bot :=
  match m b with
  | (b', Normal _) => b'
  | (b', Throw e) =>
      if haltOnThrow conv then set_fault (Some e) b'
      else set_logger (log_to (logger b') LError ["Command failed"; error_to_string e])
                      (set_inflight None b')
  end.

(** Modelled from the spec: "while the queue is non-empty and no entry is in
    flight, pop the head entry" and start it; [fuel] bounds the number of
    entries started. *)
Fixpoint pump (fuel : nat) (b : Bot) : Bot :=
  match fuel with
  | O => b
  | S fuel' =>
      match fault b, inflight b, queue b with
      | None, None, c :: q => pump fuel' (attempt (begin c) (set_queue q b))
      | _, _, _ => b
      end
  end.

(** Modelled from the spec: a response line arrives for the entry in flight:
    "For each response line, invoke the entry's response-processing function
    if present; the function returns whether to keep waiting for more lines
    [...] or that the entry is satisfied".  An entry with text and no
    processing function is satisfied by its first response line; a line
    nobody waits for is dropped. *)
Definition on_line (data : string) (b : Bot) : Bot :=
  match fault b, inflight b with
  | None, Some c =>
      match processData_of c with
      | None => attempt (finish c) (set_inflight None b)
      | Some pd =>
          attempt
            (more ← run_processData pd data;
             if Bool.eqb more (moreLinesWhen conv) then mret tt
             else modify (set_inflight None);; finish c)
            b
      end
  | _, _ => b
  end.

(** Modelled from the spec: after a response line the drain continues. *)
Definition receive (fuel : nat) (b : Bot) (data : string) : Bot :=
  pump fuel (on_line data b).

(** Modelled from the spec: the queue drained against the response lines
    [lines] of the device. *)
Definition drain (fuel : nat) (lines : list string) (b : Bot) : Bot :=
  fold_left (receive fuel) lines (pump fuel b).

End Drain.

(** ** The job registry: the [Jobs] class *)

Record IoMessage : Type := {
  io_topic : string;
  io_uuid : string;
  io_event : string;
  io_data : option JobSnapshot         (* [None] is [null] *)
}.

(** The socket [app.io]: the messages emitted, and the exception [emit]
    throws when the transport is broken. *)
Record Socket : Type := { emitted : list IoMessage; broken : option JsError }.

Record Jobs : Type := {
  jobList : gmap string Job;
  jobs_logger : Logger;
  io : Socket
}.

Module JobsClass.

Definition log (l : Level) (a : list string) : M Jobs unit :=
  modify (fun js => {| jobList := jobList js;
                       jobs_logger := log_to (jobs_logger js) l a;
                       io := io js |}).

(** [this.app.io.emit(topic, message)] *)
Definition emit (m : IoMessage) : M Jobs unit :=
  js ← get;
  match broken (io js) with
  | Some e => throw e
  | None =>
      modify (fun js => {| jobList := jobList js;
                           jobs_logger := jobs_logger js;
                           io := {| emitted := emitted (io js) ++ [m];
                                    broken := None |} |})
  end.

(** [getJob(jobUuid)], lines 331-333 of the bundle. *)
Definition getJob (jobUuid : string) : M Jobs JobSnapshot :=
  js ← get;
  match jobList js !! jobUuid with
  | Some j => mret (JobClass.getJob j)
  | None => throw (TypeError "Cannot read property 'getJob' of undefined")
  end.

(** [deleteJob(jobUuid)], lines 346-362 of the bundle. *)
Definition deleteJob (jobUuid : string) : M Jobs string :=
  js ← get;
  let theJob := jobList js !! jobUuid in
  modify (fun js => {| jobList := delete jobUuid (jobList js);
                       jobs_logger := jobs_logger js;
                       io := io js |});;
  log LInfo ["Job " +:+ jobUuid +:+ " deleted"];;
  try_catch
    (emit {| io_topic := "jobEvent"; io_uuid := jobUuid;
             io_event := "delete"; io_data := None |})
    (fun ex => log LError ["Socket error"; error_to_string ex]);;
  mret ("Job " +:+ jobUuid +:+ " deleted").


End JobsClass.

(** ** JavaScript strings: [split] *)

Module JsString.

Fixpoint starts_with (p s : list ascii) : bool :=
  match p, s with
  | [], _ => true
  | _ :: _, [] => false
  | a :: p', b :: s' => Ascii.eqb a b && starts_with p' s'
  end.

(** The pieces of [s] between the occurrences of the separator, found from
    left to right, an occurrence starting no earlier than where the one
    before it ends.  [skip] counts the characters of a separator just found
    that are still to be passed over; the head of the result is the piece
    that is being read. *)
Fixpoint split_from (sep : list ascii) (skip : nat) (s : list ascii) : list (list ascii) :=
  match s with
  | [] => [[]]
  | c :: s' =>
      match skip with
      | S k => split_from sep k s'
      | O =>
          if starts_with sep s
          then [] :: split_from sep (length sep - 1) s'
          else match split_from sep 0 s' with
               | piece :: pieces => (c :: piece) :: pieces
               | [] => [[c]]
               end
      end
  end.

(** [s.split(sep)] for a string [sep]; the empty separator splits between
    the characters. *)
Definition split (sep s : list ascii) : list (list ascii) :=
  match sep with
  | [] => map (fun c => [c]) s
  | _ :: _ => split_from sep 0 s
  end.

End JsString.

Definition js_split (sep s : string) : list string :=
  map unchars (JsString.split (chars sep) (chars s)).

(** A string or [undefined] inside a template literal or added to a
    string. *)
Definition text (v : option string) : string :=
  match v with
  | Some s => s
  | None => "undefined"
  end.

(** ** files/index.js: the [Files] class *)

Record FileObject : Type := {
  file_uuid : string;
  file_name : string;
  file_dateChanged : Z;
  file_filePath : string
}.

Record FileMessage : Type := {
  fm_topic : string;
  fm_uuid : string;
  fm_event : string;
  fm_data : option FileObject          (* [None] is [null] *)
}.

(** [app.io] as the file store uses it: the messages broadcast, and the
    exception [broadcast] throws when the transport is broken. *)
Record FileSocket : Type := { broadcasts : list FileMessage; io_broken : option JsError }.

(** The file system behind [fs-promise]: what is at each path (a file or a
    directory, with its change time), and the time the system stamps on the
    next change.  Parent directories and permissions are not modelled. *)
Record Stats : Type := { isDirectory : bool; ctime : Z }.

Record Disk : Type := { nodes : gmap string Stats; clock : Z }.

(** The file koa-body hands over: its name and the path it was stored at. *)
Record Upload : Type := { upload_name : string; upload_path : string }.

Record Files : Type := {
  uploadDir : string;
  fileList : gmap string FileObject;
  files_logger : Logger;
  files_io : FileSocket;
  disk : Disk
}.

Definition set_fileList (v : gmap string FileObject) (fs : Files) : Files :=
  {| uploadDir := uploadDir fs; fileList := v; files_logger := files_logger fs;
     files_io := files_io fs; disk := disk fs |}.

Definition set_files_logger (v : Logger) (fs : Files) : Files :=
  {| uploadDir := uploadDir fs; fileList := fileList fs; files_logger := v;
     files_io := files_io fs; disk := disk fs |}.

Definition set_files_io (v : FileSocket) (fs : Files) : Files :=
  {| uploadDir := uploadDir fs; fileList := fileList fs; files_logger := files_logger fs;
     files_io := v; disk := disk fs |}.

Definition set_nodes (v : gmap string Stats) (fs : Files) : Files :=
  {| uploadDir := uploadDir fs; fileList := fileList fs; files_logger := files_logger fs;
     files_io := files_io fs; disk := {| nodes := v; clock := clock (disk fs) |} |}.

Module Fs.

Definition failure (errno syscall path : string) : JsError :=
  Error (errno +:+ ", " +:+ syscall +:+ " '" +:+ path +:+ "'").

Definition ENOENT : string := "ENOENT: no such file or directory".
Definition EEXIST : string := "EEXIST: file already exists".
Definition EISDIR : string := "EISDIR: illegal operation on a directory".

(** [fs.exists(path)] *)
Definition exists_ (path : string) : M Files bool :=
  fs ← get;
  mret (match nodes (disk fs) !! path with Some _ => true | None => false end).

(** [fs.stat(path)] *)
Definition stat (path : string) : M Files Stats :=
  fs ← get;
  match nodes (disk fs) !! path with
  | Some stats => mret stats
  | None => throw (failure ENOENT "stat" path)
  end.

(** [fs.mkdir(path)] *)
Definition mkdir (path : string) : M Files unit :=
  fs ← get;
  match nodes (disk fs) !! path with
  | Some _ => throw (failure EEXIST "mkdir" path)
  | None =>
      modify (set_nodes (<[path := {| isDirectory := true; ctime := clock (disk fs) |}]>
                           (nodes (disk fs))))
  end.

(** [fs.rename(oldPath, newPath)]: what is at the new path is replaced. *)
Definition rename (oldPath newPath : string) : M Files unit :=
  fs ← get;
  match nodes (disk fs) !! oldPath with
  | None => throw (failure ENOENT "rename" oldPath)
  | Some stats =>
      modify (set_nodes (<[newPath := {| isDirectory := isDirectory stats;
                                         ctime := clock (disk fs) |}]>
                           (delete oldPath (nodes (disk fs)))))
  end.

(** [fs.unlink(path)] *)
Definition unlink (path : string) : M Files unit :=
  fs ← get;
  match nodes (disk fs) !! path with
  | None => throw (failure ENOENT "unlink" path)
  | Some stats =>
      if isDirectory stats then throw (failure EISDIR "unlink" path)
      else modify (set_nodes (delete path (nodes (disk fs))))
  end.

End Fs.

Module FilesClass.

Definition log (l : Level) (a : list string) : M Files unit :=
  modify (fun fs => set_files_logger (log_to (files_logger fs) l a) fs).

(** [this.app.io.broadcast(topic, message)] *)
Definition broadcast (m : FileMessage) : M Files unit :=
  fs ← get;
  match io_broken (files_io fs) with
  | Some ex => throw ex
  | None =>
      modify (set_files_io {| broadcasts := broadcasts (files_io fs) ++ [m];
                              io_broken := None |})
  end.

(** [createUploadDirectory()], lines 58-63. *)
Definition createUploadDirectory : M Files unit :=
  this ← get;
  directoryExists ← Fs.exists_ (uploadDir this);
  if negb directoryExists then Fs.mkdir (uploadDir this) else mret tt.

(** The function [scanUploadDirectory] hands to [walk.walkSync], lines 73-94,
    which the walk calls with the directory and the name of every entry it
    finds.  An exception rejects the promise of this one call. *)
Definition scanUploadDirectory_callback (basedir filename : string) : M Files unit :=
  match last (js_split "_" filename) with
  | None => throw (TypeError "Cannot read property 'split' of undefined")
  | Some piece =>
      match js_split "." piece !! 0%nat with
      | None => throw (TypeError "Cannot read property 'length' of undefined")
      | Some uuid =>
          if negb (Nat.eqb (String.length uuid) 36) then mret tt
          else
            let fileExtension := js_split "." filename !! 1%nat in
            match fileExtension with
            | None => mret tt
            | Some _ =>
                let name := text (js_split ("_" +:+ uuid) filename !! 0%nat)
                              +:+ "." +:+ text (js_split "." filename !! 1%nat) in
                let filePath := basedir +:+ "/" +:+ filename in
                fileStats ← Fs.stat filePath;
                let dateChanged := ctime fileStats in
                let fileObject :=
                  {| file_uuid := uuid; file_name := name;
                     file_dateChanged := dateChanged; file_filePath := filePath |} in
                modify (fun self => set_fileList (<[uuid := fileObject]> (fileList self)) self)
            end
      end
  end.

(** [createFile(file, userPath, userUuid)], lines 130-165; [uuidGenerator] is
    what [uuidGenerator()] returns when it is called. *)
Definition createFile (uuidGenerator : string) (file : option Upload)
    (userPath userUuid : option string) : M Files FileObject :=
  this ← get;
  match userPath with
  | None =>
      let uuid := uuidGenerator in
      match file with
      | None => throw (TypeError "Cannot read property 'name' of undefined")
      | Some file =>
          let name := upload_name file in
          fileStats ← Fs.stat (upload_path file);
          let dateChanged := ctime fileStats in
          let filePath :=
            uploadDir this +:+ "/" +:+ text (js_split "." name !! 0%nat) +:+ "_" +:+ uuid
              +:+ "." +:+ text (js_split "." name !! 1%nat) in
          let fileObject :=
            {| file_uuid := uuid; file_name := name;
               file_dateChanged := dateChanged; file_filePath := filePath |} in
          let nameArray := js_split "." name in
          let fileName := nameArray !! 0%nat in
          let fileExt := nameArray !! 1%nat in
          let filenameWithUuid :=
            uploadDir this +:+ "/" +:+ text fileName +:+ "_" +:+ uuid
              +:+ "." +:+ text fileExt in
          Fs.rename (upload_path file) filenameWithUuid;;
          modify (fun self => set_fileList (<[uuid := fileObject]> (fileList self)) self);;
          broadcast {| fm_topic := "fileEvent"; fm_uuid := uuid;
                       fm_event := "new"; fm_data := Some fileObject |};;
          mret fileObject
      end
  | Some userPath =>
      match userUuid with
      | None => throw (ThrownString "userUuid must be defined")
      | Some userUuid =>
          fileStats ← Fs.stat userPath;
          let uuid := userUuid in
          match last (js_split "\" userPath) with
          | None => throw (TypeError "Cannot read property 'split' of undefined")
          | Some tail =>
              let name := text (last (js_split "/" tail)) in
              let dateChanged := ctime fileStats in
              let fileObject :=
                {| file_uuid := uuid; file_name := name;
                   file_dateChanged := dateChanged; file_filePath := userPath |} in
              modify (fun self => set_fileList (<[uuid := fileObject]> (fileList self)) self);;
              mret fileObject
          end
      end
  end.

(** [getFiles()], lines 174-180: a new object with the entries of the
    list. *)
Definition getFiles : M Files (gmap string FileObject) :=
  this ← get;
  mret (map_fold (fun fileKey file (fileList : gmap string FileObject) =>
                    <[fileKey := file]> fileList)
                 ∅ (fileList this)).

(** [getFile(fileUuid)], lines 191-202. *)
Definition getFile (fileUuid : option string) : M Files FileObject :=
  this ← get;
  match fileUuid with
  | None => throw (ThrownString "File uuid is undefined")
  | Some fileUuid =>
      match fileList this !! fileUuid with
      | None => throw (ThrownString ("File " +:+ fileUuid +:+ " does not exist"))
      | Some theFile => mret theFile
      end
  end.

(** [deleteFile(fileUuid)], lines 213-230. *)
Definition deleteFile (fileUuid : string) : M Files string :=
  this ← get;
  match fileList this !! fileUuid with
  | None => throw (TypeError "Cannot read property 'filePath' of undefined")
  | Some file =>
      fileExists ← Fs.exists_ (file_filePath file);
      if (fileExists : bool) then
        Fs.unlink (file_filePath file);;
        log LInfo ["Just deleted file"; file_filePath file];;
        modify (fun self => set_fileList (delete fileUuid (fileList self)) self);;
        broadcast {| fm_topic := "fileEvent"; fm_uuid := fileUuid;
                     fm_event := "delete"; fm_data := None |};;
        mret ("File " +:+ fileUuid +:+ " deleted")
      else
        mret ("File " +:+ fileUuid +:+ " does not exist")
  end.

End FilesClass.

(** ** The Melzi bot: the Virtual bot with some of its parts replaced

    [src/unnamed/part_000], the definition of a bot that is built on the
    Virtual bot whose [pause] command is modelled above. *)

(** The values of a bot definition; a function is known by the module it is
    required from. *)
#[warnings="-register-all"]
Inductive Json : Type :=
| JString (s : string)
| JNumber (n : Z)
| JBool (b : bool)
| JArray (items : list Json)
| JObject (fields : list (string * Json))
| JFunction (module : string).

Module Melzi.

(** [Object.assign(target, source)], and lodash's [_.extend(target, source)]
    on plain objects: the properties of the source are written over those of
    the target. *)
Definition assign (target source : gmap string Json) : gmap string Json := source ∪ target.

Record BotDefinition : Type := {
  info : gmap string Json;
  settings : gmap string Json;
  commands : gmap string Json
}.

Definition own_info : gmap string Json :=
  list_to_map
    [ ("connectionType", JString "serial");
      ("fileTypes", JArray [JString ".gcode"]);
      ("vidPid", JArray [JObject [("vid", JNumber 0x0403); ("pid", JNumber 0x6001)]]);
      ("baudrate", JNumber 115200);
      ("checksumSupport", JBool true) ].

Definition own_settings : gmap string Json :=
  list_to_map [ ("name", JString "Melzi Bot"); ("model", JString "Melzi") ].

Definition own_commands : gmap string Json :=
  list_to_map
    [ ("connect", JFunction "./commands/connect");
      ("generateParkCommands", JFunction "./commands/generateParkCommands");
      ("generateUnparkCommands", JFunction "./commands/generateUnparkCommands") ].

(** [module.exports], for the Virtual bot that [require('../Virtual')]
    gives. *)
Definition exports (VirtualBot : BotDefinition) : BotDefinition :=
  {| info := assign (assign ∅ (info VirtualBot)) own_info;
     settings := assign (assign ∅ (settings VirtualBot)) own_settings;
     commands := assign (assign ∅ (commands VirtualBot)) own_commands |}.

End Melzi.

(** * Verification *)

(** Unfolding of the monadic plumbing. *)
Ltac unfold_M :=
  unfold mbind, mret, M_bind, M_ret, bind_M, ret_M, throw, try_catch, get, gets, modify in *.

(** ** The JavaScript fragment on known values *)

Example Number_and_toString :
  JsNum.to_string (StringToNumber.parse "10.5") = "10.5"
  /\ JsNum.to_string (StringToNumber.parse "-2.0") = "-2"
  /\ JsNum.to_string (StringToNumber.parse " 100.25 ") = "100.25"
  /\ JsNum.to_string (JsNum.add (StringToNumber.parse "0.1") (StringToNumber.parse "0.2"))
     = "0.30000000000000004"
  /\ JsNum.to_string (StringToNumber.parse "1e21") = "1e+21"
  /\ JsNum.to_string (StringToNumber.parse "123456789012345678901") = "123456789012345680000"
  /\ JsNum.to_string (StringToNumber.parse "0.000001") = "0.000001"
  /\ JsNum.to_string (StringToNumber.parse "1e-7") = "1e-7"
  /\ JsNum.to_string (StringToNumber.parse "5e-324") = "5e-324"
  /\ JsNum.to_string (StringToNumber.parse "0x1F") = "31"
  /\ JsNum.to_string (StringToNumber.parse "") = "0"
  /\ JsNum.to_string (StringToNumber.parse "1.5.2") = "NaN"
  /\ JsNum.to_string (StringToNumber.parse "-Infinity") = "-Infinity".
Proof. vm_compute. repeat split. Qed.

Example plus_and_template :
  ToString (js_plus VUndefined (VNumber (JsNum.of_Z 10))) = "NaN"
  /\ ToString (js_plus (VNumber (JsNum.of_Z 5)) (VNumber (JsNum.of_Z 10))) = "15"
  /\ ToString (js_plus (VString "5") (VNumber (JsNum.of_Z 10))) = "510".
Proof. vm_compute. repeat split. Qed.

(** The matcher is greedy and backtracks: of two reports in a line the last
    is found; the white space between fields is optional; a line terminator
    stops [.], so the match starts after it. *)
Example m114Regex_examples :
  Regex.js_match "ok C: X:1 Y:2 Z:3 E:4 Count X:5.5Y:-6Z:+7 E:8.25 done" m114Regex
  = Some [Some "ok C: X:1 Y:2 Z:3 E:4 Count X:5.5Y:-6Z:+7 E:8.25 done";
          Some "5.5"; Some ".5"; Some "-6"; None; Some "+7"; None; Some "8.25"; Some ".25"]
  /\ Regex.js_match ("echo" +:+ newline +:+ "X:1 Y:2 Z:3 E:4") m114Regex
     = Some [Some "X:1 Y:2 Z:3 E:4"; Some "1"; None; Some "2"; None; Some "3"; None;
             Some "4"; None]
  /\ Regex.js_match "X:1 Y:2 Z:3" m114Regex = None
  /\ Regex.js_match "X:1, Y:2, Z:3, E:4" m114Regex = None
  /\ Regex.js_match "X:.5 Y:2 Z:3 E:4" m114Regex = None.
Proof. vm_compute. repeat split. Qed.

(** ** pause(): failing preconditions *)

(** The error each failing precondition raises (lines 7-15), in the order the
    checks are made. *)
Definition precondition_error (defs : BotFsmDefinitions) (b : Bot) : option JsError :=
  match currentJob b with
  | None =>
      Some (Error ("Bot " +:+ name (settings b) +:+ " is not currently processing a job"))
  | Some job =>
      if negb (includes (pauseable defs) (fsm_current b)) then
        Some (Error ("Cannot pause bot from state " +:+ dquote +:+ fsm_current b +:+ dquote))
      else if negb (String.eqb (job_fsm job) "running") then
        Some (Error ("Cannot pause job from state " +:+ dquote +:+ job_fsm job +:+ dquote))
      else None
  end.

Lemma pause_try_precondition defs b ex :
  precondition_error defs b = Some ex ->
  pause_try defs b = (b, Throw ex).
Proof.
  unfold precondition_error, pause_try. unfold_M.
  destruct (currentJob b) as [job|]; [|intros [= <-]; reflexivity].
  destruct (negb (includes (pauseable defs) (fsm_current b))); [intros [= <-]; reflexivity|].
  destruct (negb (String.eqb (job_fsm job) "running")); [intros [= <-]; reflexivity|].
  discriminate.
Qed.

(** A device with the given state, job and queue, and otherwise blank. *)
Definition sample_settings : Settings :=
  {| name := "Virtual Bot";
     offsetX := VNumber (JsNum.of_Z 0);
     offsetY := VNumber (JsNum.of_Z 0);
     offsetZ := VNumber (JsNum.of_Z 0) |}.

Definition sample_job (state : string) : Job :=
  {| job_uuid := "job-1"; job_botUuid := "bot-1"; job_fileUuid := Some "file-1";
     job_fsm := state;
     job_stopwatch := {| sw_running := String.eqb state "running"; sw_ms := 0 |};
     job_started := Some 1478102400000; job_elapsed := None;
     job_percentComplete := 0 |}.

Definition sample_bot (state : string) (job : option Job) (q : list Command) : Bot :=
  {| settings := sample_settings; fsm_current := state; currentJob := job;
     pausedPosition := None; pauseableState := None; queue := q;
     inflight := None; fault := None; cells := []; logger := []; history := [] |}.

(** The three errors, one per failing check. *)
Lemma precondition_error_no_job defs b :
  currentJob b = None ->
  precondition_error defs b
  = Some (Error ("Bot " +:+ name (settings b) +:+ " is not currently processing a job")).
Proof. unfold precondition_error. intros ->. reflexivity. Qed.

Lemma precondition_error_not_pauseable defs b job :
  currentJob b = Some job ->
  includes (pauseable defs) (fsm_current b) = false ->
  precondition_error defs b
  = Some (Error ("Cannot pause bot from state " +:+ dquote +:+ fsm_current b +:+ dquote)).
Proof. unfold precondition_error. intros -> ->. reflexivity. Qed.

Lemma precondition_error_job_not_running defs b job :
  currentJob b = Some job ->
  includes (pauseable defs) (fsm_current b) = true ->
  String.eqb (job_fsm job) "running" = false ->
  precondition_error defs b
  = Some (Error ("Cannot pause job from state " +:+ dquote +:+ job_fsm job +:+ dquote)).
Proof. unfold precondition_error. intros -> -> ->. reflexivity. Qed.

(** C3. Whenever a precondition of [pause] fails (no current job, device state
    not pauseable, job not running), the error of the first failing check is
    raised inside the [try] and caught: it is logged as "Pause error", the
    call returns normally with the snapshot of the device, and the device
    (its state machine, job, queue, positions) differs from what it was in
    its log only. *)
Theorem pause_precondition_failure (defs : BotFsmDefinitions) (b : Bot) :
  currentJob b = None
  \/ includes (pauseable defs) (fsm_current b) = false
  \/ (exists job, currentJob b = Some job /\ String.eqb (job_fsm job) "running" = false) ->
  exists ex,
    (currentJob b = None ->
       ex = Error ("Bot " +:+ name (settings b) +:+ " is not currently processing a job"))
    /\ (forall job, currentJob b = Some job ->
         includes (pauseable defs) (fsm_current b) = false ->
         ex = Error ("Cannot pause bot from state " +:+ dquote +:+ fsm_current b +:+ dquote))
    /\ (forall job, currentJob b = Some job ->
         includes (pauseable defs) (fsm_current b) = true ->
         ex = Error ("Cannot pause job from state " +:+ dquote +:+ job_fsm job +:+ dquote))
    /\ pause_try defs b = (b, Throw ex)
    /\ pause defs b =
       (set_logger (log_to (logger b) LError ["Pause error"; error_to_string ex]) b,
        Normal (getBot b)).
Proof.
  intros H.
  assert (exists ex, precondition_error defs b = Some ex) as [ex Hex].
  { unfold precondition_error.
    destruct H as [H | [H | (job & Hj & Hr)]].
    - rewrite H. eauto.
    - destruct (currentJob b); rewrite ?H; simpl; eauto.
    - rewrite Hj, Hr. destruct (negb (includes _ _)); simpl; eauto. }
  exists ex.
  split.
  { intros Hnone. rewrite (precondition_error_no_job defs b Hnone) in Hex. congruence. }
  split.
  { intros job Hjob Hp.
    rewrite (precondition_error_not_pauseable defs b job Hjob Hp) in Hex. congruence. }
  split.
  { intros job Hjob Hp.
    destruct (String.eqb (job_fsm job) "running") eqn:Hr.
    - exfalso. unfold precondition_error in Hex. rewrite Hjob, Hp, Hr in Hex. discriminate.
    - rewrite (precondition_error_job_not_running defs b job Hjob Hp Hr) in Hex.
      congruence. }
  pose proof (pause_try_precondition _ _ _ Hex) as Htry.
  split; [exact Htry|].
  unfold pause. unfold_M. rewrite Htry. reflexivity.
Qed.

Lemma pause_precondition_failure_witness :
  pause {| botFsmEvents := []; pauseable := ["idle"] |}
        (sample_bot "idle" None [CmdCode "G28"])
  = (set_logger
       [ {| level := LError;
            args := ["Pause error";
                     "Error: Bot Virtual Bot is not currently processing a job"] |} ]
       (sample_bot "idle" None [CmdCode "G28"]),
     Normal (getBot (sample_bot "idle" None [CmdCode "G28"]))).
Proof.
  destruct (pause_precondition_failure {| botFsmEvents := []; pauseable := ["idle"] |}
              (sample_bot "idle" None [CmdCode "G28"]) (or_introl eq_refl))
    as (ex & Hex & _ & _ & _ & Hpause).
  rewrite Hpause, (Hex eq_refl). reflexivity.
Defined.

(** ** The response-processing function of the telemetry entry *)

(** The position lines 56-61 store for a match result [m]. *)
Definition offset_position (s : Settings) (m : Regex.captures) : Position :=
  {| pos_x := VNumber (JsNum.sub (Number (Regex.capture m 1)) (Number (offsetX s)));
     pos_y := VNumber (JsNum.sub (Number (Regex.capture m 3)) (Number (offsetY s)));
     pos_z := VNumber (JsNum.sub (Number (Regex.capture m 5)) (Number (offsetZ s)));
     pos_e := VNumber (Number (Regex.capture m 7)) |}.

Lemma processData_match b data m :
  Regex.js_match data m114Regex = Some m ->
  processData_M114 data b
  = (set_pausedPosition (Some (offset_position (settings b) m)) b, Normal true).
Proof. unfold processData_M114. intros ->. reflexivity. Qed.

Lemma processData_no_match b data :
  Regex.js_match data m114Regex = None ->
  processData_M114 data b = (b, Throw (TypeError "Cannot read property '1' of null")).
Proof. unfold processData_M114. intros ->. reflexivity. Qed.

Definition telemetry_line : string := "X:10.5 Y:-2.0 Z:5.0 E:100.25".


(** ** What the matcher accepts

    A declarative reading of the regular expressions: [Matches r w c c'] says
    that [r] matches exactly the word [w], taking the captures [c] to [c'].
    The backtracking matcher is sound and complete for it. *)

Inductive Matches : Regex.regex -> list ascii -> Regex.captures -> Regex.captures -> Prop :=
| MChr c caps : Matches (Regex.Chr c) [c] caps caps
| MClass (p : ascii -> bool) x caps : p x = true -> Matches (Regex.Class p) [x] caps caps
| MStar (p : ascii -> bool) w caps : forallb p w = true -> Matches (Regex.Star p) w caps caps
| MPlus (p : ascii -> bool) x w caps :
    p x = true -> forallb p w = true -> Matches (Regex.Plus p) (x :: w) caps caps
| MOptSome r w caps caps1 : Matches r w caps caps1 -> Matches (Regex.Opt r) w caps caps1
| MOptNone r caps : Matches (Regex.Opt r) [] caps caps
| MSeq r1 r2 w1 w2 caps caps1 caps2 :
    Matches r1 w1 caps caps1 -> Matches r2 w2 caps1 caps2 ->
    Matches (Regex.Seq r1 r2) (w1 ++ w2) caps caps2
| MGroup i r w caps caps1 :
    Matches r w caps caps1 ->
    Matches (Regex.Group i r) w caps (<[i := Some (unchars w)]> caps1).

Lemma star_sound (p : ascii -> bool) s caps k res :
  Regex.star p s caps k = Some res ->
  exists w s1, s = w ++ s1 /\ forallb p w = true /\ k s1 caps = Some res.
Proof.
  revert res. induction s as [|c s IH]; intros res; simpl.
  - intros H. exists [], []. auto.
  - destruct (p c) eqn:Hp.
    + destruct (Regex.star p s caps k) as [r|] eqn:Hs.
      * intros [= <-]. destruct (IH r eq_refl) as (w & s1 & -> & Hw & Hk).
        exists (c :: w), s1. simpl. rewrite Hp, Hw. auto.
      * intros H. exists [], (c :: s). auto.
    + intros H. exists [], (c :: s). auto.
Qed.

Lemma take_app_suffix (w s1 : list ascii) :
  take (length (w ++ s1) - length s1) (w ++ s1) = w.
Proof.
  rewrite length_app. replace (length w + length s1 - length s1)%nat with (length w) by lia.
  apply take_app_length.
Qed.

Lemma run_sound r : forall s caps k res,
  Regex.run r s caps k = Some res ->
  exists w s1 caps1, s = w ++ s1 /\ Matches r w caps caps1 /\ k s1 caps1 = Some res.
Proof.
  induction r as [c|p|p|p|r IH|r1 IH1 r2 IH2|i r IH]; intros s caps k res; simpl.
  - destruct s as [|x s]; [discriminate|].
    destruct (Ascii.eqb_spec x c) as [->|]; [|discriminate].
    intros H. exists [c], s, caps. repeat split; auto. constructor.
  - destruct s as [|x s]; [discriminate|].
    destruct (p x) eqn:Hp; [|discriminate].
    intros H. exists [x], s, caps. repeat split; auto. now constructor.
  - intros H. apply star_sound in H as (w & s1 & -> & Hw & Hk).
    exists w, s1, caps. repeat split; auto. now constructor.
  - destruct s as [|x s]; [discriminate|].
    destruct (p x) eqn:Hp; [|discriminate].
    intros H. apply star_sound in H as (w & s1 & -> & Hw & Hk).
    exists (x :: w), s1, caps. repeat split; auto. now constructor.
  - destruct (Regex.run r s caps k) as [res'|] eqn:Hr.
    + intros [= <-]. apply IH in Hr as (w & s1 & caps1 & -> & Hm & Hk).
      exists w, s1, caps1. repeat split; auto. now constructor.
    + intros H. exists [], s, caps. repeat split; auto. apply MOptNone.
  - intros H. apply IH1 in H as (w1 & s1 & caps1 & -> & Hm1 & H).
    apply IH2 in H as (w2 & s2 & caps2 & -> & Hm2 & H).
    exists (w1 ++ w2), s2, caps2. rewrite <- app_assoc. repeat split; auto.
    econstructor; eauto.
  - intros H. apply IH in H as (w & s1 & caps1 & -> & Hm & H).
    rewrite take_app_suffix in H.
    exists w, s1, (<[i := Some (unchars w)]> caps1). repeat split; auto.
    now constructor.
Qed.

Lemma star_complete (p : ascii -> bool) w s1 caps (k : Regex.cont) :
  forallb p w = true ->
  is_Some (k s1 caps) ->
  is_Some (Regex.star p (w ++ s1) caps k).
Proof.
  intros Hw Hk. induction w as [|c w IH]; simpl in *.
  - destruct s1 as [|c s1]; simpl; [exact Hk|].
    destruct (p c); [|exact Hk].
    destruct (Regex.star p s1 caps k); [eauto|exact Hk].
  - apply andb_prop in Hw as [Hc Hw]. rewrite Hc.
    destruct (IH Hw) as [r ->]. eauto.
Qed.

Lemma star_complete_any (p : ascii -> bool) w s1 (k : Regex.cont) caps :
  forallb p w = true ->
  (forall c, is_Some (k s1 c)) ->
  is_Some (Regex.star p (w ++ s1) caps k).
Proof. intros Hw Hk. apply star_complete; auto. Qed.

(** Whether a word can be matched does not depend on the captures held. *)
Lemma run_complete r w caps caps1 :
  Matches r w caps caps1 ->
  forall s1 (k : Regex.cont) c0,
  (forall c, is_Some (k s1 c)) ->
  is_Some (Regex.run r (w ++ s1) c0 k).
Proof.
  induction 1 as [c caps|p x caps Hp|p w caps Hw|p x w caps Hp Hw
                 |r w caps caps1 _ IH|r caps
                 |r1 r2 w1 w2 caps caps1 caps2 _ IH1 _ IH2
                 |i r w caps caps1 _ IH]; intros s1 k c0 Hk; simpl.
  - rewrite Ascii.eqb_refl. apply Hk.
  - rewrite Hp. apply Hk.
  - apply star_complete_any; auto.
  - rewrite Hp. apply star_complete_any; auto.
  - destruct (IH s1 k c0 Hk) as [res ->]. eauto.
  - destruct (Regex.run r s1 c0 k); [eauto|apply Hk].
  - rewrite <- app_assoc. apply IH1. intros c. apply IH2. exact Hk.
  - apply IH. intros c. apply Hk.
Qed.

(** [str.match(r)] finds a match exactly when some part of the string is
    matched by [r]. *)
Lemma exec_from_sound r s caps :
  Regex.exec_from r s = Some caps ->
  exists pre w post,
    s = pre ++ w ++ post
    /\ Matches (Regex.Group 0 r) w (replicate (Regex.groups r) None) caps.
Proof.
  assert (forall s, Regex.run (Regex.Group 0 r) s (replicate (Regex.groups r) None)
                      (fun _ c => Some c) = Some caps ->
                    exists pre w post, s = pre ++ w ++ post
                      /\ Matches (Regex.Group 0 r) w (replicate (Regex.groups r) None) caps)
    as Hhere.
  { intros s0 Hr. apply run_sound in Hr as (w & s1 & caps1 & Hs & Hm & [= <-]).
    exists [], w, s1. auto. }
  induction s as [|c s IH]; cbn [Regex.exec_from].
  - destruct (Regex.run _ _ _ _) eqn:Hr; [|discriminate].
    intros [= <-]. auto.
  - destruct (Regex.run _ _ _ _) eqn:Hr.
    + intros [= <-]. auto.
    + intros H. apply IH in H as (pre & w & post & -> & Hm).
      exists (c :: pre), w, post. auto.
Qed.

Lemma exec_from_complete r pre w post caps caps1 :
  Matches r w caps caps1 ->
  is_Some (Regex.exec_from r (pre ++ w ++ post)).
Proof.
  intros Hm.
  assert (is_Some (Regex.run (Regex.Group 0 r) (w ++ post)
                     (replicate (Regex.groups r) None) (fun _ c => Some c))) as [res Hres].
  { apply run_complete with (caps := caps) (caps1 := <[0%nat := Some (unchars w)]> caps1);
      [constructor; assumption|]. intros c. eauto. }
  induction pre as [|c pre IH].
  - simpl app. destruct (w ++ post); cbn [Regex.exec_from]; rewrite Hres; eauto.
  - simpl app. cbn [Regex.exec_from].
    destruct (Regex.run (Regex.Group 0 r) (c :: _) _ _); [eauto|]. exact IH.
Qed.

(** ** The four-field position report

    What [m114Regex] looks for, said without the matcher: somewhere in the
    line, the marker [X:] and a signed decimal, white space, [Y:] and a signed
    decimal, white space, [Z:] and a signed decimal, white space, [E:] and a
    signed decimal. *)

Definition digit_word (w : list ascii) : Prop := w <> [] /\ forallb is_digit w = true.

Inductive signed_decimal : list ascii -> Prop :=
| SignedDecimal sg ip fr :
    (sg = [] \/ exists c, sg = [c] /\ Regex.sign_char c = true) ->
    digit_word ip ->
    (fr = [] \/ exists fp, fr = "."%char :: fp /\ digit_word fp) ->
    signed_decimal (sg ++ ip ++ fr).

Definition position_report (line nx ny nz ne : list ascii) : Prop :=
  exists pre ws1 ws2 ws3 post,
    line = pre ++ chars "X:" ++ nx ++ ws1 ++ chars "Y:" ++ ny ++ ws2
               ++ chars "Z:" ++ nz ++ ws3 ++ chars "E:" ++ ne ++ post
    /\ signed_decimal nx /\ signed_decimal ny /\ signed_decimal nz /\ signed_decimal ne
    /\ forallb is_space ws1 = true /\ forallb is_space ws2 = true
    /\ forallb is_space ws3 = true.

Lemma Matches_seq_inv r1 r2 w c c2 :
  Matches (Regex.Seq r1 r2) w c c2 ->
  exists w1 w2 c1, w = w1 ++ w2 /\ Matches r1 w1 c c1 /\ Matches r2 w2 c1 c2.
Proof. inversion 1; subst; eauto 10. Qed.

Lemma Matches_chr_inv x w c c' :
  Matches (Regex.Chr x) w c c' -> w = [x] /\ c' = c.
Proof. inversion 1; subst; auto. Qed.

Lemma Matches_star_inv p w c c' :
  Matches (Regex.Star p) w c c' -> forallb p w = true /\ c' = c.
Proof. inversion 1; subst; auto. Qed.

Lemma Matches_plus_inv p w c c' :
  Matches (Regex.Plus p) w c c' -> (w <> [] /\ forallb p w = true) /\ c' = c.
Proof.
  inversion 1 as [| | |p' x w' caps Hx Hw| | | |]; subst.
  repeat split; [discriminate|].
  simpl. rewrite Hx, Hw. reflexivity.
Qed.

Lemma Matches_group_inv i r w c c' :
  Matches (Regex.Group i r) w c c' ->
  exists c1, Matches r w c c1 /\ c' = <[i := Some (unchars w)]> c1.
Proof. inversion 1; subst; eauto. Qed.

(** A numeric group sets its own capture, possibly the one of its fraction,
    and no other. *)
Lemma number_group_sound i w c c' :
  Matches (number_group i) w c c' ->
  signed_decimal w
  /\ length c' = length c
  /\ ((i < length c)%nat -> c' !! i = Some (Some (unchars w)))
  /\ (forall j, j <> i -> j <> S i -> c' !! j = c !! j).
Proof.
  unfold number_group. intros H.
  apply Matches_group_inv in H as (c1 & H & ->).
  apply Matches_seq_inv in H as (sg & w1 & c2 & -> & Hsg & H).
  apply Matches_seq_inv in H as (ip & fr & c3 & -> & Hip & Hfr).
  apply Matches_plus_inv in Hip as [Hip ->].
  assert (c2 = c /\ (sg = [] \/ exists x, sg = [x] /\ Regex.sign_char x = true)) as [-> Hsg'].
  { inversion Hsg as [| | | |r' w' cc cc1 Hin|r' cc| |]; subst; [|auto].
    inversion Hin; subst. eauto. }
  assert ((fr = [] /\ c1 = c)
          \/ exists fp, fr = "."%char :: fp /\ digit_word fp
                        /\ c1 = <[S i := Some (unchars fr)]> c) as Hfr'.
  { inversion Hfr as [| | | |r' w' cc cc1 Hin|r' cc| |]; subst; [|auto]. right.
    apply Matches_group_inv in Hin as (c4 & H & ->).
    apply Matches_seq_inv in H as (d & fp & c5 & -> & Hd & Hfp).
    apply Matches_chr_inv in Hd as [-> ->].
    apply Matches_plus_inv in Hfp as [Hfp ->].
    exists fp. auto. }
  split.
  { constructor; [exact Hsg'|exact Hip|].
    destruct Hfr' as [[-> _]|(fp & -> & Hfp & _)]; eauto. }
  destruct Hfr' as [[-> ->]|(fp & -> & Hfp & ->)].
  - rewrite length_insert. repeat split.
    + intros Hi. apply list_lookup_insert_eq. exact Hi.
    + intros j Hj _. apply list_lookup_insert_ne. auto.
  - rewrite !length_insert. repeat split.
    + intros Hi. apply list_lookup_insert_eq. rewrite length_insert. exact Hi.
    + intros j Hj Hj'. rewrite list_lookup_insert_ne by auto.
      apply list_lookup_insert_ne. auto.
Qed.

Lemma number_group_complete i w c :
  signed_decimal w -> exists c', Matches (number_group i) w c c'.
Proof.
  intros [sg ip fr Hsg [Hne Hip] Hfr]. unfold number_group.
  assert (Matches (Regex.Plus is_digit) ip c c) as Mip.
  { destruct ip as [|x ip]; [congruence|]. simpl in Hip.
    apply andb_prop in Hip as [? ?]. now constructor. }
  assert (Matches (Regex.Opt (Regex.Class Regex.sign_char)) sg c c) as Msg.
  { destruct Hsg as [->|(x & -> & Hx)]; [apply MOptNone|].
    apply MOptSome. now constructor. }
  destruct Hfr as [->|(fp & -> & Hne' & Hfp)].
  - eexists. constructor. econstructor; [exact Msg|].
    econstructor; [exact Mip|]. apply MOptNone.
  - eexists. constructor. econstructor; [exact Msg|].
    econstructor; [exact Mip|]. apply MOptSome. constructor.
    change ("."%char :: fp) with (["."%char] ++ fp). econstructor; [constructor|].
    destruct fp as [|x fp]; [congruence|]. simpl in Hfp.
    apply andb_prop in Hfp as [? ?]. now constructor.
Qed.

Lemma axis_sound letter i w c c' :
  Matches (axis letter i) w c c' ->
  exists n, w = letter :: ":"%char :: n
    /\ signed_decimal n
    /\ length c' = length c
    /\ ((i < length c)%nat -> c' !! i = Some (Some (unchars n)))
    /\ (forall j, j <> i -> j <> S i -> c' !! j = c !! j).
Proof.
  unfold axis. intros H.
  apply Matches_seq_inv in H as (w1 & w2 & c1 & -> & H1 & H).
  apply Matches_seq_inv in H as (w3 & n & c2 & -> & H2 & H).
  apply Matches_chr_inv in H1 as [-> ->]. apply Matches_chr_inv in H2 as [-> ->].
  apply number_group_sound in H as (Hn & Hlen & Hi & Hj).
  exists n. auto.
Qed.

Lemma axis_complete letter i n c :
  signed_decimal n -> exists c', Matches (axis letter i) (letter :: ":"%char :: n) c c'.
Proof.
  intros Hn. destruct (number_group_complete i n c Hn) as [c' Hm].
  exists c'. unfold axis.
  change (letter :: ":"%char :: n) with ([letter] ++ [":"%char] ++ n).
  econstructor; [constructor|]. econstructor; [constructor|]. exact Hm.
Qed.

Lemma m114Regex_groups : Regex.groups m114Regex = 9%nat.
Proof. reflexivity. Qed.

(** A match of [m114Regex] is a position report, and groups 1, 3, 5 and 7 hold
    the text of its four numbers. *)
Lemma m114Regex_sound data m :
  Regex.js_match data m114Regex = Some m ->
  exists nx ny nz ne,
    position_report (chars data) nx ny nz ne
    /\ Regex.capture m 1 = VString (unchars nx)
    /\ Regex.capture m 3 = VString (unchars ny)
    /\ Regex.capture m 5 = VString (unchars nz)
    /\ Regex.capture m 7 = VString (unchars ne).
Proof.
  unfold Regex.js_match. intros H.
  apply exec_from_sound in H as (pre & w & post & Hdata & H).
  rewrite m114Regex_groups in H.
  apply Matches_group_inv in H as (c9 & H & ->).
  unfold m114Regex in H.
  apply Matches_seq_inv in H as (dots & w1 & c0 & -> & Hdots & H).
  apply Matches_star_inv in Hdots as [_ ->].
  apply Matches_seq_inv in H as (wx & w2 & c1 & -> & Hx & H).
  apply Matches_seq_inv in H as (ws1 & w3 & c1' & -> & Hws1 & H).
  apply Matches_star_inv in Hws1 as [Hws1 ->].
  apply Matches_seq_inv in H as (wy & w4 & c2 & -> & Hy & H).
  apply Matches_seq_inv in H as (ws2 & w5 & c2' & -> & Hws2 & H).
  apply Matches_star_inv in Hws2 as [Hws2 ->].
  apply Matches_seq_inv in H as (wz & w6 & c3 & -> & Hz & H).
  apply Matches_seq_inv in H as (ws3 & w7 & c3' & -> & Hws3 & H).
  apply Matches_star_inv in Hws3 as [Hws3 ->].
  apply Matches_seq_inv in H as (we & rest & c4 & -> & He & Hrest).
  apply Matches_star_inv in Hrest as [_ ->].
  apply axis_sound in Hx as (nx & -> & Hnx & Lx & Ix & Fx).
  apply axis_sound in Hy as (ny & -> & Hny & Ly & Iy & Fy).
  apply axis_sound in Hz as (nz & -> & Hnz & Lz & Iz & Fz).
  apply axis_sound in He as (ne & -> & Hne & Le & Ie & Fe).
  exists nx, ny, nz, ne. split.
  { exists (pre ++ dots), ws1, ws2, ws3, (rest ++ post).
    split; [|auto 10]. rewrite Hdata. simpl. rewrite <- !app_assoc. simpl.
    repeat (rewrite <- ?app_assoc; simpl; f_equal). }
  assert (length c1 = 9%nat) as L1 by (rewrite Lx; reflexivity).
  assert (length c2 = 9%nat) as L2 by congruence.
  assert (length c3 = 9%nat) as L3 by congruence.
  unfold Regex.capture.
  rewrite !list_lookup_insert_ne by discriminate.
  rewrite (Fe 1%nat), (Fz 1%nat), (Fy 1%nat), Ix by (simpl; lia || discriminate).
  rewrite (Fe 3%nat), (Fz 3%nat), Iy by (lia || discriminate).
  rewrite (Fe 5%nat), Iz by (lia || discriminate).
  rewrite Ie by lia.
  auto.
Qed.

(** Every line that contains a position report is matched. *)
Lemma m114Regex_complete data nx ny nz ne :
  position_report (chars data) nx ny nz ne ->
  is_Some (Regex.js_match data m114Regex).
Proof.
  intros (pre & ws1 & ws2 & ws3 & post & Hdata & Hnx & Hny & Hnz & Hne & H1 & H2 & H3).
  unfold Regex.js_match. rewrite Hdata.
  set (c0 := replicate 9 (@None string)).
  destruct (axis_complete "X" 1 nx c0 Hnx) as [c1 Mx].
  destruct (axis_complete "Y" 3 ny c1 Hny) as [c2 My].
  destruct (axis_complete "Z" 5 nz c2 Hnz) as [c3 Mz].
  destruct (axis_complete "E" 7 ne c3 Hne) as [c4 Me].
  assert (Matches m114Regex
            ([] ++ ("X"%char :: ":"%char :: nx) ++ ws1 ++ ("Y"%char :: ":"%char :: ny)
                ++ ws2 ++ ("Z"%char :: ":"%char :: nz) ++ ws3
                ++ ("E"%char :: ":"%char :: ne) ++ []) c0 c4) as Hm.
  { unfold m114Regex.
    econstructor; [constructor; reflexivity|].
    econstructor; [exact Mx|]. econstructor; [constructor; exact H1|].
    econstructor; [exact My|]. econstructor; [constructor; exact H2|].
    econstructor; [exact Mz|]. econstructor; [constructor; exact H3|].
    econstructor; [exact Me|]. constructor. reflexivity. }
  pose proof (exec_from_complete m114Regex pre _ post _ _ Hm) as Hs.
  rewrite app_nil_r in Hs.
  repeat (progress (simpl in Hs; rewrite <- ?app_assoc in Hs)).
  simpl. exact Hs.
Qed.

(** A line fails to match exactly when it contains no position report. *)
Lemma m114Regex_no_match data :
  Regex.js_match data m114Regex = None <->
  (forall nx ny nz ne, ~ position_report (chars data) nx ny nz ne).
Proof.
  split.
  - intros Hnone nx ny nz ne Hrep.
    destruct (m114Regex_complete _ _ _ _ _ Hrep) as [m Hm]. congruence.
  - intros Hno. destruct (Regex.js_match data m114Regex) as [m|] eqn:Hm; [|reflexivity].
    apply m114Regex_sound in Hm as (nx & ny & nz & ne & Hrep & _).
    exfalso. exact (Hno _ _ _ _ Hrep).
Qed.

Lemma signed_decimal_intro sg ip fr w :
  w = sg ++ ip ++ fr ->
  (sg = [] \/ exists c, sg = [c] /\ Regex.sign_char c = true) ->
  digit_word ip ->
  (fr = [] \/ exists fp, fr = "."%char :: fp /\ digit_word fp) ->
  signed_decimal w.
Proof. intros ->. apply SignedDecimal. Qed.

Lemma digit_word_chars (s : string) :
  negb (String.eqb s EmptyString) && forallb is_digit (chars s) = true ->
  digit_word (chars s).
Proof.
  intros H. apply andb_prop in H as [Hne Hd]. split; [|exact Hd].
  destruct s; [discriminate|]. discriminate.
Qed.

Lemma telemetry_line_report :
  position_report (chars telemetry_line)
                  (chars "10.5") (chars "-2.0") (chars "5.0") (chars "100.25").
Proof.
  exists [], (chars " "), (chars " "), (chars " "), [].
  split; [reflexivity|].
  repeat split.
  - apply (signed_decimal_intro [] (chars "10") (chars ".5")); [reflexivity|auto| |].
    + now apply digit_word_chars.
    + right. exists (chars "5"). split; [reflexivity|now apply digit_word_chars].
  - apply (signed_decimal_intro (chars "-") (chars "2") (chars ".0")); [reflexivity| | |].
    + right. exists "-"%char. split; reflexivity.
    + now apply digit_word_chars.
    + right. exists (chars "0"). split; [reflexivity|now apply digit_word_chars].
  - apply (signed_decimal_intro [] (chars "5") (chars ".0")); [reflexivity|auto| |].
    + now apply digit_word_chars.
    + right. exists (chars "0"). split; [reflexivity|now apply digit_word_chars].
  - apply (signed_decimal_intro [] (chars "100") (chars ".25")); [reflexivity|auto| |].
    + now apply digit_word_chars.
    + right. exists (chars "25"). split; [reflexivity|now apply digit_word_chars].
Qed.


(** The numbers 10.5, -2, 5 and 100.25. *)
Definition telemetry_position : Position :=
  {| pos_x := VNumber (JsNum.of_decimal false 105 (-1));
     pos_y := VNumber (JsNum.of_decimal true 2 0);
     pos_z := VNumber (JsNum.of_decimal false 5 0);
     pos_e := VNumber (JsNum.of_decimal false 10025 (-2)) |}.


(** C6, as the code has it. Once a line containing a position report is
    parsed the processing function returns [true]; it never returns
    [false]. *)
Theorem processData_returns_true (b : Bot) (data : string) (nx ny nz ne : list ascii) :
  position_report (chars data) nx ny nz ne ->
  snd (processData_M114 data b) = Normal true
  /\ forall data' b', snd (processData_M114 data' b') <> Normal false.
Proof.
  intros Hrep. split.
  - destruct (m114Regex_complete _ _ _ _ _ Hrep) as [m Hm].
    rewrite (processData_match _ _ _ Hm). reflexivity.
  - intros data' b'. unfold processData_M114.
    destruct (Regex.js_match data' m114Regex); simpl; discriminate.
Qed.

Lemma processData_returns_true_witness :
  snd (processData_M114 telemetry_line (sample_bot "idle" None [])) = Normal true
  /\ forall data' b', snd (processData_M114 data' b') <> Normal false.
Proof.
  exact (processData_returns_true (sample_bot "idle" None []) telemetry_line _ _ _ _
           telemetry_line_report).
Defined.

(** C6 as stated fails: on the well-formed line "X:10.5 Y:-2.0 Z:5.0 E:100.25"
    the processing function returns [true], not [false]. *)
Lemma processData_returns_false_counterexample :
  position_report (chars telemetry_line)
                  (chars "10.5") (chars "-2.0") (chars "5.0") (chars "100.25")
  /\ snd (processData_M114 telemetry_line (sample_bot "idle" None [])) = Normal true
  /\ snd (processData_M114 telemetry_line (sample_bot "idle" None [])) <> Normal false.
Proof.
  split; [exact telemetry_line_report|].
  split; [vm_compute; reflexivity|].
  vm_compute. discriminate.
Qed.

(** C7. On a line that contains no position report the processing function
    fails: it raises a [TypeError] (the match result is [null]) before
    anything is assigned, so the paused position, like the rest of the device,
    stays what it was. *)
Theorem processData_fails_on_malformed_line (b : Bot) (data : string) :
  (forall nx ny nz ne, ~ position_report (chars data) nx ny nz ne) ->
  processData_M114 data b = (b, Throw (TypeError "Cannot read property '1' of null"))
  /\ pausedPosition (fst (processData_M114 data b)) = pausedPosition b.
Proof.
  intros Hno. apply m114Regex_no_match in Hno.
  rewrite (processData_no_match _ _ Hno). split; reflexivity.
Qed.

Lemma processData_fails_on_malformed_line_witness :
  processData_M114 "ok" (sample_bot "idle" None [])
  = (sample_bot "idle" None [], Throw (TypeError "Cannot read property '1' of null"))
  /\ pausedPosition (fst (processData_M114 "ok" (sample_bot "idle" None []))) = None.
Proof.
  apply (processData_fails_on_malformed_line (sample_bot "idle" None []) "ok").
  apply m114Regex_no_match. vm_compute. reflexivity.
Defined.

(** ** The [Job] class: pause, resume, cancel *)

(** Modelled from the spec: the event table of section 4.4 and its processing
    set, used where a concrete [jobFsmDefinitions] is needed. *)
Definition jobFsmDefinitions : JobFsmDefinitions :=
  {| fsmEvents :=
       [ {| ev_name := "initializationDone"; ev_from := "initializing"; ev_to := "ready" |};
         {| ev_name := "start"; ev_from := "ready"; ev_to := "running" |};
         {| ev_name := "pause"; ev_from := "running"; ev_to := "paused" |};
         {| ev_name := "resume"; ev_from := "paused"; ev_to := "running" |};
         {| ev_name := "cancel"; ev_from := "running"; ev_to := "canceled" |};
         {| ev_name := "cancel"; ev_from := "paused"; ev_to := "canceled" |};
         {| ev_name := "completeJob"; ev_from := "running"; ev_to := "complete" |} ];
     processingJob := ["running"; "paused"] |}.











(** A method of the current job reaches the job and the log, nothing else of
    the device. *)
Lemma self_currentJob_frame {A} method (m : M JobClass.ctx A) b :
  let b' := fst (self_currentJob method m b) in
  queue b' = queue b /\ inflight b' = inflight b /\ fault b' = fault b
  /\ history b' = history b /\ fsm_current b' = fsm_current b
  /\ pausedPosition b' = pausedPosition b /\ cells b' = cells b.
Proof.
  unfold self_currentJob. unfold_M. simpl.
  destruct (currentJob b) as [j|]; simpl; [|repeat split].
  destruct (m (j, logger b)) as [[j' lg'] r]. simpl. repeat split.
Qed.



(** ** The job registry: deleting a job *)

Definition delete_event (jobUuid : string) : IoMessage :=
  {| io_topic := "jobEvent"; io_uuid := jobUuid; io_event := "delete"; io_data := None |}.

(** What [deleteJob] does, whether or not the job exists. *)
Lemma deleteJob_unfold jobUuid js :
  JobsClass.deleteJob jobUuid js
  = ({| jobList := delete jobUuid (jobList js);
        jobs_logger :=
          match broken (io js) with
          | None => jobs_logger js ++ [ {| level := LInfo;
                                           args := ["Job " +:+ jobUuid +:+ " deleted"] |} ]
          | Some ex =>
              (jobs_logger js ++ [ {| level := LInfo;
                                      args := ["Job " +:+ jobUuid +:+ " deleted"] |} ])
                ++ [ {| level := LError; args := ["Socket error"; error_to_string ex] |} ]
          end;
        io :=
          match broken (io js) with
          | None => {| emitted := emitted (io js) ++ [delete_event jobUuid]; broken := None |}
          | Some _ => io js
          end |},
     Normal ("Job " +:+ jobUuid +:+ " deleted")).
Proof.
  unfold JobsClass.deleteJob, JobsClass.log, JobsClass.emit. unfold_M. simpl.
  destruct (broken (io js)); reflexivity.
Qed.

(** C10. Deleting an identifier the registry does not hold raises nothing:
    the registry is what it was, a [jobEvent] with event [delete] is emitted
    for the identifier (on a working socket; a socket error is caught and
    logged), and the string "Job <id> deleted" is returned. *)
Theorem deleteJob_absent (js : Jobs) (jobUuid : string) :
  jobList js !! jobUuid = None ->
  exists js',
    JobsClass.deleteJob jobUuid js = (js', Normal ("Job " +:+ jobUuid +:+ " deleted"))
    /\ jobList js' = jobList js
    /\ (broken (io js) = None ->
        emitted (io js') = emitted (io js) ++ [delete_event jobUuid])
    /\ (forall ex, broken (io js) = Some ex ->
        io js' = io js
        /\ jobs_logger js'
           = (jobs_logger js ++ [ {| level := LInfo;
                                     args := ["Job " +:+ jobUuid +:+ " deleted"] |} ])
               ++ [ {| level := LError; args := ["Socket error"; error_to_string ex] |} ]).
Proof.
  intros Habsent. rewrite deleteJob_unfold. eexists. split; [reflexivity|].
  simpl. split; [apply delete_id; exact Habsent|].
  split.
  - intros ->. reflexivity.
  - intros ex ->. split; reflexivity.
Qed.

Definition sample_jobs : Jobs :=
  {| jobList := {[ "job-1" := sample_job "complete" ]};
     jobs_logger := [];
     io := {| emitted := []; broken := None |} |}.

Lemma deleteJob_absent_witness :
  exists js',
    JobsClass.deleteJob "job-2" sample_jobs = (js', Normal ("Job " +:+ "job-2" +:+ " deleted"))
    /\ jobList js' = jobList sample_jobs
    /\ (broken (io sample_jobs) = None ->
        emitted (io js') = emitted (io sample_jobs) ++ [delete_event "job-2"])
    /\ (forall ex, broken (io sample_jobs) = Some ex ->
        io js' = io sample_jobs
        /\ jobs_logger js'
           = (jobs_logger sample_jobs ++ [ {| level := LInfo;
                                     args := ["Job " +:+ "job-2" +:+ " deleted"] |} ])
               ++ [ {| level := LError; args := ["Socket error"; error_to_string ex] |} ]).
Proof.
  apply (deleteJob_absent sample_jobs "job-2").
  vm_compute. reflexivity.
Defined.

(** ** The pause cascade: who enqueues what, and when [pauseDone] fires *)

(** Stage A, the entry [pause] prepends (lines 80-88), for the call of [pause]
    that allocates the variable [cell]. *)
Definition stageA (cell : nat) : Command :=
  CmdEntry None None None
    (Some (CbPauseJob (pauseMovementCommand cell undefined_position))).

(** The lift entry of Stage B (lines 66-71). *)
Definition liftCommand (cell : nat) : Command :=
  CmdEntry (Some (CbCapturePosition cell)) (Some (lift_code undefined_position)) None None.

(** Stage B's closing entry (lines 72-76). *)
Definition closingCommand : Command :=
  CmdEntry None None None (Some (CbPrependPauseEnd pauseEndCommand)).

(** An entry somebody else queued: it has no callbacks. *)
Definition plain (c : Command) : Prop :=
  preCallback_of c = None /\ postCallback_of c = None.

(** [pauseDone] is called only after the lift entry has completed. *)
Definition pauseDone_after_lift (cell : nat) (tr : list Event) : Prop :=
  forall i, tr !! i = Some (BotFsm "pauseDone") ->
  exists j, (j < i)%nat /\ tr !! j = Some (Completed (liftCommand cell)).

Section CascadeOrder.

Variable cell : nat.

Definition is_lift (c : Command) : bool :=
  match c with
  | CmdEntry (Some (CbCapturePosition n)) (Some text) None None =>
      Nat.eqb n cell && String.eqb text (lift_code undefined_position)
  | _ => false
  end.

Definition is_lift_completed (e : Event) : bool :=
  match e with Completed c => is_lift c | _ => false end.

Definition is_pauseDone (e : Event) : bool :=
  match e with BotFsm ev => String.eqb ev "pauseDone" | _ => false end.

Definition has_lift (tr : list Event) : bool := existsb is_lift_completed tr.

(** Reading the record from its start: every [pauseDone] has a completed lift
    before it ([seen] says whether one came earlier still). *)
Fixpoint ordered (seen : bool) (tr : list Event) : bool :=
  match tr with
  | [] => true
  | e :: tr' =>
      (negb (is_pauseDone e) || seen) && ordered (seen || is_lift_completed e) tr'
  end.

(** What an entry can do when it is run with the lift completed or not
    ([seen]): its callbacks call [pauseDone] only if [seen], and the entries
    they put on the queue, which run after the entry has completed, are fine
    in their turn. *)
Fixpoint ok_cmd (seen : bool) (c : Command) {struct c} : bool :=
  match c with
  | CmdCode _ => true
  | CmdEntry pre _ _ post =>
      let later := seen || is_lift c in
      match pre with Some cb => ok_cb seen later cb | None => true end
      && match post with Some cb => ok_cb seen later cb | None => true end
  end
with ok_cb (now later : bool) (cb : Callback) {struct cb} : bool :=
  match cb with
  | CbPauseDone => now
  | CbPrependPauseEnd c => ok_cmd later c
  | CbPauseJob movement =>
      (fix go (s : bool) (l : list Command) {struct l} : bool :=
         match l with
         | [] => true
         | c :: l' => ok_cmd s c && go (s || is_lift c) l'
         end) later movement
  | _ => true
  end.

Fixpoint ok_cmds (seen : bool) (l : list Command) : bool :=
  match l with
  | [] => true
  | c :: l' => ok_cmd seen c && ok_cmds (seen || is_lift c) l'
  end.

Definition ok_optional (now later : bool) (cb : option Callback) : bool :=
  match cb with Some f => ok_cb now later f | None => true end.

(** Events a callback may record: no completion of the lift, and [pauseDone]
    only if the lift has completed. *)
Definition quiet (now : bool) (evs : list Event) : bool :=
  forallb (fun e => negb (is_lift_completed e) && (negb (is_pauseDone e) || now)) evs.

End CascadeOrder.

Section CascadeOrderFacts.

Variable cell : nat.


Lemma ok_cb_PauseJob now later movement :
  ok_cb cell now later (CbPauseJob movement) = ok_cmds cell later movement.
Proof. simpl. induction movement; reflexivity. Qed.

(** Once the lift has completed, everything that was fine stays fine. *)
Fixpoint ok_cmd_mono (c : Command) :
  forall s, ok_cmd cell s c = true -> ok_cmd cell true c = true
with ok_cb_mono (cb : Callback) :
  forall now later, ok_cb cell now later cb = true -> ok_cb cell true true cb = true.
Proof.
  - destruct c as [text|pre text pd post]; intros s H; [reflexivity|].
    cbn [ok_cmd] in *.
    apply andb_prop in H as [Hpre Hpost].
    apply andb_true_intro. split.
    + destruct pre as [cb|]; [|reflexivity]. exact (ok_cb_mono cb _ _ Hpre).
    + destruct post as [cb|]; [|reflexivity]. exact (ok_cb_mono cb _ _ Hpost).
  - destruct cb as [| | n|c|movement|]; intros now later H; try reflexivity.
    + cbn [ok_cb] in *. exact (ok_cmd_mono c _ H).
    + rewrite ok_cb_PauseJob in *. revert later H.
      induction movement as [|c l IH]; intros later H; [reflexivity|].
      cbn [ok_cmds] in *. apply andb_prop in H as [Hc Hl].
      apply andb_true_intro. split; [exact (ok_cmd_mono c _ Hc)|].
      exact (IH _ Hl).
Qed.

Lemma ok_cmd_weaken s x c : ok_cmd cell s c = true -> ok_cmd cell (s || x) c = true.
Proof.
  intros H. destruct x; [|rewrite orb_false_r; exact H].
  rewrite orb_true_r. exact (ok_cmd_mono c s H).
Qed.

Lemma ok_cmds_true s l : ok_cmds cell s l = true -> ok_cmds cell true l = true.
Proof.
  revert s. induction l as [|c l IH]; intros s H; [reflexivity|].
  cbn [ok_cmds] in *. apply andb_prop in H as [Hc Hl].
  rewrite (ok_cmd_mono c s Hc). exact (IH _ Hl).
Qed.

Lemma ok_cmds_weaken s x l : ok_cmds cell s l = true -> ok_cmds cell (s || x) l = true.
Proof.
  intros H. destruct x; [|rewrite orb_false_r; exact H].
  rewrite orb_true_r. exact (ok_cmds_true s l H).
Qed.

Lemma ok_cmds_app s m q :
  ok_cmds cell s m = true -> ok_cmds cell s q = true -> ok_cmds cell s (m ++ q) = true.
Proof.
  revert s. induction m as [|c m IH]; intros s Hm Hq; [exact Hq|].
  cbn [ok_cmds app] in *. apply andb_prop in Hm as [Hc Hm].
  rewrite Hc. apply IH; [exact Hm|]. apply ok_cmds_weaken. exact Hq.
Qed.

Lemma ok_cmds_plain s q : Forall plain q -> ok_cmds cell s q = true.
Proof.
  intros H. revert s. induction H as [|c q [Hpre Hpost] _ IH]; intros s; [reflexivity|].
  cbn [ok_cmds]. rewrite IH, andb_true_r.
  destruct c as [text|pre text pd post]; [reflexivity|]. simpl in Hpre, Hpost. subst.
  reflexivity.
Qed.

Lemma is_lift_eq c : is_lift cell c = true -> c = liftCommand cell.
Proof.
  destruct c as [text|[[| |n| | |]|] [text|] [pd|] [post|]]; try discriminate.
  cbn [is_lift]. intros H. apply andb_prop in H as [Hn Ht].
  apply Nat.eqb_eq in Hn. apply String.eqb_eq in Ht. subst. reflexivity.
Qed.

Lemma has_lift_app tr evs : has_lift cell (tr ++ evs) = has_lift cell tr || has_lift cell evs.
Proof. unfold has_lift. apply existsb_app. Qed.

Lemma quiet_has_lift now evs : quiet cell now evs = true -> has_lift cell evs = false.
Proof.
  induction evs as [|e evs IH]; [reflexivity|]. cbn [quiet forallb].
  intros H. apply andb_prop in H as [He Hevs]. apply andb_prop in He as [He _].
  unfold has_lift. cbn [existsb].
  apply negb_true_iff in He. rewrite He. exact (IH Hevs).
Qed.

Lemma quiet_app now evs1 evs2 :
  quiet cell now evs1 = true -> quiet cell now evs2 = true -> quiet cell now (evs1 ++ evs2) = true.
Proof. unfold quiet. rewrite forallb_app. intros -> ->. reflexivity. Qed.

Lemma ordered_app s tr evs :
  ordered cell s (tr ++ evs) = ordered cell s tr && ordered cell (s || has_lift cell tr) evs.
Proof.
  revert s. induction tr as [|e tr IH]; intros s.
  - simpl. rewrite orb_false_r. reflexivity.
  - cbn [ordered app]. rewrite IH. unfold has_lift. cbn [existsb].
    rewrite <- andb_assoc, orb_assoc. reflexivity.
Qed.

Lemma ordered_quiet s evs : quiet cell s evs = true -> ordered cell s evs = true.
Proof.
  induction evs as [|e evs IH]; [reflexivity|]. cbn [quiet forallb ordered].
  intros H. apply andb_prop in H as [He Hevs]. apply andb_prop in He as [Hl Hp].
  apply negb_true_iff in Hl. rewrite Hl, Hp, orb_false_r. exact (IH Hevs).
Qed.

(** The record, read as the claim words it. *)
Lemma ordered_spec tr :
  ordered cell false tr = true -> pauseDone_after_lift cell tr.
Proof.
  assert (forall tr s, ordered cell s tr = true ->
            forall i, tr !! i = Some (BotFsm "pauseDone") ->
            s = true \/ exists j, (j < i)%nat /\ tr !! j = Some (Completed (liftCommand cell)))
    as Hgen.
  { clear tr. induction tr as [|e tr IH]; intros s H i Hi; [discriminate|].
    cbn [ordered] in H. apply andb_prop in H as [He Htr].
    destruct i as [|i]; simpl in Hi.
    - injection Hi as ->. simpl in He. left. exact He.
    - destruct (IH _ Htr i Hi) as [Hs|(j & Hj & Hlook)].
      + apply orb_prop in Hs as [Hs|Hs]; [left; exact Hs|].
        right. exists 0%nat. split; [lia|]. simpl.
        destruct e as [text|c|ev]; try discriminate. simpl in Hs.
        rewrite (is_lift_eq c Hs). reflexivity.
      + right. exists (S j). split; [lia|exact Hlook]. }
  intros H i Hi. destruct (Hgen tr false H i Hi) as [Hs|Hj]; [discriminate|exact Hj].
Qed.

End CascadeOrderFacts.

(** *** What a piece of code may do to the queue and to the record *)

Section Effects.

Variable cell : nat.
Variable jdefs : JobFsmDefinitions.
Variable defs : BotFsmDefinitions.

(** Going from [b] to [b'], the code recorded only quiet events, put only
    fine entries on the head of the queue, and did not touch the entry in
    flight or the fault. *)
Definition effect (now later : bool) (b b' : Bot) : Prop :=
  fault b' = fault b /\ inflight b' = inflight b
  /\ exists evs m,
       history b' = history b ++ evs /\ queue b' = m ++ queue b
       /\ quiet cell now evs = true /\ ok_cmds cell later m = true.

Definition has_effect {A} (now later : bool) (m : M Bot A) : Prop :=
  forall b, effect now later b (fst (m b)).

Lemma effect_refl now later b : effect now later b b.
Proof.
  repeat split. exists [], []. rewrite app_nil_r. repeat split.
Qed.

Lemma effect_trans now later b1 b2 b3 :
  effect now later b1 b2 -> effect now later b2 b3 -> effect now later b1 b3.
Proof.
  intros (Hf1 & Hi1 & evs1 & m1 & Hh1 & Hq1 & He1 & Hm1)
         (Hf2 & Hi2 & evs2 & m2 & Hh2 & Hq2 & He2 & Hm2).
  split; [congruence|]. split; [congruence|].
  exists (evs1 ++ evs2), (m2 ++ m1).
  rewrite Hh2, Hh1, Hq2, Hq1, !app_assoc. repeat split.
  - apply quiet_app; assumption.
  - apply ok_cmds_app; assumption.
Qed.

Lemma has_effect_ret {A} now later (a : A) : has_effect now later (mret a).
Proof. intros b. apply effect_refl. Qed.

Lemma has_effect_throw {A} now later e : has_effect now later (@throw Bot A e).
Proof. intros b. apply effect_refl. Qed.

Lemma has_effect_bind {A B} now later (m : M Bot A) (f : A -> M Bot B) :
  has_effect now later m -> (forall a, has_effect now later (f a)) ->
  has_effect now later (m ≫= f).
Proof.
  intros Hm Hf b. specialize (Hm b). unfold_M.
  destruct (m b) as [b' [a|e]]; simpl in *; [|exact Hm].
  eapply effect_trans; [exact Hm|apply Hf].
Qed.

Lemma has_effect_get now later : has_effect now later (@get Bot).
Proof. intros b. apply effect_refl. Qed.

(** A field other than the queue, the entry in flight, the fault and the
    record is written. *)
Lemma has_effect_modify now later (f : Bot -> Bot) :
  (forall b, fault (f b) = fault b /\ inflight (f b) = inflight b
             /\ history (f b) = history b /\ queue (f b) = queue b) ->
  has_effect now later (modify f).
Proof.
  intros Hf b. destruct (Hf b) as (H1 & H2 & H3 & H4). unfold_M. simpl.
  split; [exact H1|]. split; [exact H2|].
  exists [], []. rewrite app_nil_r. repeat split; assumption.
Qed.

Lemma has_effect_logger now later l a : has_effect now later (self_logger l a).
Proof. apply has_effect_modify. intros b. repeat split. Qed.

Lemma has_effect_prepend now later cmds :
  ok_cmds cell later cmds = true -> has_effect now later (prependCommands cmds).
Proof.
  intros H b. unfold prependCommands. unfold_M. simpl.
  repeat split. exists [], cmds. rewrite app_nil_r. repeat split. exact H.
Qed.

Lemma has_effect_record now later e :
  quiet cell now [e] = true -> has_effect now later (record e).
Proof.
  intros H b. unfold record. unfold_M. simpl.
  repeat split. exists [e], []. repeat split. exact H.
Qed.

Lemma has_effect_self_fsm now later event :
  negb (String.eqb event "pauseDone") || now = true ->
  has_effect now later (self_fsm defs event).
Proof.
  intros H. unfold self_fsm.
  apply has_effect_bind.
  { apply has_effect_record. simpl. rewrite H. reflexivity. }
  intros _. apply has_effect_bind; [apply has_effect_get|]. intros b.
  destruct (StateMachine.fire _ _ _).
  - apply has_effect_throw.
  - apply has_effect_throw.
  - apply has_effect_ret.
  - apply has_effect_modify. intros b0. repeat split.
Qed.

Lemma has_effect_self_currentJob {A} now later method (m : M JobClass.ctx A) :
  has_effect now later (self_currentJob method m).
Proof.
  intros b.
  destruct (self_currentJob_frame method m b) as (Hq & Hi & Hf & Hh & _).
  split; [exact Hf|]. split; [exact Hi|].
  exists [], []. rewrite app_nil_r. repeat split; assumption.
Qed.

Lemma has_effect_just_queued_pause now later : has_effect now later just_queued_pause.
Proof.
  unfold just_queued_pause. apply has_effect_bind; [apply has_effect_get|].
  intros b. apply has_effect_logger.
Qed.

(** A callback that is fine has the effect its check promises. *)
Lemma has_effect_callback now later cb :
  ok_cb cell now later cb = true ->
  has_effect now later (run_callback jdefs defs cb).
Proof.
  intros H. destruct cb as [| | n|c|movement|]; cbn [run_callback].
  - apply has_effect_self_fsm. simpl in H. rewrite H. apply orb_true_r.
  - apply has_effect_logger.
  - apply has_effect_bind; [apply has_effect_get|]. intros b.
    apply has_effect_modify. intros b0. repeat split.
  - apply has_effect_prepend. cbn [ok_cb] in H. cbn [ok_cmds]. rewrite H. reflexivity.
  - rewrite ok_cb_PauseJob in H.
    apply has_effect_bind; [apply has_effect_logger|]. intros _.
    apply has_effect_bind; [apply has_effect_self_currentJob|]. intros _.
    apply has_effect_prepend. exact H.
  - apply has_effect_bind; [apply has_effect_just_queued_pause|]. intros _.
    apply has_effect_bind; [apply has_effect_get|]. intros b.
    apply has_effect_bind.
    { apply has_effect_modify. intros b0. repeat split. }
    intros _. apply has_effect_self_fsm. reflexivity.
Qed.

Lemma has_effect_optional now later cb :
  ok_optional cell now later cb = true ->
  has_effect now later (run_optional jdefs defs cb).
Proof.
  destruct cb as [f|]; simpl.
  - apply has_effect_callback.
  - intros _. apply has_effect_ret.
Qed.

Lemma has_effect_processData now later pd data :
  has_effect now later (run_processData pd data).
Proof.
  destruct pd. unfold run_processData, processData_M114.
  destruct (Regex.js_match data m114Regex).
  - apply has_effect_bind; [apply has_effect_get|]. intros b.
    apply has_effect_bind; [|intros _; apply has_effect_ret].
    apply has_effect_modify. intros b0. repeat split.
  - apply has_effect_throw.
Qed.

End Effects.

(** *** One entry at a time *)

Section Steps.

Variable cell : nat.
Variable jdefs : JobFsmDefinitions.
Variable defs : BotFsmDefinitions.
Variable conv : QueueConvention.

(** What is still to run is fine, with the lift completed or not ([s]): the
    post-callback of the entry in flight, then the queue. *)
Definition pending_ok (s : bool) (b : Bot) : Prop :=
  match inflight b with
  | None => ok_cmds cell s (queue b) = true
  | Some c =>
      ok_optional cell s (s || is_lift cell c) (postCallback_of c) = true
      /\ ok_cmds cell (s || is_lift cell c) (queue b) = true
  end.

(** From [b] to [b'] the record grew by events in order, and what is still
    to run is fine. *)
Definition step_ok (s : bool) (b b' : Bot) : Prop :=
  exists evs,
    history b' = history b ++ evs
    /\ ordered cell s evs = true
    /\ (fault b' = None -> pending_ok (s || has_lift cell evs) b').

Lemma step_ok_refl s b : (fault b = None -> pending_ok s b) -> step_ok s b b.
Proof.
  intros H. exists []. rewrite app_nil_r. repeat split.
  simpl. rewrite orb_false_r. exact H.
Qed.

Lemma step_ok_trans s b1 b2 b3 :
  step_ok s b1 b2 ->
  (forall s', (fault b2 = None -> pending_ok s' b2) -> step_ok s' b2 b3) ->
  step_ok s b1 b3.
Proof.
  intros (evs1 & Hh1 & Ho1 & Hp1) H.
  destruct (H _ Hp1) as (evs2 & Hh2 & Ho2 & Hp2).
  exists (evs1 ++ evs2). rewrite Hh2, Hh1, app_assoc. split; [reflexivity|].
  rewrite ordered_app, Ho1, Ho2. split; [reflexivity|].
  rewrite has_lift_app, orb_assoc. exact Hp2.
Qed.

Lemma bind_unfold {A B} (m : M Bot A) (f : A -> M Bot B) b :
  (m ≫= f) b = match m b with
               | (b', Normal a) => f a b'
               | (b', Throw e) => (b', Throw e)
               end.
Proof. reflexivity. Qed.

Lemma is_lift_post c : is_lift cell c = true -> postCallback_of c = None.
Proof. intros H. rewrite (is_lift_eq cell c H). reflexivity. Qed.

Lemma is_lift_pd c : is_lift cell c = true -> processData_of c = None.
Proof. intros H. rewrite (is_lift_eq cell c H). reflexivity. Qed.

(** The entry is satisfied: its post-callback runs and its completion is
    recorded, unless the callback throws. *)
Lemma finish_spec s c b0 :
  ok_optional cell s (s || is_lift cell c) (postCallback_of c) = true ->
  fault (fst (finish jdefs defs c b0)) = fault b0
  /\ inflight (fst (finish jdefs defs c b0)) = inflight b0
  /\ exists evs m,
       history (fst (finish jdefs defs c b0)) = history b0 ++ evs
       /\ queue (fst (finish jdefs defs c b0)) = m ++ queue b0
       /\ ok_cmds cell (s || is_lift cell c) m = true
       /\ ordered cell s evs = true
       /\ match snd (finish jdefs defs c b0) with
          | Normal _ => has_lift cell evs = is_lift cell c
          | Throw _ => has_lift cell evs = false /\ is_lift cell c = false
          end.
Proof.
  intros Hok.
  pose proof (has_effect_optional cell jdefs defs _ _ _ Hok b0)
    as (Hf & Hi & evs & m & Hh & Hq & Hquiet & Hm).
  unfold finish. rewrite bind_unfold.
  destruct (run_optional jdefs defs (postCallback_of c) b0) as [b' [[]|e]] eqn:Hrun;
    simpl in *.
  - split; [exact Hf|]. split; [exact Hi|].
    exists (evs ++ [Completed c]), m. rewrite Hh, Hq, app_assoc.
    repeat split; [exact Hm| |].
    + rewrite ordered_app, (ordered_quiet cell _ _ Hquiet). reflexivity.
    + rewrite has_lift_app, (quiet_has_lift cell _ _ Hquiet). simpl.
      apply orb_false_r.
  - split; [exact Hf|]. split; [exact Hi|].
    exists evs, m. repeat split; try assumption.
    + apply (ordered_quiet cell _ _ Hquiet).
    + apply (quiet_has_lift cell _ _ Hquiet).
    + destruct (is_lift cell c) eqn:Hl; [|reflexivity].
      rewrite (is_lift_post c Hl) in Hrun. discriminate.
Qed.

(** The lift entry reaches the head of the queue: its pre-callback copies the
    stored position into the captured variable, its text is sent, and it is
    in flight. *)
Lemma begin_lift b0 :
  begin jdefs defs (liftCommand cell) b0
  = (set_inflight (Some (liftCommand cell))
       (set_history (history b0 ++ [Sent (lift_code undefined_position)])
          (set_cells (<[cell := pausedPosition b0]> (cells b0)) b0)),
     Normal tt).
Proof. reflexivity. Qed.

(** The head entry starts: pre-callback, then its text is sent and it is in
    flight, or, having neither text nor processing function, it finishes at
    once. *)
Lemma begin_spec s c b0 :
  ok_cmd cell s c = true ->
  inflight b0 = None ->
  fault (fst (begin jdefs defs c b0)) = fault b0
  /\ exists evs m,
       history (fst (begin jdefs defs c b0)) = history b0 ++ evs
       /\ queue (fst (begin jdefs defs c b0)) = m ++ queue b0
       /\ ok_cmds cell (s || is_lift cell c) m = true
       /\ ordered cell s evs = true
       /\ match snd (begin jdefs defs c b0) with
          | Normal _ =>
              (inflight (fst (begin jdefs defs c b0)) = Some c
               /\ has_lift cell evs = false
               /\ ok_optional cell s (s || is_lift cell c) (postCallback_of c) = true)
              \/ (inflight (fst (begin jdefs defs c b0)) = None
                  /\ has_lift cell evs = is_lift cell c)
          | Throw _ =>
              inflight (fst (begin jdefs defs c b0)) = None
              /\ has_lift cell evs = false /\ is_lift cell c = false
          end.
Proof.
  intros Hok Hin.
  destruct (is_lift cell c) eqn:Hl.
  { pose proof (is_lift_eq cell c Hl) as ->. rewrite begin_lift. simpl.
    split; [reflexivity|].
    exists [Sent (lift_code undefined_position)], []. repeat split.
    left. repeat split. }
  rewrite orb_false_r.
  assert (ok_optional cell s s (preCallback_of c) = true
          /\ ok_optional cell s s (postCallback_of c) = true) as [Hpre Hpost].
  { destruct c as [text|pre text pd post]; [split; reflexivity|].
    cbn [ok_cmd] in Hok. rewrite Hl, orb_false_r in Hok.
    apply andb_prop in Hok. exact Hok. }
  pose proof (has_effect_optional cell jdefs defs _ _ _ Hpre b0)
    as (Hf & Hi & evs & m & Hh & Hq & Hquiet & Hm).
  unfold begin. rewrite bind_unfold.
  destruct (run_optional jdefs defs (preCallback_of c) b0) as [b' [[]|e]] eqn:Hrun;
    simpl in Hf, Hi, Hh, Hq.
  2:{ simpl. split; [exact Hf|]. exists evs, m. repeat split; try assumption.
      - apply (ordered_quiet cell _ _ Hquiet).
      - congruence.
      - apply (quiet_has_lift cell _ _ Hquiet). }
  destruct (code_of c) as [text|] eqn:Hcode.
  - simpl. split; [exact Hf|].
    exists (evs ++ [Sent text]), m. rewrite Hh, Hq, app_assoc.
    repeat split; [exact Hm| |].
    + rewrite ordered_app, (ordered_quiet cell _ _ Hquiet). reflexivity.
    + left. repeat split; [|exact Hpost].
      rewrite has_lift_app, (quiet_has_lift cell _ _ Hquiet). reflexivity.
  - destruct (processData_of c) as [pd|] eqn:Hpd.
    + simpl. split; [exact Hf|].
      exists evs, m. repeat split; try assumption.
      * apply (ordered_quiet cell _ _ Hquiet).
      * left. repeat split; [|exact Hpost]. apply (quiet_has_lift cell _ _ Hquiet).
    + assert (ok_optional cell s (s || is_lift cell c) (postCallback_of c) = true) as Hpost'
          by (rewrite Hl, orb_false_r; exact Hpost).
      pose proof (finish_spec s c b' Hpost')
        as (Hf2 & Hi2 & evs2 & m2 & Hh2 & Hq2 & Hm2 & Ho2 & Hr2).
      rewrite Hl, orb_false_r in Hm2.
      split; [congruence|].
      exists (evs ++ evs2), (m2 ++ m). rewrite Hh2, Hq2, Hh, Hq, !app_assoc.
      repeat split.
      * apply ok_cmds_app; assumption.
      * rewrite ordered_app, (ordered_quiet cell _ _ Hquiet),
          (quiet_has_lift cell _ _ Hquiet), orb_false_r. exact Ho2.
      * rewrite has_lift_app, (quiet_has_lift cell _ _ Hquiet). simpl.
        destruct (snd (finish jdefs defs c b')).
        -- right. split; [congruence|]. rewrite Hr2. exact Hl.
        -- destruct Hr2 as [Hr2 _]. repeat split; congruence.
Qed.

(** The head entry is popped and started. *)
Lemma pump_step_ok s b c q :
  fault b = None -> inflight b = None -> queue b = c :: q ->
  pending_ok s b ->
  step_ok s b (attempt conv (begin jdefs defs c) (set_queue q b)).
Proof.
  intros Hfault Hin Hqueue Hpend.
  unfold pending_ok in Hpend. rewrite Hin, Hqueue in Hpend.
  cbn [ok_cmds] in Hpend. apply andb_prop in Hpend as [Hc Hq].
  pose proof (begin_spec s c (set_queue q b) Hc Hin)
    as (Hf & evs & m & Hh & Hqu & Hm & Ho & Hr).
  unfold attempt.
  destruct (begin jdefs defs c (set_queue q b)) as [b1 [[]|e]]; simpl in *.
  - exists evs. split; [exact Hh|]. split; [exact Ho|]. intros _.
    unfold pending_ok.
    destruct Hr as [(Hi & Hl & Hpost)|(Hi & Hl)]; rewrite Hi, Hl, Hqu.
    + rewrite orb_false_r. split; [exact Hpost|]. apply ok_cmds_app; assumption.
    + apply ok_cmds_app; assumption.
  - destruct Hr as (Hi & Hl & Hlc). rewrite Hlc, orb_false_r in *.
    destruct (haltOnThrow conv); simpl.
    + exists evs. split; [exact Hh|]. split; [exact Ho|]. discriminate.
    + exists evs. split; [exact Hh|]. split; [exact Ho|]. intros _.
      unfold pending_ok. simpl. rewrite Hl, Hqu, orb_false_r.
      apply ok_cmds_app; assumption.
Qed.

Lemma pump_ok fuel : forall s b,
  (fault b = None -> pending_ok s b) -> step_ok s b (pump jdefs defs conv fuel b).
Proof.
  induction fuel as [|fuel IH]; intros s b Hpend; [apply step_ok_refl; exact Hpend|].
  cbn [pump].
  destruct (fault b) eqn:Hfault;
    [apply step_ok_refl; intros HH; congruence|].
  destruct (inflight b) eqn:Hin;
    [apply step_ok_refl; intros _; apply Hpend; reflexivity|].
  destruct (queue b) as [|c q] eqn:Hqueue;
    [apply step_ok_refl; intros _; apply Hpend; reflexivity|].
  eapply step_ok_trans.
  - apply (pump_step_ok s b c q Hfault Hin Hqueue). apply Hpend. reflexivity.
  - intros s' Hpend'. apply IH. exact Hpend'.
Qed.

(** A response line reaches the entry in flight. *)
Lemma on_line_ok s b data :
  (fault b = None -> pending_ok s b) ->
  step_ok s b (on_line jdefs defs conv data b).
Proof.
  intros Hpend. unfold on_line.
  destruct (fault b) eqn:Hfault;
    [apply step_ok_refl; intros HH; congruence|].
  destruct (inflight b) as [c|] eqn:Hin;
    [|apply step_ok_refl; intros _; apply Hpend; reflexivity].
  specialize (Hpend eq_refl). unfold pending_ok in Hpend. rewrite Hin in Hpend.
  destruct Hpend as [Hpost Hq].
  destruct (processData_of c) as [pd|] eqn:Hpd.
  - (* a processing function looks at the line *)
    assert (is_lift cell c = false) as Hlc.
    { destruct (is_lift cell c) eqn:Hl; [|reflexivity].
      rewrite (is_lift_pd c Hl) in Hpd. discriminate. }
    rewrite Hlc, orb_false_r in *.
    pose proof (has_effect_processData cell s s pd data b)
      as (Hf & Hi & evs & m & Hh & Hqu & Hquiet & Hm).
    unfold attempt. rewrite bind_unfold.
    destruct (run_processData pd data b) as [b' [more|e]]; simpl in Hf, Hi, Hh, Hqu.
    + destruct (Bool.eqb more (moreLinesWhen conv)).
      * simpl. exists evs. split; [exact Hh|].
        split; [apply (ordered_quiet cell _ _ Hquiet)|]. intros _.
        unfold pending_ok. rewrite Hi, Hin, Hqu, Hlc, (quiet_has_lift cell _ _ Hquiet),
          !orb_false_r.
        split; [exact Hpost|]. apply ok_cmds_app; assumption.
      * rewrite bind_unfold. cbn [modify].
        assert (ok_optional cell s (s || is_lift cell c) (postCallback_of c) = true)
          as Hpost' by (rewrite Hlc, orb_false_r; exact Hpost).
        pose proof (finish_spec s c (set_inflight None b') Hpost')
          as (Hf2 & Hi2 & evs2 & m2 & Hh2 & Hq2 & Hm2 & Ho2 & Hr2).
        rewrite Hlc, orb_false_r in Hm2.
        destruct (finish jdefs defs c (set_inflight None b')) as [b2 [[]|e]];
          simpl in Hf2, Hi2, Hh2, Hq2, Hr2.
        -- exists (evs ++ evs2). rewrite Hh2, Hh, app_assoc. split; [reflexivity|].
           rewrite ordered_app, (ordered_quiet cell _ _ Hquiet),
             (quiet_has_lift cell _ _ Hquiet), orb_false_r.
           split; [exact Ho2|]. intros _. unfold pending_ok.
           rewrite Hi2, has_lift_app, (quiet_has_lift cell _ _ Hquiet), Hr2, Hlc, Hq2, Hqu,
             !orb_false_r.
           apply ok_cmds_app; [exact Hm2|]. apply ok_cmds_app; assumption.
        -- destruct Hr2 as [Hr2 _].
           assert (ordered cell s (evs ++ evs2) = true) as Hord
               by (rewrite ordered_app, (ordered_quiet cell _ _ Hquiet),
                     (quiet_has_lift cell _ _ Hquiet), orb_false_r; exact Ho2).
           destruct (haltOnThrow conv); unfold step_ok; simpl;
             exists (evs ++ evs2); rewrite Hh2, Hh, app_assoc;
             (split; [reflexivity|]); (split; [exact Hord|]); [discriminate|].
           intros _. unfold pending_ok. simpl.
           rewrite has_lift_app, (quiet_has_lift cell _ _ Hquiet), Hr2, Hq2, Hqu,
             !orb_false_r.
           apply ok_cmds_app; [exact Hm2|]. apply ok_cmds_app; assumption.
    + destruct (haltOnThrow conv); unfold step_ok; simpl;
        exists evs; (split; [exact Hh|]);
        (split; [apply (ordered_quiet cell _ _ Hquiet)|]); [discriminate|].
      intros _. unfold pending_ok. simpl.
      rewrite (quiet_has_lift cell _ _ Hquiet), Hqu, !orb_false_r.
      apply ok_cmds_app; assumption.
  - (* no processing function: the line satisfies the entry *)
    pose proof (finish_spec s c (set_inflight None b) Hpost)
      as (Hf2 & Hi2 & evs2 & m2 & Hh2 & Hq2 & Hm2 & Ho2 & Hr2).
    unfold attempt.
    destruct (finish jdefs defs c (set_inflight None b)) as [b2 [[]|e]];
      simpl in Hf2, Hi2, Hh2, Hq2, Hr2.
    + exists evs2. split; [exact Hh2|]. split; [exact Ho2|]. intros _.
      unfold pending_ok. rewrite Hi2, Hr2, Hq2. apply ok_cmds_app; assumption.
    + destruct Hr2 as [Hr2 Hlc]. rewrite Hlc, orb_false_r in *.
      destruct (haltOnThrow conv); unfold step_ok; simpl;
        exists evs2; (split; [exact Hh2|]); (split; [exact Ho2|]); [discriminate|].
      intros _. unfold pending_ok. simpl. rewrite Hr2, Hq2, orb_false_r.
      apply ok_cmds_app; assumption.
Qed.

Lemma receive_ok fuel s b data :
  (fault b = None -> pending_ok s b) ->
  step_ok s b (receive jdefs defs conv fuel b data).
Proof.
  intros Hpend. unfold receive. eapply step_ok_trans.
  - apply on_line_ok. exact Hpend.
  - intros s' Hpend'. apply pump_ok. exact Hpend'.
Qed.

Lemma fold_receive_ok fuel lines : forall s b,
  (fault b = None -> pending_ok s b) ->
  step_ok s b (fold_left (receive jdefs defs conv fuel) lines b).
Proof.
  induction lines as [|data lines IH]; intros s b Hpend;
    [apply step_ok_refl; exact Hpend|].
  cbn [fold_left]. eapply step_ok_trans.
  - apply receive_ok. exact Hpend.
  - intros s' Hpend'. apply IH. exact Hpend'.
Qed.

(** Whatever the device answers and however long the queue is drained:
    if what is still to run is fine, the record grows in order. *)
Lemma drain_ok fuel lines s b :
  (fault b = None -> pending_ok s b) ->
  step_ok s b (drain jdefs defs conv fuel lines b).
Proof.
  intros Hpend. unfold drain. eapply step_ok_trans.
  - apply pump_ok. exact Hpend.
  - intros s' Hpend'. apply fold_receive_ok. exact Hpend'.
Qed.

End Steps.

(** *** What a successful [pause] leaves behind *)

Definition transient (state : string) : bool :=
  String.eqb state "blocking" || String.eqb state "unblocking".

(** With all three preconditions met, [pause] puts Stage A at the head of the
    queue and, in a transient state, the deferred-pause entry at its tail; it
    records at most the call of [self.fsm.pause]. *)
Lemma pause_accepted defs b job :
  currentJob b = Some job ->
  includes (pauseable defs) (fsm_current b) = true ->
  String.eqb (job_fsm job) "running" = true ->
  queue (fst (pause defs b))
  = stageA (length (cells b))
      :: queue b ++ (if transient (fsm_current b) then [deferredPauseCommand] else [])
  /\ inflight (fst (pause defs b)) = inflight b
  /\ fault (fst (pause defs b)) = fault b
  /\ history (fst (pause defs b))
     = history b ++ (if transient (fsm_current b) then [] else [BotFsm "pause"])
  /\ snd (pause defs b) = Normal (getBot (fst (pause defs b))).
Proof.
  intros Hjob Hp Hr.
  unfold pause, pause_try, transient. unfold_M. rewrite Hjob, Hp, Hr. simpl.
  destruct (String.eqb (fsm_current b) "blocking" || String.eqb (fsm_current b) "unblocking").
  - simpl. rewrite app_nil_r. repeat split.
  - unfold self_fsm, record. unfold_M. simpl.
    destruct (StateMachine.fire _ _ _); simpl; rewrite ?app_nil_r; repeat split.
Qed.

(** Modelled from the spec: an event table for [botFsmDefinitions] (not among
    the sources) after section 4.2, with a state [pausing] between the pause
    request and [pauseDone]; the pauseable set is left open.  Used in the
    examples only. *)
Definition sample_botFsmDefinitions (pauseable_states : list string) : BotFsmDefinitions :=
  {| botFsmEvents :=
       [ {| ev_name := "pause"; ev_from := "idle"; ev_to := "pausing" |};
         {| ev_name := "pause"; ev_from := "blocking"; ev_to := "pausing" |};
         {| ev_name := "pause"; ev_from := "unblocking"; ev_to := "pausing" |};
         {| ev_name := "pauseDone"; ev_from := "pausing"; ev_to := "paused" |};
         {| ev_name := "resume"; ev_from := "paused"; ev_to := "idle" |} ];
     pauseable := pauseable_states |}.

(** The queue convention pause.js is written for ([true]: the entry is done),
    and the one of section 4.1 of the spec ([true]: more lines). *)
Definition done_when_true : QueueConvention :=
  {| moreLinesWhen := false; haltOnThrow := true |}.
Definition more_when_true : QueueConvention :=
  {| moreLinesWhen := true; haltOnThrow := true |}.

(** *** The callbacks and the queue *)

(** Stage A's post-callback pauses the job and prepends Stage B; it prepends
    nothing when the call on the job throws. *)
Lemma stageA_postCallback jdefs defs movement w :
  (snd (run_callback jdefs defs (CbPauseJob movement) w) = Normal tt
   /\ queue (fst (run_callback jdefs defs (CbPauseJob movement) w)) = movement ++ queue w)
  \/ (exists e, snd (run_callback jdefs defs (CbPauseJob movement) w) = Throw e
      /\ queue (fst (run_callback jdefs defs (CbPauseJob movement) w)) = queue w).
Proof.
  cbn [run_callback]. unfold self_logger, self_currentJob, prependCommands. unfold_M.
  simpl. destruct (currentJob w) as [j|]; simpl; [|right; eauto].
  destruct (JobClass.pause jdefs (j, _)) as [[j' lg'] [[]|e]]; simpl; [left|right]; eauto.
Qed.

Lemma job_pause_returns jdefs j lg :
  job_fsm j = "running" \/ job_fsm j = "paused" ->
  snd (JobClass.pause jdefs (j, lg)) = Normal tt.
Proof.
  intros Hstate.
  unfold JobClass.pause, JobClass.this, JobClass.stopwatch_stop, JobClass.update,
    JobClass.fsm, JobClass.onenterstate, JobClass.logger.
  unfold_M. simpl.
  destruct Hstate as [-> | ->]; simpl; [|reflexivity].
  destruct (StateMachine.fire _ _ _); reflexivity.
Qed.

Lemma stageA_postCallback_prepends jdefs defs movement w j :
  currentJob w = Some j ->
  job_fsm j = "running" \/ job_fsm j = "paused" ->
  snd (run_callback jdefs defs (CbPauseJob movement) w) = Normal tt
  /\ queue (fst (run_callback jdefs defs (CbPauseJob movement) w)) = movement ++ queue w.
Proof.
  intros Hj Hstate.
  pose proof (job_pause_returns jdefs j (log_to (logger w) LDebug ["Starting pause command"])
                Hstate) as Hret.
  cbn [run_callback]. unfold self_logger, self_currentJob, prependCommands. unfold_M.
  simpl. rewrite Hj. simpl.
  destruct (JobClass.pause jdefs (j, _)) as [[j' lg'] [[]|e]]; simpl in *;
    [split; reflexivity|discriminate].
Qed.

(** The closing entry's post-callback prepends Stage C. *)
Lemma closing_postCallback jdefs defs c w :
  run_callback jdefs defs (CbPrependPauseEnd c) w = (set_queue (c :: queue w) w, Normal tt).
Proof. reflexivity. Qed.

(** No other callback touches the queue. *)
Lemma other_callbacks_keep_queue jdefs defs cb w :
  match cb with CbPauseJob _ | CbPrependPauseEnd _ => False | _ => True end ->
  queue (fst (run_callback jdefs defs cb w)) = queue w.
Proof.
  destruct cb as [| | n|c|movement|]; intros H; try contradiction;
    cbn [run_callback]; unfold just_queued_pause, self_fsm, self_logger, record;
    unfold_M; simpl; try reflexivity;
    destruct (StateMachine.fire _ _ _); reflexivity.
Qed.

(** Nor does the processing function of the telemetry entry. *)
Lemma processData_keeps_queue pd data w :
  queue (fst (run_processData pd data w)) = queue w.
Proof.
  destruct pd. unfold run_processData, processData_M114. unfold_M.
  destruct (Regex.js_match data m114Regex); reflexivity.
Qed.

Lemma ok_stageA cell s : ok_cmd cell s (stageA cell) = true.
Proof.
  unfold stageA. cbn [ok_cmd]. rewrite ok_cb_PauseJob.
  unfold pauseMovementCommand. cbn [ok_cmds ok_cmd ok_cb is_lift pauseEndCommand].
  rewrite Nat.eqb_refl, String.eqb_refl. simpl. rewrite !orb_true_r. reflexivity.
Qed.

Lemma is_lift_plain cell c : plain c -> is_lift cell c = false.
Proof.
  intros [Hpre _]. destruct c as [text|pre text pd post]; [reflexivity|].
  simpl in Hpre. subst. reflexivity.
Qed.

(** C1. For a call of [pause] that passes its preconditions, with nothing but
    other people's plain entries queued or in flight:
    - [pause] itself enqueues Stage A alone (and, in a transient state, the
      deferred-pause entry at the tail);
    - Stage A's post-callback is what prepends Stage B, the closing entry's
      post-callback is what prepends Stage C, and no other callback or
      processing function touches the queue;
    - however the queue is then drained (any response lines, any amount of
      draining, either reading of the processing function's result, either
      policy on exceptions), every call of [pauseDone] on the device state
      machine comes after the completion of the lift entry. *)
Theorem pause_cascade_order (jdefs : JobFsmDefinitions) (defs : BotFsmDefinitions)
    (conv : QueueConvention) (b : Bot) (job : Job) :
  currentJob b = Some job ->
  includes (pauseable defs) (fsm_current b) = true ->
  String.eqb (job_fsm job) "running" = true ->
  Forall plain (queue b) ->
  (forall c, inflight b = Some c -> plain c) ->
  let cell := length (cells b) in
  let b1 := fst (pause defs b) in
  queue b1
  = stageA cell :: queue b ++ (if transient (fsm_current b) then [deferredPauseCommand] else [])
  /\ (forall w j, currentJob w = Some j -> job_fsm j = "running" \/ job_fsm j = "paused" ->
        queue (fst (run_callback jdefs defs
                      (CbPauseJob (pauseMovementCommand cell undefined_position)) w))
        = pauseMovementCommand cell undefined_position ++ queue w)
  /\ (forall w,
        queue (fst (run_callback jdefs defs (CbPrependPauseEnd pauseEndCommand) w))
        = pauseEndCommand :: queue w)
  /\ (forall cb w,
        match cb with CbPauseJob _ | CbPrependPauseEnd _ => False | _ => True end ->
        queue (fst (run_callback jdefs defs cb w)) = queue w)
  /\ (forall pd data w, queue (fst (run_processData pd data w)) = queue w)
  /\ (forall fuel lines,
        exists tr,
          history (drain jdefs defs conv fuel lines b1) = history b1 ++ tr
          /\ pauseDone_after_lift cell tr).
Proof.
  intros Hjob Hp Hr Hplain Hin cell b1.
  destruct (pause_accepted defs b job Hjob Hp Hr) as (Hq & Hi & Hf & Hh & _).
  fold b1 in Hq, Hi, Hf, Hh. fold cell in Hq.
  split; [exact Hq|].
  split; [intros w j Hj Hs; apply (stageA_postCallback_prepends jdefs defs _ w j Hj Hs)|].
  split; [intros w; reflexivity|].
  split; [intros cb w Hcb; apply other_callbacks_keep_queue; exact Hcb|].
  split; [apply processData_keeps_queue|].
  intros fuel lines.
  assert (pending_ok cell false b1) as Hpend.
  { assert (ok_cmds cell false (queue b1) = true) as Hok.
    { rewrite Hq. cbn [ok_cmds]. rewrite ok_stageA. simpl.
      apply ok_cmds_app; [apply ok_cmds_plain; exact Hplain|].
      destruct (transient (fsm_current b)); reflexivity. }
    unfold pending_ok. rewrite Hi.
    destruct (inflight b) as [c|] eqn:Hc; [|exact Hok].
    specialize (Hin c eq_refl). rewrite (is_lift_plain cell c Hin).
    destruct Hin as [_ Hpost]. rewrite Hpost. split; [reflexivity|exact Hok]. }
  destruct (drain_ok cell jdefs defs conv fuel lines false b1 (fun _ => Hpend))
    as (tr & Htr & Hord & _).
  exists tr. split; [exact Htr|]. apply ordered_spec. exact Hord.
Qed.

(** The telemetry entry of Stage B (lines 48-64). *)
Definition telemetryCommand : Command :=
  CmdEntry (Some CbStartingMovements) (Some "M114") (Some PdM114) None.

Lemma pauseMovementCommand_entries cell :
  pauseMovementCommand cell undefined_position
  = [CmdCode "M400"; telemetryCommand; liftCommand cell; closingCommand].
Proof. reflexivity. Qed.

(** The instruction texts put on the wire, oldest first. *)
Definition sent (tr : list Event) : list string :=
  omap (fun e => match e with Sent text => Some text | _ => None end) tr.

(** A device printing a job, idle between two instructions, with one
    instruction of the job still queued. *)
Definition printing_bot (state : string) : Bot :=
  sample_bot state (Some (sample_job "running")) [CmdCode "G1 X5"].

(** The device answers "ok" to M400, the position to M114, "ok" to the lift
    and "ok" to the queued instruction. *)
Definition responses : list string := ["ok"; telemetry_line; "ok"; "ok"].

Lemma pause_cascade_order_witness :
  let jdefs := jobFsmDefinitions in
  let defs := sample_botFsmDefinitions ["idle"] in
  let conv := done_when_true in
  let b := printing_bot "idle" in
  let cell := length (cells b) in
  let b1 := fst (pause defs b) in
  (queue b1
   = stageA cell :: queue b ++ (if transient (fsm_current b) then [deferredPauseCommand] else [])
   /\ (forall w j, currentJob w = Some j -> job_fsm j = "running" \/ job_fsm j = "paused" ->
         queue (fst (run_callback jdefs defs
                       (CbPauseJob (pauseMovementCommand cell undefined_position)) w))
         = pauseMovementCommand cell undefined_position ++ queue w)
   /\ (forall w,
         queue (fst (run_callback jdefs defs (CbPrependPauseEnd pauseEndCommand) w))
         = pauseEndCommand :: queue w)
   /\ (forall cb w,
         match cb with CbPauseJob _ | CbPrependPauseEnd _ => False | _ => True end ->
         queue (fst (run_callback jdefs defs cb w)) = queue w)
   /\ (forall pd data w, queue (fst (run_processData pd data w)) = queue w)
   /\ (forall fuel lines,
         exists tr,
           history (drain jdefs defs conv fuel lines b1) = history b1 ++ tr
           /\ pauseDone_after_lift cell tr))
  /\ history (drain jdefs defs conv 20 responses b1)
     = [ BotFsm "pause";
         Completed (stageA 0);
         Sent "M400"; Completed (CmdCode "M400");
         Sent "M114"; Completed telemetryCommand;
         Sent "G1 ZNaN"; Completed (liftCommand 0);
         Completed closingCommand;
         BotFsm "pauseDone"; Completed pauseEndCommand;
         Sent "G1 X5"; Completed (CmdCode "G1 X5") ]
  /\ fsm_current (drain jdefs defs conv 20 responses b1) = "paused".
Proof.
  split; [|split; vm_compute; reflexivity].
  apply (pause_cascade_order jobFsmDefinitions (sample_botFsmDefinitions ["idle"])
           done_when_true (printing_bot "idle") (sample_job "running")).
  - reflexivity.
  - reflexivity.
  - reflexivity.
  - repeat constructor.
  - intros c Hc. discriminate Hc.
Defined.

(** ** Two places where the cascade does not do what is asked of it *)

(** In a transient state that the pauseable check lets through, Stage A is
    prepended all the same and only the deferred-pause entry goes to the
    tail. *)
Lemma pause_transient_queue defs b job :
  currentJob b = Some job ->
  includes (pauseable defs) (fsm_current b) = true ->
  String.eqb (job_fsm job) "running" = true ->
  transient (fsm_current b) = true ->
  queue (fst (pause defs b)) = stageA (length (cells b)) :: queue b ++ [deferredPauseCommand]
  /\ history (fst (pause defs b)) = history b
  /\ fsm_current (fst (pause defs b)) = fsm_current b.
Proof.
  intros Hjob Hp Hr Ht.
  destruct (pause_accepted defs b job Hjob Hp Hr) as (Hq & _ & _ & Hh & _).
  rewrite Ht in Hq, Hh. rewrite app_nil_r in Hh. split; [exact Hq|]. split; [exact Hh|].
  unfold pause, pause_try, transient in *. unfold_M. rewrite Hjob, Hp, Hr. simpl.
  rewrite Ht. reflexivity.
Qed.

(** C2, at the failing input: the device is [blocking] (a state the pauseable
    set lets through), the job is running and "G1 X5" is queued.  [pause]
    leaves Stage A ahead of "G1 X5" and the deferred-pause entry behind it.
    Drained, the job is paused and M400, M114 and the lift are sent before
    "G1 X5", and [pauseDone] is called while the device is still [blocking],
    before the deferred-pause entry has called [pause]: with exceptions
    escaping the drain stops there; with failed entries skipped "G1 X5" runs
    next, the deferred entry then calls [pause] and the device stays
    [pausing]. *)
Theorem pause_transient_runs_cascade_first :
  let jdefs := jobFsmDefinitions in
  let defs := sample_botFsmDefinitions ["idle"; "blocking"; "unblocking"] in
  let b1 := fst (pause defs (printing_bot "blocking")) in
  let halted := drain jdefs defs done_when_true 20 responses b1 in
  let skipping :=
    drain jdefs defs {| moreLinesWhen := false; haltOnThrow := false |} 20 responses b1 in
  queue b1 = [stageA 0; CmdCode "G1 X5"; deferredPauseCommand]
  /\ history b1 = []
  /\ history halted
     = [ Completed (stageA 0);
         Sent "M400"; Completed (CmdCode "M400");
         Sent "M114"; Completed telemetryCommand;
         Sent "G1 ZNaN"; Completed (liftCommand 0);
         Completed closingCommand;
         BotFsm "pauseDone" ]
  /\ fault halted
     = Some (ThrownString "event pauseDone inappropriate in current state blocking")
  /\ fsm_current halted = "blocking"
  /\ option_map job_fsm (currentJob halted) = Some "paused"
  /\ queue halted = [CmdCode "G1 X5"; deferredPauseCommand]
  /\ history skipping
     = [ Completed (stageA 0);
         Sent "M400"; Completed (CmdCode "M400");
         Sent "M114"; Completed telemetryCommand;
         Sent "G1 ZNaN"; Completed (liftCommand 0);
         Completed closingCommand;
         BotFsm "pauseDone";
         Sent "G1 X5"; Completed (CmdCode "G1 X5");
         BotFsm "pause"; Completed deferredPauseCommand ]
  /\ fsm_current skipping = "pausing".
Proof. vm_compute. repeat split. Qed.

(** With the pauseable set as section 4.2 of the spec describes it (transient
    states left out), a pause request in a transient state is refused by the
    second precondition: nothing is queued at all. *)
Lemma pause_transient_refused :
  let defs := sample_botFsmDefinitions ["idle"] in
  pause defs (printing_bot "blocking")
  = (set_logger [ {| level := LError;
                     args := ["Pause error";
                              "Error: Cannot pause bot from state " +:+ dquote
                                +:+ "blocking" +:+ dquote] |} ]
                (printing_bot "blocking"),
     Normal (getBot (printing_bot "blocking"))).
Proof. vm_compute. reflexivity. Qed.

(** C4, at the failing input.  The text of the lift entry is the template
    literal of line 70, evaluated when [pause] builds the array: the position
    it reads is the one of lines 39-44, whose [z] is [undefined], so the text
    is "G1 ZNaN".  The entry's pre-callback updates the variable afterwards
    and changes nothing of the text.  After the response
    "X:10.5 Y:-2.0 Z:5.0 E:100.25" with zero offsets, the stored position has
    z = 5 and the captured variable holds it, the instruction sent is still
    "G1 ZNaN"; the template applied to the stored position would have given
    "G1 Z15". *)
Theorem lift_instruction_text_is_NaN :
  let jdefs := jobFsmDefinitions in
  let defs := sample_botFsmDefinitions ["idle"] in
  let b1 := fst (pause defs (printing_bot "idle")) in
  let b2 := drain jdefs defs done_when_true 20 responses b1 in
  (forall cell, code_of (liftCommand cell) = Some "G1 ZNaN")
  /\ lift_code undefined_position = "G1 ZNaN"
  /\ queue b1 = [stageA 0; CmdCode "G1 X5"]
  /\ pausedPosition b2 = Some telemetry_position
  /\ cells b2 = [Some telemetry_position]
  /\ sent (history b2) = ["M400"; "M114"; "G1 ZNaN"; "G1 X5"]
  /\ lift_code telemetry_position = "G1 Z15".
Proof.
  split; [intros cell; vm_compute; reflexivity|].
  vm_compute. repeat split.
Qed.

(** ** The telemetry entry in the queue *)

(** A line without a position report reaches the telemetry entry in flight:
    the exception of the processing function escapes the entry, which never
    completes; the paused position is untouched. *)
Lemma malformed_line_fails_telemetry_entry jdefs defs conv b data :
  fault b = None ->
  inflight b = Some telemetryCommand ->
  (forall nx ny nz ne, ~ position_report (chars data) nx ny nz ne) ->
  on_line jdefs defs conv data b
  = (if haltOnThrow conv
     then set_fault (Some (TypeError "Cannot read property '1' of null")) b
     else set_logger
            (log_to (logger b) LError
               ["Command failed"; "TypeError: Cannot read property '1' of null"])
            (set_inflight None b))
  /\ pausedPosition (on_line jdefs defs conv data b) = pausedPosition b
  /\ history (on_line jdefs defs conv data b) = history b.
Proof.
  intros Hf Hi Hno. apply m114Regex_no_match in Hno.
  unfold on_line, attempt. rewrite Hf, Hi. cbn [processData_of telemetryCommand].
  rewrite bind_unfold. cbn [run_processData]. rewrite (processData_no_match _ _ Hno).
  destruct (haltOnThrow conv); repeat split.
Qed.

(** A line with a position report reaches the telemetry entry in flight.  If
    [true] means that the entry is done, the entry completes; if [true] means
    that more lines are expected, as section 4.1 of the spec has it, the
    entry stays in flight. *)
Lemma telemetry_entry_after_report jdefs defs conv b data m :
  fault b = None ->
  inflight b = Some telemetryCommand ->
  Regex.js_match data m114Regex = Some m ->
  on_line jdefs defs conv data b
  = if moreLinesWhen conv
    then set_pausedPosition (Some (offset_position (settings b) m)) b
    else set_history (history b ++ [Completed telemetryCommand])
           (set_inflight None
              (set_pausedPosition (Some (offset_position (settings b) m)) b)).
Proof.
  intros Hf Hi Hm.
  unfold on_line, attempt. rewrite Hf, Hi. cbn [processData_of telemetryCommand].
  rewrite bind_unfold. cbn [run_processData]. rewrite (processData_match _ _ _ Hm).
  destruct (moreLinesWhen conv); reflexivity.
Qed.

(** Under the convention of section 4.1 the cascade does not get past the
    telemetry entry: the position is stored, the entry waits on, and the "ok"
    that follows makes the processing function throw. *)
Lemma cascade_under_spec_convention :
  let jdefs := jobFsmDefinitions in
  let defs := sample_botFsmDefinitions ["idle"] in
  let b1 := fst (pause defs (printing_bot "idle")) in
  let b2 := drain jdefs defs more_when_true 20 ["ok"; telemetry_line] b1 in
  let b3 := drain jdefs defs more_when_true 20 responses b1 in
  inflight b2 = Some telemetryCommand
  /\ pausedPosition b2 = Some telemetry_position
  /\ sent (history b2) = ["M400"; "M114"]
  /\ sent (history b3) = ["M400"; "M114"]
  /\ fault b3 = Some (TypeError "Cannot read property '1' of null").
Proof. vm_compute. repeat split. Qed.

(** *** The cascade runs to its end *)

(** The job after [pause()]; the log the call runs with does not matter to
    it. *)
Definition job_after_pause (jdefs : JobFsmDefinitions) (j : Job) : Job :=
  fst (fst (JobClass.pause jdefs (j, []))).

Lemma job_pause_job jdefs j lg :
  fst (fst (JobClass.pause jdefs (j, lg))) = job_after_pause jdefs j.
Proof.
  unfold job_after_pause, JobClass.pause, JobClass.this, JobClass.stopwatch_stop,
    JobClass.update, JobClass.fsm, JobClass.onenterstate, JobClass.logger.
  unfold_M. simpl.
  destruct (String.eqb (job_fsm j) "paused"); [reflexivity|].
  destruct (negb (String.eqb (job_fsm j) "running")); [reflexivity|]. simpl.
  destruct (StateMachine.fire _ _ _); reflexivity.
Qed.

Lemma job_after_pause_stopped jdefs j :
  job_fsm j = "running" ->
  sw_running (job_stopwatch (job_after_pause jdefs j)) = false
  /\ (StateMachine.fire (fsmEvents jdefs) "pause" "running"
        = StateMachine.Moved "running" "paused" ->
      job_after_pause jdefs j
      = set_job_fsm "paused" (set_job_stopwatch (Stopwatch_stop (job_stopwatch j)) j)).
Proof.
  intros Hs. destruct j as [uuid bot file state sw started elapsed pct].
  cbn in Hs. subst state.
  unfold job_after_pause, JobClass.pause, JobClass.this, JobClass.stopwatch_stop,
    JobClass.update, JobClass.fsm, JobClass.onenterstate, JobClass.logger.
  unfold_M. cbn -[StateMachine.fire].
  split.
  - destruct (StateMachine.fire _ _ _); reflexivity.
  - intros ->. reflexivity.
Qed.

Section CascadeRun.

Variable jdefs : JobFsmDefinitions.
Variable defs : BotFsmDefinitions.
Variable conv : QueueConvention.

(** The parts of the device the run is followed by: settings, state of the
    state machine, current job, paused position, queue, entry in flight and
    record; there is no fault. *)
Definition at_state (w : Bot) (s : Settings) (st : string) (job : option Job)
    (pp : option Position) (q : list Command) (i : option Command) (h : list Event) : Prop :=
  settings w = s /\ fsm_current w = st /\ currentJob w = job /\ pausedPosition w = pp
  /\ queue w = q /\ inflight w = i /\ fault w = None /\ history w = h.

Lemma pump_waiting fuel w c : inflight w = Some c -> pump jdefs defs conv fuel w = w.
Proof.
  intros H. destruct fuel; cbn [pump]; [reflexivity|].
  rewrite H. destruct (fault w); reflexivity.
Qed.

Lemma pump_idle fuel w : queue w = [] -> pump jdefs defs conv fuel w = w.
Proof.
  intros H. destruct fuel; cbn [pump]; [reflexivity|].
  rewrite H. destruct (fault w), (inflight w); reflexivity.
Qed.

Lemma pump_next fuel w c q :
  fault w = None -> inflight w = None -> queue w = c :: q ->
  pump jdefs defs conv (S fuel) w
  = pump jdefs defs conv fuel (attempt conv (begin jdefs defs c) (set_queue q w)).
Proof. intros Hf Hi Hq. cbn [pump]. rewrite Hf, Hi, Hq. reflexivity. Qed.

Ltac at_state_intro H :=
  destruct H as (Hs & Hst & Hjob & Hpp & Hq & Hi & Hf & Hh).

Ltac at_state_done :=
  unfold at_state; cbn; repeat split; try assumption; try congruence.

Ltac run_entry :=
  unfold attempt, begin, finish, record, run_optional, run_callback, prependCommands,
    self_logger;
  unfold_M; cbn.

(** Stage A: the job is paused and Stage B is prepended. *)
Lemma run_stageA w s st j pp cell q h :
  at_state w s st (Some j) pp (stageA cell :: q) None h ->
  job_fsm j = "running" \/ job_fsm j = "paused" ->
  at_state (attempt conv (begin jdefs defs (stageA cell)) (set_queue q w))
           s st (Some (job_after_pause jdefs j)) pp
           (pauseMovementCommand cell undefined_position ++ q) None
           (h ++ [Completed (stageA cell)]).
Proof.
  intros H Hstate. at_state_intro H.
  unfold attempt, begin, finish, record. cbn [preCallback_of stageA code_of processData_of
    postCallback_of run_optional run_callback].
  unfold self_logger, self_currentJob, prependCommands. unfold_M. cbn. rewrite Hjob.
  pose proof (job_pause_returns jdefs j
                (log_to (logger w) LDebug ["Starting pause command"]) Hstate) as Hret.
  pose proof (job_pause_job jdefs j
                (log_to (logger w) LDebug ["Starting pause command"])) as Hjp.
  destruct (JobClass.pause jdefs _) as [[j' lg'] r]. simpl in Hret, Hjp. subst r j'.
  at_state_done.
Qed.

(** An entry that is a bare instruction is sent. *)
Lemma run_code w s st job pp text q h :
  at_state w s st job pp (CmdCode text :: q) None h ->
  at_state (attempt conv (begin jdefs defs (CmdCode text)) (set_queue q w))
           s st job pp q (Some (CmdCode text)) (h ++ [Sent text]).
Proof. intros H. at_state_intro H. run_entry. at_state_done. Qed.

(** The telemetry entry is sent. *)
Lemma run_telemetry w s st job pp q h :
  at_state w s st job pp (telemetryCommand :: q) None h ->
  at_state (attempt conv (begin jdefs defs telemetryCommand) (set_queue q w))
           s st job pp q (Some telemetryCommand) (h ++ [Sent "M114"]).
Proof. intros H. at_state_intro H. run_entry. at_state_done. Qed.

(** The lift entry is sent, with the text it was created with. *)
Lemma run_lift w s st job pp cell q h :
  at_state w s st job pp (liftCommand cell :: q) None h ->
  at_state (attempt conv (begin jdefs defs (liftCommand cell)) (set_queue q w))
           s st job pp q (Some (liftCommand cell)) (h ++ [Sent (lift_code undefined_position)]).
Proof. intros H. at_state_intro H. run_entry. at_state_done. Qed.

(** The closing entry prepends Stage C. *)
Lemma run_closing w s st job pp q h :
  at_state w s st job pp (closingCommand :: q) None h ->
  at_state (attempt conv (begin jdefs defs closingCommand) (set_queue q w))
           s st job pp (pauseEndCommand :: q) None (h ++ [Completed closingCommand]).
Proof. intros H. at_state_intro H. run_entry. at_state_done. Qed.

(** Stage C calls [pauseDone]. *)
Lemma run_pauseEnd w s st st' job pp q h :
  StateMachine.fire (botFsmEvents defs) "pauseDone" st = StateMachine.Moved st st' ->
  at_state w s st job pp (pauseEndCommand :: q) None h ->
  at_state (attempt conv (begin jdefs defs pauseEndCommand) (set_queue q w))
           s st' job pp q None (h ++ [BotFsm "pauseDone"; Completed pauseEndCommand]).
Proof.
  intros Hfire H. at_state_intro H.
  unfold attempt, begin, finish, record. cbn [preCallback_of pauseEndCommand code_of
    processData_of postCallback_of run_optional run_callback].
  unfold self_fsm, record. unfold_M. cbn -[StateMachine.fire]. rewrite Hst, Hfire.
  unfold at_state; cbn; rewrite <- app_assoc; repeat split; try assumption; try congruence.
  rewrite Hh. reflexivity.
Qed.

(** A response line satisfies an entry that has no processing function and
    no post-callback. *)
Lemma line_completes w s st job pp q c h data :
  processData_of c = None -> postCallback_of c = None ->
  at_state w s st job pp q (Some c) h ->
  at_state (on_line jdefs defs conv data w) s st job pp q None (h ++ [Completed c]).
Proof.
  intros Hpd Hpost H. at_state_intro H.
  unfold on_line. rewrite Hf, Hi, Hpd. unfold attempt, finish. rewrite Hpost.
  run_entry. at_state_done.
Qed.

(** A position report satisfies the telemetry entry, when [true] says so. *)
Lemma line_telemetry w s st job pp q h data m :
  moreLinesWhen conv = false ->
  Regex.js_match data m114Regex = Some m ->
  at_state w s st job pp q (Some telemetryCommand) h ->
  at_state (on_line jdefs defs conv data w) s st job (Some (offset_position s m)) q None
           (h ++ [Completed telemetryCommand]).
Proof.
  intros Hconv Hm H. at_state_intro H.
  rewrite (telemetry_entry_after_report jdefs defs conv w data m Hf Hi Hm), Hconv.
  at_state_done.
Qed.

Lemma pump_next_at fuel w s st job pp c q h :
  at_state w s st job pp (c :: q) None h ->
  pump jdefs defs conv (S fuel) w
  = pump jdefs defs conv fuel (attempt conv (begin jdefs defs c) (set_queue q w)).
Proof. intros H. at_state_intro H. apply pump_next; assumption. Qed.

Lemma pump_waiting_at fuel w s st job pp c q h :
  at_state w s st job pp q (Some c) h -> pump jdefs defs conv fuel w = w.
Proof. intros H. at_state_intro H. apply (pump_waiting fuel w c Hi). Qed.

Lemma pump_idle_at fuel w s st job pp i h :
  at_state w s st job pp [] i h -> pump jdefs defs conv fuel w = w.
Proof. intros H. at_state_intro H. apply (pump_idle fuel w Hq). Qed.

(** The device after a pause request that is accepted outside the transient
    states, the state machine moving on [pause]. *)
Lemma pause_at b job next :
  currentJob b = Some job ->
  includes (pauseable defs) (fsm_current b) = true ->
  String.eqb (job_fsm job) "running" = true ->
  transient (fsm_current b) = false ->
  fault b = None ->
  StateMachine.fire (botFsmEvents defs) "pause" (fsm_current b)
    = StateMachine.Moved (fsm_current b) next ->
  at_state (fst (pause defs b)) (settings b) next (Some job) (pausedPosition b)
           (stageA (length (cells b)) :: queue b) (inflight b)
           (history b ++ [BotFsm "pause"]).
Proof.
  intros Hjob Hp Hr Ht Hf Hfire.
  unfold pause, pause_try, transient, just_queued_pause, self_logger, prependCommands,
    self_fsm, record in *.
  unfold_M. rewrite Hjob, Hp, Hr.
  cbn -[StateMachine.fire]. rewrite Ht. cbn -[StateMachine.fire]. rewrite Hfire.
  at_state_done.
Qed.

(** X24. With [true] read as "the entry is done" and a device that answers the
    three instructions, the second answer being a position report, the
    cascade of an accepted pause request runs to its end, in this order: the
    job is paused; M400 is sent and answered; M114 is sent and its answer
    stored, offsets subtracted; the lift is sent and answered; [pauseDone] is
    called and the state machine settles. *)
Theorem pause_cascade_completes b job l1 l2 l3 m fuel pausing paused :
  currentJob b = Some job ->
  includes (pauseable defs) (fsm_current b) = true ->
  String.eqb (job_fsm job) "running" = true ->
  transient (fsm_current b) = false ->
  queue b = [] -> inflight b = None -> fault b = None ->
  moreLinesWhen conv = false ->
  Regex.js_match l2 m114Regex = Some m ->
  StateMachine.fire (botFsmEvents defs) "pause" (fsm_current b)
    = StateMachine.Moved (fsm_current b) pausing ->
  StateMachine.fire (botFsmEvents defs) "pauseDone" pausing
    = StateMachine.Moved pausing paused ->
  at_state (drain jdefs defs conv (2 + fuel) [l1; l2; l3] (fst (pause defs b)))
           (settings b) paused (Some (job_after_pause jdefs job))
           (Some (offset_position (settings b) m)) [] None
           (history b
              ++ [ BotFsm "pause";
                   Completed (stageA (length (cells b)));
                   Sent "M400"; Completed (CmdCode "M400");
                   Sent "M114"; Completed telemetryCommand;
                   Sent (lift_code undefined_position);
                   Completed (liftCommand (length (cells b)));
                   Completed closingCommand;
                   BotFsm "pauseDone"; Completed pauseEndCommand ]).
Proof.
  intros Hjob Hp Hr Ht Hq Hi Hf Hconv Hm Hpause Hdone.
  pose proof (pause_at b job pausing Hjob Hp Hr Ht Hf Hpause) as H0.
  rewrite Hq, Hi in H0.
  assert (job_fsm job = "running" \/ job_fsm job = "paused") as Hstate
      by (left; apply String.eqb_eq; exact Hr).
  unfold drain. cbn [Nat.add].
  (* Stage A, then M400 is sent *)
  rewrite (pump_next_at _ _ _ _ _ _ _ _ _ H0).
  apply run_stageA in H0; [|exact Hstate]. rewrite pauseMovementCommand_entries in H0.
  cbn [app] in H0.
  rewrite (pump_next_at _ _ _ _ _ _ _ _ _ H0). apply run_code in H0.
  rewrite (pump_waiting_at _ _ _ _ _ _ _ _ _ H0).
  (* the answer to M400, then M114 is sent *)
  cbn [fold_left]. unfold receive at 3.
  apply (line_completes _ _ _ _ _ _ (CmdCode "M400") _ l1 eq_refl eq_refl) in H0.
  rewrite (pump_next_at _ _ _ _ _ _ _ _ _ H0). apply run_telemetry in H0.
  rewrite (pump_waiting_at _ _ _ _ _ _ _ _ _ H0).
  (* the position report, then the lift is sent *)
  unfold receive at 2.
  apply (line_telemetry _ _ _ _ _ _ _ l2 m Hconv Hm) in H0.
  rewrite (pump_next_at _ _ _ _ _ _ _ _ _ H0). apply run_lift in H0.
  rewrite (pump_waiting_at _ _ _ _ _ _ _ _ _ H0).
  (* the answer to the lift, then the closing entry and Stage C *)
  unfold receive.
  apply (line_completes _ _ _ _ _ _ (liftCommand (length (cells b))) _ l3 eq_refl eq_refl) in H0.
  rewrite (pump_next_at _ _ _ _ _ _ _ _ _ H0). apply run_closing in H0.
  rewrite (pump_next_at _ _ _ _ _ _ _ _ _ H0).
  apply (run_pauseEnd _ _ _ _ _ _ _ _ Hdone) in H0.
  rewrite (pump_idle_at _ _ _ _ _ _ _ _ H0).
  repeat rewrite <- app_assoc in H0. exact H0.
Qed.

End CascadeRun.

(** * The rest of the [Job] class *)

(** Unfolding of the methods of a job. *)
Ltac unfold_job :=
  unfold JobClass.start, JobClass.pause, JobClass.resume, JobClass.cancel, JobClass.complete,
    JobClass.this, JobClass.stopwatch_start, JobClass.stopwatch_stop, JobClass.update,
    JobClass.fsm, JobClass.onenterstate, JobClass.logger in *;
  unfold_M.

(** ** [start] *)

(** X1. [start] raises exactly when the job is not [ready], and then nothing has
    changed.  From [ready] it returns normally whatever the state machine
    does with the event: the start time is recorded and the stopwatch runs
    even when the transition was refused and only logged. *)
Theorem job_start_guard (defs : JobFsmDefinitions) (now : Z) (j : Job) (lg : Logger) :
  (job_fsm j <> "ready" ->
   JobClass.start defs now (j, lg)
   = ((j, lg), Throw (Error ("Cannot start job from state " +:+ job_fsm j))))
  /\ (job_fsm j = "ready" ->
      exists j' lg',
        JobClass.start defs now (j, lg) = ((j', lg'), Normal tt)
        /\ job_started j' = Some now
        /\ sw_running (job_stopwatch j') = true
        /\ (job_fsm j' = "ready" \/
            exists to, StateMachine.fire (fsmEvents defs) "start" "ready"
                       = StateMachine.Moved "ready" to /\ job_fsm j' = to)).
Proof.
  split.
  - intros Hs. apply String.eqb_neq in Hs. unfold_job. simpl. rewrite Hs. reflexivity.
  - intros Hs. destruct j as [uuid bot file state sw started elapsed pct].
    cbn in Hs. subst state. unfold_job. cbn -[StateMachine.fire].
    destruct (StateMachine.fire (fsmEvents defs) "start" "ready") as [| from to | | from to] eqn:Hf;
      cbn; eexists _, _; (split; [reflexivity|]); repeat split; auto.
    right. exists to. split; [|reflexivity].
    unfold StateMachine.fire in Hf.
    destruct (negb (StateMachine.defined _ _)); [discriminate|].
    destruct (negb (StateMachine.can _ _ _)); [discriminate|].
    destruct (String.eqb _ _); [discriminate|]. congruence.
Qed.

(** ** [pause] and [resume] *)

(** X2. Outside [running] and [paused] both methods raise and change nothing.
    From [running], [pause] returns normally with the stopwatch stopped; from
    [paused], [resume] returns normally with the stopwatch running: a
    transition the state machine refuses is logged, not raised. *)
Theorem job_pause_resume_guard (defs : JobFsmDefinitions) (j : Job) (lg : Logger) :
  (job_fsm j <> "running" -> job_fsm j <> "paused" ->
   JobClass.pause defs (j, lg)
   = ((j, lg), Throw (Error ("Cannot pause job from state " +:+ job_fsm j)))
   /\ JobClass.resume defs (j, lg)
      = ((j, lg), Throw (Error ("Cannot resume job from state " +:+ job_fsm j))))
  /\ (job_fsm j = "running" ->
      exists j' lg',
        JobClass.pause defs (j, lg) = ((j', lg'), Normal tt)
        /\ sw_running (job_stopwatch j') = false)
  /\ (job_fsm j = "paused" ->
      exists j' lg',
        JobClass.resume defs (j, lg) = ((j', lg'), Normal tt)
        /\ sw_running (job_stopwatch j') = true).
Proof.
  split; [|split].
  - intros Hr Hp. apply String.eqb_neq in Hr, Hp. unfold_job. simpl.
    rewrite Hr, Hp. split; reflexivity.
  - intros Hs. destruct j as [uuid bot file state sw started elapsed pct].
    cbn in Hs. subst state. unfold_job. cbn -[StateMachine.fire].
    destruct (StateMachine.fire _ _ _); cbn; eauto.
  - intros Hs. destruct j as [uuid bot file state sw started elapsed pct].
    cbn in Hs. subst state. unfold_job. cbn -[StateMachine.fire].
    destruct (StateMachine.fire _ _ _); cbn; eauto.
Qed.



(** ** [complete] *)


(** ** The life of a job

    A caller may invoke the methods of a job in any order; a call that raises
    leaves the caller with the job as the call left it. *)

Inductive JobCall : Type :=
| CallStart (now : Z)
| CallPause
| CallResume
| CallCancel
| CallComplete.

Definition call (defs : JobFsmDefinitions) (c : JobCall) : M JobClass.ctx unit :=
  match c with
  | CallStart now => JobClass.start defs now
  | CallPause => JobClass.pause defs
  | CallResume => JobClass.resume defs
  | CallCancel => JobClass.cancel defs
  | CallComplete => JobClass.complete defs
  end.

Fixpoint calls (defs : JobFsmDefinitions) (cs : list JobCall) (s : JobClass.ctx) : JobClass.ctx :=
  match cs with
  | [] => s
  | c :: cs' => calls defs cs' (fst (call defs c s))
  end.


(** The job is in one of its five working states, its stopwatch runs exactly
    when it is [running], and a job that is [running] or [paused] has a start
    time. *)
Definition job_inv (j : Job) : Prop :=
  In (job_fsm j) ["ready"; "running"; "paused"; "canceled"; "complete"]
  /\ sw_running (job_stopwatch j) = String.eqb (job_fsm j) "running"
  /\ (job_fsm j = "running" \/ job_fsm j = "paused" -> is_Some (job_started j)).









(** X6. A job that is [canceled] or [complete] stays so: every method raises and
    nothing changes, the log included, whatever the event table says. *)
Theorem job_terminal_states_absorb (defs : JobFsmDefinitions) (cs : list JobCall)
    (j : Job) (lg : Logger) :
  includes (processingJob defs) "canceled" = false ->
  includes (processingJob defs) "complete" = false ->
  job_fsm j = "canceled" \/ job_fsm j = "complete" ->
  calls defs cs (j, lg) = (j, lg)
  /\ Forall (fun c => exists ex, snd (call defs c (j, lg)) = Throw ex) cs.
Proof.
  intros Hcan Hcom Hs.
  assert (forall c, exists ex, call defs c (j, lg) = ((j, lg), Throw ex)) as Hcall.
  { intros c. destruct j as [uuid bot file state sw started elapsed pct]. cbn in Hs.
    destruct Hs as [-> | ->]; destruct c; cbn [call]; unfold_job;
      cbn -[includes]; rewrite ?Hcan, ?Hcom; cbn; eauto. }
  split.
  - induction cs as [|c cs IH]; [reflexivity|].
    cbn [calls]. destruct (Hcall c) as [ex ->]. exact IH.
  - apply Forall_forall. intros c _. destruct (Hcall c) as [ex ->]. eauto.
Qed.

Lemma job_terminal_states_absorb_witness :
  let j := sample_job "complete" in
  let cs := [CallStart 1; CallResume; CallCancel; CallPause; CallComplete] in
  calls jobFsmDefinitions cs (j, []) = (j, [])
  /\ Forall (fun c => exists ex, snd (call jobFsmDefinitions c (j, [])) = Throw ex) cs.
Proof.
  apply (job_terminal_states_absorb jobFsmDefinitions); [reflexivity|reflexivity|].
  right. reflexivity.
Defined.

(** ** Creating a job *)

(** Rows of another event do not count in the look-up of an event. *)
Lemma lookup_fold_undefined events name from acc :
  StateMachine.defined events name = false ->
  fold_left
    (fun acc e =>
       if String.eqb (ev_name e) name && String.eqb (StateMachine.row_from e) from
       then Some (StateMachine.row_to e) else acc)
    events acc = acc.
Proof.
  unfold StateMachine.defined. revert acc.
  induction events as [|e events IH]; intros acc H; [reflexivity|].
  cbn [existsb] in H. apply orb_false_iff in H as [He H].
  cbn [fold_left]. rewrite He. cbn [andb]. apply IH. exact H.
Qed.

(** The row [create] adds leaves the other events as they are. *)
Lemma fire_created defs initialState event current :
  event <> "startup" ->
  StateMachine.fire (fsmEvents (JobClass.created defs initialState)) event current
  = StateMachine.fire (fsmEvents defs) event current.
Proof.
  intros Hne. assert (String.eqb "startup" event = false) as He
      by (apply String.eqb_neq; congruence).
  unfold StateMachine.fire, StateMachine.can, StateMachine.target, StateMachine.defined,
    StateMachine.lookup.
  cbn [JobClass.created fsmEvents existsb fold_left JobClass.startup ev_name].
  rewrite He. reflexivity.
Qed.

(** Where the table has no event [startup] of its own, [create] enters the
    initial state. *)
Lemma fire_startup defs initialState :
  StateMachine.defined (fsmEvents defs) "startup" = false ->
  String.eqb initialState EmptyString = false ->
  String.eqb "none" initialState = false ->
  StateMachine.fire (fsmEvents (JobClass.created defs initialState)) "startup" "none"
  = StateMachine.Moved "none" initialState.
Proof.
  intros Hdef Hne Hnone.
  unfold StateMachine.fire, StateMachine.can, StateMachine.target, StateMachine.defined,
    StateMachine.lookup.
  cbn [JobClass.created fsmEvents existsb fold_left JobClass.startup ev_name].
  assert (StateMachine.row_from (JobClass.startup initialState) = "none") as Hfrom
      by reflexivity.
  assert (StateMachine.row_to (JobClass.startup initialState) = initialState) as Hto
      by (unfold StateMachine.row_to; cbn; rewrite Hne; reflexivity).
  rewrite Hfrom, Hto. rewrite !(lookup_fold_undefined _ _ _ _ Hdef).
  rewrite !String.eqb_refl. cbn [andb orb negb StateMachine.has].
  rewrite Hnone. reflexivity.
Qed.

Lemma initialState_of_cases initialState :
  let s := JobClass.initialState_of initialState in
  (initialState = None /\ s = "initializing")
  \/ (initialState = Some "complete" /\ s = "complete")
  \/ ((exists r, initialState = Some r /\ String.eqb r "complete" = false) /\ s = "canceled").
Proof.
  destruct initialState as [r|]; cbn; [|auto].
  destruct (String.eqb r "complete") eqn:E1; cbn.
  - apply String.eqb_eq in E1. subst r. auto.
  - right. right. split; [eauto|].
    destruct (String.eqb r "canceled") eqn:E2; [|reflexivity].
    apply String.eqb_eq in E2. exact E2.
Qed.

(** X7. A job is made with the identifier it is given, or else with a generated
    one.  [initialize] refuses a job without a device.  Otherwise, the table
    taking [initializing] to [ready] on [initializationDone], a new job ends
    up [ready], and a job restored from a stored state ends up [complete] if
    it was complete and [canceled] in every other case (a job stored as
    running, paused or ready is not taken up again).  Either way the
    stopwatch is stopped, there is no start time, and the snapshot of the job
    says so. *)
Theorem job_initialize (defs : JobFsmDefinitions) (uuidGenerator : string)
    (jobParams : JobClass.JobParams) (lg : Logger) :
  StateMachine.defined (fsmEvents defs) "startup" = false ->
  StateMachine.fire (fsmEvents defs) "initializationDone" "initializing"
    = StateMachine.Moved "initializing" "ready" ->
  let o := JobClass.constructor uuidGenerator jobParams in
  match JobClass.params_botUuid jobParams with
  | None =>
      JobClass.initialize defs None o lg
      = (lg, Throw (Error (dquote +:+ "botUuid" +:+ dquote +:+ " is not defined")))
  | Some botUuid =>
      exists j lg',
        JobClass.initialize defs None o lg = (lg', Normal j)
        /\ job_fsm j = match JobClass.params_initialState jobParams with
                       | None => "ready"
                       | Some s => if String.eqb s "complete" then "complete" else "canceled"
                       end
        /\ job_inv j
        /\ JobClass.getJob j
           = {| snap_botUuid := botUuid;
                snap_uuid := match JobClass.params_jobUuid jobParams with
                             | Some jobUuid => jobUuid
                             | None => uuidGenerator
                             end;
                snap_state := job_fsm j;
                snap_fileUuid := JobClass.params_fileUuid jobParams;
                snap_started := None; snap_elapsed := None; snap_percentComplete := 0 |}
  end.
Proof.
  intros Hdef Hdone o.
  change (JobClass.params_botUuid jobParams) with (JobClass.this_botUuid o).
  change (JobClass.params_initialState jobParams) with (JobClass.this_initialState o).
  change (JobClass.params_fileUuid jobParams) with (JobClass.this_fileUuid o).
  change (match JobClass.params_jobUuid jobParams with
          | Some jobUuid => jobUuid
          | None => uuidGenerator
          end) with (JobClass.this_uuid o).
  clearbody o.
  destruct (JobClass.this_botUuid o) as [botUuid|] eqn:Hbot.
  2:{ unfold JobClass.initialize. rewrite Hbot. reflexivity. }
  unfold JobClass.initialize. rewrite Hbot.
  pose proof (fire_created defs (JobClass.initialState_of (JobClass.this_initialState o))
                "initializationDone" "initializing") as Hother.
  rewrite Hdone in Hother.
  destruct (initialState_of_cases (JobClass.this_initialState o))
    as [[Hi Hs]|[[Hi Hs]|[(r & Hi & Hr) Hs]]]; cbn zeta in Hs; rewrite Hs in *; rewrite Hi.
  - pose proof (fire_startup defs "initializing" Hdef eq_refl eq_refl) as Hstartup.
    unfold_job. cbn -[StateMachine.fire JobClass.created].
    rewrite Hstartup. cbn -[StateMachine.fire JobClass.created].
    rewrite Hother by discriminate. cbn.
    eexists _, _. split; [reflexivity|]. split; [reflexivity|].
    split; [|reflexivity].
    unfold job_inv. cbn. split; [auto 10|]. split; [reflexivity|].
    intros [?|?]; discriminate.
  - pose proof (fire_startup defs "complete" Hdef eq_refl eq_refl) as Hstartup.
    unfold_job. cbn -[StateMachine.fire JobClass.created].
    rewrite Hstartup. cbn.
    eexists _, _. split; [reflexivity|]. split; [reflexivity|].
    split; [|reflexivity].
    unfold job_inv. cbn. split; [auto 10|]. split; [reflexivity|].
    intros [?|?]; discriminate.
  - pose proof (fire_startup defs "canceled" Hdef eq_refl eq_refl) as Hstartup.
    unfold_job. cbn -[StateMachine.fire JobClass.created].
    rewrite Hstartup. cbn. rewrite Hr.
    eexists _, _. split; [reflexivity|]. split; [reflexivity|].
    split; [|reflexivity].
    unfold job_inv. cbn. split; [auto 10|]. split; [reflexivity|].
    intros [?|?]; discriminate.
Qed.

(** A job that was running when the server stopped. *)
Definition restored_params : JobClass.JobParams :=
  {| JobClass.params_botUuid := Some "bot-1";
     JobClass.params_fileUuid := Some "file-1";
     JobClass.params_jobUuid := Some "job-1";
     JobClass.params_initialState := Some "running";
     JobClass.params_id := Some 7;
     JobClass.params_subscribers := None |}.

Lemma job_initialize_witness :
  let o := JobClass.constructor "generated" restored_params in
  exists j lg',
    JobClass.initialize jobFsmDefinitions None o [] = (lg', Normal j)
    /\ job_fsm j = "canceled"
    /\ job_inv j
    /\ JobClass.getJob j
       = {| snap_botUuid := "bot-1"; snap_uuid := "job-1";
            snap_state := job_fsm j; snap_fileUuid := Some "file-1";
            snap_started := None; snap_elapsed := None; snap_percentComplete := 0 |}.
Proof.
  apply (job_initialize jobFsmDefinitions "generated" restored_params []); reflexivity.
Defined.

(** * The rest of the job registry *)




(** * The file store *)

(** ** [split] *)

(** [split] on known values. *)
Example split_examples :
  js_split "." "bracket.v2.gcode" = ["bracket"; "v2"; "gcode"]
  /\ js_split "." "README" = ["README"]
  /\ js_split "_" "my_part_" = ["my"; "part"; ""]
  /\ js_split "\" "C:\parts\bracket.gcode" = ["C:"; "parts"; "bracket.gcode"]
  /\ js_split "_ab" "x_ab_aby_a" = ["x"; ""; "y_a"]
  /\ js_split "aa" "aaa" = [""; "a"]
  /\ js_split "." "" = [""]
  /\ js_split "" "abc" = ["a"; "b"; "c"].
Proof. repeat split. Qed.

Lemma chars_append (a b : string) : chars (a +:+ b) = chars a ++ chars b.
Proof.
  unfold chars. induction a as [|c a IH]; [reflexivity|].
  change (String c a +:+ b) with (String c (a +:+ b)). cbn. f_equal. exact IH.
Qed.

Lemma unchars_chars (s : string) : unchars (chars s) = s.
Proof. apply string_of_list_ascii_of_string. Qed.

Lemma chars_unchars (l : list ascii) : chars (unchars l) = l.
Proof. apply list_ascii_of_string_of_list_ascii. Qed.

Lemma unchars_app (a b : list ascii) : unchars (a ++ b) = unchars a +:+ unchars b.
Proof.
  unfold unchars. induction a as [|c a IH]; [reflexivity|].
  cbn [app string_of_list_ascii].
  change (String c (string_of_list_ascii a) +:+ string_of_list_ascii b)
    with (String c (string_of_list_ascii a +:+ string_of_list_ascii b)).
  f_equal. exact IH.
Qed.

Lemma length_chars (s : string) : length (chars s) = String.length s.
Proof.
  unfold chars. induction s as [|c s IH]; [reflexivity|]. cbn. f_equal. exact IH.
Qed.

(** Whether a character, or a string, occurs in a string. *)
Definition contains (c : ascii) (s : string) : bool := existsb (Ascii.eqb c) (chars s).

Fixpoint occurs_in (sep s : list ascii) : bool :=
  JsString.starts_with sep s
  || match s with
     | [] => false
     | _ :: s' => occurs_in sep s'
     end.

Definition occurs (sep s : string) : bool := occurs_in (chars sep) (chars s).

Lemma contains_In c s : contains c s = false <-> ~ In c (chars s).
Proof.
  unfold contains. split.
  - intros H Hin. assert (existsb (Ascii.eqb c) (chars s) = true) as Ht.
    { apply existsb_exists. exists c. split; [exact Hin|apply Ascii.eqb_refl]. }
    congruence.
  - intros H. destruct (existsb (Ascii.eqb c) (chars s)) eqn:E; [|reflexivity].
    apply existsb_exists in E as (x & Hin & Hx). apply Ascii.eqb_eq in Hx. subst x.
    contradiction.
Qed.

Lemma starts_with_spec p s : JsString.starts_with p s = true <-> exists r, s = p ++ r.
Proof.
  revert s. induction p as [|a p IH]; intros s; cbn.
  - split; eauto.
  - destruct s as [|b s]; [split; [discriminate|intros [r Hr]; discriminate]|].
    rewrite andb_true_iff, Ascii.eqb_eq, IH. split.
    + intros [-> [r ->]]. eauto.
    + intros [r [= -> ->]]. eauto.
Qed.

Lemma occurs_in_spec sep s :
  occurs_in sep s = false -> forall pre post, s <> pre ++ sep ++ post.
Proof.
  induction s as [|c s IH]; cbn; intros H pre post Heq.
  - apply orb_false_iff in H as [H _].
    destruct pre; [|discriminate]. cbn in Heq.
    assert (JsString.starts_with sep [] = true) by (apply starts_with_spec; eauto).
    congruence.
  - apply orb_false_iff in H as [H1 H2]. destruct pre as [|c' pre].
    + cbn in Heq. assert (JsString.starts_with sep (c :: s) = true)
        by (apply starts_with_spec; eauto). congruence.
    + injection Heq as _ Heq. exact (IH H2 pre post Heq).
Qed.

Lemma split_from_nonempty sep k s : JsString.split_from sep k s <> [].
Proof.
  revert k. induction s as [|c s IH]; intros k; cbn; [discriminate|].
  destruct k; [|apply IH].
  destruct (JsString.starts_with sep (c :: s)); [discriminate|].
  destruct (JsString.split_from sep 0 s); discriminate.
Qed.

(** Passing over the rest of a separator that was found. *)
Lemma split_from_skip sep u t :
  JsString.split_from sep (length u) (u ++ t) = JsString.split_from sep 0 t.
Proof. induction u as [|c u IH]; [reflexivity|]. cbn. exact IH. Qed.

(** The first piece: the text before the first occurrence of the
    separator. *)
Lemma split_from_first d u a t :
  ~ In d u ->
  (forall pre post, a <> pre ++ (d :: u) ++ post) ->
  JsString.split_from (d :: u) 0 (a ++ d :: u ++ t)
  = a :: JsString.split_from (d :: u) 0 t.
Proof.
  intros Hd. induction a as [|c a IH]; intros Hno.
  - cbn [app JsString.split_from].
    assert (JsString.starts_with (d :: u) (d :: u ++ t) = true) as ->
        by (apply starts_with_spec; eauto).
    cbn [length Nat.sub]. rewrite Nat.sub_0_r. rewrite split_from_skip. reflexivity.
  - cbn [app JsString.split_from].
    assert (JsString.starts_with (d :: u) (c :: a ++ d :: u ++ t) = false) as ->.
    { destruct (JsString.starts_with _ _) eqn:E; [|reflexivity]. exfalso.
      apply starts_with_spec in E as [r Hr].
      change (c :: a ++ d :: u ++ t) with ((c :: a) ++ (d :: u) ++ t) in Hr.
      symmetry in Hr. apply app_eq_app in Hr as [l [[H1 H2]|[H1 H2]]].
      - destruct l as [|e l].
        + rewrite app_nil_r in H1. apply (Hno [] []). rewrite app_nil_r. cbn.
          congruence.
        + cbn in H2. injection H2 as <- _. injection H1 as _ H1.
          apply Hd. rewrite H1. apply in_or_app. right. left. reflexivity.
      - apply (Hno [] l). cbn. exact H1. }
    rewrite IH.
    + reflexivity.
    + intros pre post Heq. apply (Hno (c :: pre) post). rewrite Heq. reflexivity.
Qed.

(** Where the separator does not occur there is one piece. *)
Lemma split_from_none d u a :
  (forall pre post, a <> pre ++ (d :: u) ++ post) ->
  JsString.split_from (d :: u) 0 a = [a].
Proof.
  induction a as [|c a IH]; intros Hno; [reflexivity|].
  cbn [JsString.split_from].
  assert (JsString.starts_with (d :: u) (c :: a) = false) as ->.
  { destruct (JsString.starts_with _ _) eqn:E; [|reflexivity]. exfalso.
    apply starts_with_spec in E as [r Hr]. apply (Hno [] r). exact Hr. }
  rewrite IH; [reflexivity|].
  intros pre post Heq. apply (Hno (c :: pre) post). rewrite Heq. reflexivity.
Qed.

Lemma no_char_no_occurrence (d : ascii) (a : list ascii) :
  ~ In d a -> forall pre post, a <> pre ++ [d] ++ post.
Proof.
  intros H pre post ->. apply H. apply in_or_app. right. left. reflexivity.
Qed.

(** ** [split] at a character *)

Lemma split_char_cons d c s :
  JsString.split_from [d] 0 (c :: s)
  = if Ascii.eqb d c then [] :: JsString.split_from [d] 0 s
    else match JsString.split_from [d] 0 s with
         | piece :: pieces => (c :: piece) :: pieces
         | [] => [[c]]
         end.
Proof.
  cbn [JsString.split_from JsString.starts_with length Nat.sub].
  rewrite andb_true_r. reflexivity.
Qed.

Lemma split_char_app d a t :
  JsString.split_from [d] 0 (a ++ d :: t)
  = JsString.split_from [d] 0 a ++ JsString.split_from [d] 0 t.
Proof.
  induction a as [|c a IH].
  - cbn [app]. rewrite split_char_cons, Ascii.eqb_refl. reflexivity.
  - cbn [app]. rewrite !split_char_cons. destruct (Ascii.eqb d c).
    + rewrite IH. reflexivity.
    + rewrite IH. pose proof (split_from_nonempty [d] 0 a) as Hne.
      destruct (JsString.split_from [d] 0 a); [contradiction|reflexivity].
Qed.

Lemma split_char_none d a : ~ In d a -> JsString.split_from [d] 0 a = [a].
Proof.
  intros H. apply (split_from_none d []). apply no_char_no_occurrence. exact H.
Qed.

Lemma last_app_nonempty {A} (l1 l2 : list A) : l2 <> [] -> last (l1 ++ l2) = last l2.
Proof.
  intros H. destruct l2 as [|x l2 _] using rev_ind; [contradiction|].
  rewrite app_assoc, !last_snoc. reflexivity.
Qed.

(** The text after the last occurrence of the character. *)
Lemma split_char_last d a t :
  ~ In d t -> last (JsString.split_from [d] 0 (a ++ d :: t)) = Some t.
Proof.
  intros H. rewrite split_char_app, last_app_nonempty by apply split_from_nonempty.
  rewrite (split_char_none d t H). reflexivity.
Qed.

Lemma last_occurrence (d : ascii) s :
  In d s -> exists a t, s = a ++ d :: t /\ ~ In d t.
Proof.
  induction s as [|c s IH]; [intros []|]. intros Hin.
  destruct (in_dec Ascii.ascii_dec d s) as [Hs|Hs].
  - destruct (IH Hs) as (a & t & -> & Ht). exists (c :: a), t. auto.
  - destruct Hin as [->|Hin]; [|contradiction]. exists [], s. auto.
Qed.

(** The last piece is an end of the text, free of the character. *)
Lemma split_char_last_suffix d s :
  exists pre t,
    last (JsString.split_from [d] 0 s) = Some t /\ s = pre ++ t /\ ~ In d t.
Proof.
  destruct (in_dec Ascii.ascii_dec d s) as [Hs|Hs].
  - destruct (last_occurrence d s Hs) as (a & t & -> & Ht).
    exists (a ++ [d]), t. rewrite (split_char_last d a t Ht).
    rewrite <- app_assoc. auto.
  - exists [], s. rewrite (split_char_none d s Hs). auto.
Qed.

Lemma split_char_first_prefix d s :
  exists h rest post,
    JsString.split_from [d] 0 s = h :: rest /\ s = h ++ post /\ ~ In d h.
Proof.
  induction s as [|c s (h & rest & post & Hsp & Hs & Hh)].
  - exists [], [], []. cbn. auto.
  - rewrite split_char_cons. destruct (Ascii.eqb d c) eqn:E.
    + exists [], (JsString.split_from [d] 0 s), (c :: s). cbn. auto.
    + rewrite Hsp. exists (c :: h), rest, post. split; [reflexivity|].
      split; [cbn; congruence|].
      apply Ascii.eqb_neq in E. intros [Hc|Hin]; [congruence|contradiction].
Qed.

(** ** [split] on strings *)

Lemma contains_append c a b : contains c (a +:+ b) = contains c a || contains c b.
Proof. unfold contains. rewrite chars_append. apply existsb_app. Qed.

Lemma js_split_char (d : ascii) (s : string) :
  js_split (String d EmptyString) s = map unchars (JsString.split_from [d] 0 (chars s)).
Proof. reflexivity. Qed.

Lemma chars_char_append (d : ascii) (b : string) :
  chars (String d EmptyString +:+ b) = d :: chars b.
Proof. reflexivity. Qed.

(** Two pieces where the character occurs once. *)
Lemma js_split_char_two (d : ascii) (a b : string) :
  contains d a = false -> contains d b = false ->
  js_split (String d EmptyString) (a +:+ String d EmptyString +:+ b) = [a; b].
Proof.
  intros Ha Hb. apply contains_In in Ha, Hb.
  rewrite js_split_char, chars_append, chars_char_append, split_char_app.
  rewrite (split_char_none d _ Ha), (split_char_none d _ Hb).
  cbn. rewrite !unchars_chars. reflexivity.
Qed.


Lemma last_map {A B} (f : A -> B) (l : list A) : last (map f l) = f <$> last l.
Proof.
  induction l as [|x l IH]; [reflexivity|].
  destruct l as [|y l]; [reflexivity|]. exact IH.
Qed.

Lemma js_split_char_last (d : ascii) (a b : string) :
  contains d b = false ->
  last (js_split (String d EmptyString) (a +:+ String d EmptyString +:+ b)) = Some b.
Proof.
  intros Hb. apply contains_In in Hb.
  rewrite js_split_char, chars_append, chars_char_append, last_map.
  rewrite (split_char_last d _ _ Hb). cbn. rewrite unchars_chars. reflexivity.
Qed.

(** The first piece where the separator, a character followed by a text
    free of it, occurs for the first time. *)
Lemma js_split_first (d : ascii) (u a t : string) :
  contains d u = false -> occurs (String d u) a = false ->
  js_split (String d u) (a +:+ String d u +:+ t) !! 0%nat = Some a.
Proof.
  intros Hu Ha. apply contains_In in Hu. unfold occurs in Ha. cbn [chars list_ascii_of_string] in Ha.
  pose proof (occurs_in_spec _ _ Ha) as Hno.
  unfold js_split. rewrite chars_append.
  change (chars (String d u +:+ t)) with (d :: chars (u +:+ t)).
  rewrite chars_append.
  change (chars (String d u)) with (d :: chars u).
  cbn [JsString.split].
  rewrite (split_from_first d (chars u) (chars a) (chars t) Hu Hno).
  cbn. rewrite unchars_chars. reflexivity.
Qed.

(** ** Storing a file *)

Ltac unfold_files :=
  unfold FilesClass.createFile, FilesClass.getFile, FilesClass.deleteFile,
    FilesClass.getFiles, FilesClass.createUploadDirectory,
    FilesClass.scanUploadDirectory_callback, FilesClass.broadcast, FilesClass.log,
    Fs.stat, Fs.rename, Fs.unlink, Fs.mkdir, Fs.exists_;
  unfold_M.


Lemma append_assoc (a b c : string) : (a +:+ b) +:+ c = a +:+ b +:+ c.
Proof.
  induction a as [|x a IH]; [reflexivity|].
  change (String x (((a +:+ b) +:+ c)) = String x (a +:+ b +:+ c)). f_equal. exact IH.
Qed.

(** X11. What the scan of the upload directory makes of the file name [createFile]
    chose: it finds the identifier, the name and the path again.  The name
    has one dot, the extension no underscore, and the identifier is 36
    characters without dot or underscore that do not occur in the name after
    an underscore. *)
Theorem scan_reads_back_upload (fs : Files) (basedir uuid base ext : string) (stats : Stats) :
  contains "." base = false ->
  contains "." ext = false ->
  contains "_" ext = false ->
  contains "." uuid = false ->
  contains "_" uuid = false ->
  String.length uuid = 36%nat ->
  occurs ("_" +:+ uuid) base = false ->
  let filename := base +:+ "_" +:+ uuid +:+ "." +:+ ext in
  nodes (disk fs) !! (basedir +:+ "/" +:+ filename) = Some stats ->
  FilesClass.scanUploadDirectory_callback basedir filename fs
  = (set_fileList
       (<[uuid := {| file_uuid := uuid; file_name := base +:+ "." +:+ ext;
                     file_dateChanged := ctime stats;
                     file_filePath := basedir +:+ "/" +:+ filename |}]> (fileList fs)) fs,
     Normal tt).
Proof.
  intros Hb He He' Hu Hu' Hlen Hocc filename Hnode. subst filename.
  assert (last (js_split "_" (base +:+ "_" +:+ uuid +:+ "." +:+ ext))
          = Some (uuid +:+ "." +:+ ext)) as H1.
  { apply (js_split_char_last "_" base (uuid +:+ "." +:+ ext)).
    rewrite !contains_append, Hu', He'. reflexivity. }
  pose proof (js_split_char_two "." uuid ext Hu He) as H2.
  assert (js_split "." (base +:+ "_" +:+ uuid +:+ "." +:+ ext)
          = [base +:+ "_" +:+ uuid; ext]) as H3.
  { rewrite <- (js_split_char_two "." (base +:+ "_" +:+ uuid) ext).
    - rewrite !append_assoc. reflexivity.
    - rewrite !contains_append, Hb, Hu. reflexivity.
    - exact He. }
  assert (js_split ("_" +:+ uuid) (base +:+ "_" +:+ uuid +:+ "." +:+ ext) !! 0%nat
          = Some base) as H4.
  { exact (js_split_first "_" uuid base ("." +:+ ext) Hu' Hocc). }
  unfold_files. rewrite H1, H2. cbn [lookup list_lookup].
  rewrite Hlen. cbn [Nat.eqb negb]. rewrite H3, H4. cbn [lookup list_lookup text].
  rewrite Hnode. reflexivity.
Qed.

Definition sample_uuid : string := "123e4567-e89b-12d3-a456-426614174000".

Definition sample_files : Files :=
  {| uploadDir := "/srv/uploads";
     fileList := ∅;
     files_logger := [];
     files_io := {| broadcasts := []; io_broken := None |};
     disk := {| nodes := {[ "/srv/uploads" := {| isDirectory := true; ctime := 1 |};
                            "/tmp/upload_7f3a" := {| isDirectory := false; ctime := 5 |} ]};
                clock := 9 |} |}.


(** The store after the upload of the example, with its list emptied as
    after a restart. *)
Definition restarted_files : Files :=
  set_fileList ∅
    (fst (FilesClass.createFile sample_uuid
            (Some {| upload_name := "bracket_v2.gcode"; upload_path := "/tmp/upload_7f3a" |})
            None None sample_files)).

Lemma scan_reads_back_upload_witness :
  let filename := "bracket_v2" +:+ "_" +:+ sample_uuid +:+ "." +:+ "gcode" in
  FilesClass.scanUploadDirectory_callback "/srv/uploads" filename restarted_files
  = (set_fileList
       (<[sample_uuid := {| file_uuid := sample_uuid; file_name := "bracket_v2" +:+ "." +:+ "gcode";
                            file_dateChanged := ctime {| isDirectory := false; ctime := 9 |};
                            file_filePath := "/srv/uploads" +:+ "/" +:+ filename |}]>
          (fileList restarted_files)) restarted_files,
     Normal tt).
Proof.
  apply (scan_reads_back_upload restarted_files "/srv/uploads" sample_uuid "bracket_v2" "gcode"
           {| isDirectory := false; ctime := 9 |}); vm_compute; reflexivity.
Defined.




(** ** What the scan lists *)

Lemma contains_unchars c l : contains c (unchars l) = false <-> ~ In c l.
Proof. rewrite contains_In, chars_unchars. reflexivity. Qed.

Lemma js_split_char_last_suffix (d : ascii) (s : string) :
  exists pre t,
    last (js_split (String d EmptyString) s) = Some t
    /\ s = pre +:+ t /\ contains d t = false.
Proof.
  destruct (split_char_last_suffix d (chars s)) as (pre & t & Hl & Hs & Ht).
  exists (unchars pre), (unchars t).
  rewrite js_split_char, last_map, Hl. split; [reflexivity|]. split.
  - rewrite <- unchars_app, <- Hs, unchars_chars. reflexivity.
  - apply contains_unchars. exact Ht.
Qed.

Lemma js_split_char_first_prefix (d : ascii) (s : string) :
  exists h post,
    js_split (String d EmptyString) s !! 0%nat = Some h
    /\ s = h +:+ post /\ contains d h = false.
Proof.
  destruct (split_char_first_prefix d (chars s)) as (h & rest & post & Hsp & Hs & Hh).
  exists (unchars h), (unchars post).
  rewrite js_split_char, Hsp. split; [reflexivity|]. split.
  - rewrite <- unchars_app, <- Hs, unchars_chars. reflexivity.
  - apply contains_unchars. exact Hh.
Qed.

(** X13. The scan lists a directory entry only under an identifier of 36
    characters, free of underscores and dots, that it reads off the entry's
    name, with the entry's path and the change time the file system
    reports.  Every other entry leaves the store as it is. *)
Theorem scan_lists_identified_files_only (basedir filename : string) (fs : Files) :
  let fs' := fst (FilesClass.scanUploadDirectory_callback basedir filename fs) in
  fs' = fs
  \/ exists fileObject stats,
       fs' = set_fileList (<[file_uuid fileObject := fileObject]> (fileList fs)) fs
       /\ String.length (file_uuid fileObject) = 36%nat
       /\ contains "_" (file_uuid fileObject) = false
       /\ contains "." (file_uuid fileObject) = false
       /\ file_filePath fileObject = basedir +:+ "/" +:+ filename
       /\ nodes (disk fs) !! file_filePath fileObject = Some stats
       /\ file_dateChanged fileObject = ctime stats.
Proof.
  destruct (js_split_char_last_suffix "_" filename) as (pre & t & Hl & _ & Ht).
  destruct (js_split_char_first_prefix "." t) as (uuid & post & Hh & Hpost & Hu).
  assert (contains "_" uuid = false) as Hu'.
  { rewrite Hpost, contains_append in Ht. apply orb_false_iff in Ht as [Ht _]. exact Ht. }
  unfold_files. rewrite Hl, Hh.
  destruct (Nat.eqb (String.length uuid) 36) eqn:Hlen; cbn [negb]; [|left; reflexivity].
  apply Nat.eqb_eq in Hlen.
  destruct (js_split "." filename !! 1%nat) as [fileExtension|]; [|left; reflexivity].
  cbn [text].
  destruct (nodes (disk fs) !! (basedir +:+ "/" +:+ filename)) as [stats|] eqn:Hnode;
    [|left; reflexivity].
  right. cbn [fst]. eexists {| file_uuid := uuid |}, stats. cbn [file_uuid file_filePath file_dateChanged].
  split; [reflexivity|]. repeat split; assumption.
Qed.

(** ** Registering a file by its path *)

(** The entry written for a path, and where its name comes from. *)
Lemma createFile_by_path_entry (fs : Files) (uuidGenerator : string) (file : option Upload)
    (userPath userUuid : string) (stats : Stats) :
  nodes (disk fs) !! userPath = Some stats ->
  exists name dir,
    let fileObject :=
      {| file_uuid := userUuid; file_name := name;
         file_dateChanged := ctime stats; file_filePath := userPath |} in
    FilesClass.createFile uuidGenerator file (Some userPath) (Some userUuid) fs
    = (set_fileList (<[userUuid := fileObject]> (fileList fs)) fs, Normal fileObject)
    /\ userPath = dir +:+ name
    /\ contains "/" name = false
    /\ contains "\" name = false.
Proof.
  intros Hnode.
  destruct (js_split_char_last_suffix "\" userPath) as (pre & t & Hl & Hs & Ht).
  destruct (js_split_char_last_suffix "/" t) as (pre' & name & Hl' & Hs' & Hn).
  exists name, (pre +:+ pre'). cbn zeta.
  unfold_files. rewrite Hnode, Hl, Hl'. cbn [text].
  split; [reflexivity|].
  split; [rewrite append_assoc; congruence|].
  split; [exact Hn|].
  rewrite Hs', contains_append in Ht. apply orb_false_iff in Ht as [_ Ht]. exact Ht.
Qed.

(** X14. A file that exists is listed under the identifier given, with the last
    component of its path for a name (what follows the last slash or
    backslash), its change time, and the path itself: the file is not moved,
    nothing is broadcast, and [getFile] returns the entry. *)
Theorem createFile_by_path (fs : Files) (uuidGenerator : string) (file : option Upload)
    (userPath userUuid : string) (stats : Stats) :
  nodes (disk fs) !! userPath = Some stats ->
  exists name dir,
    let fileObject :=
      {| file_uuid := userUuid; file_name := name;
         file_dateChanged := ctime stats; file_filePath := userPath |} in
    let fs' := set_fileList (<[userUuid := fileObject]> (fileList fs)) fs in
    FilesClass.createFile uuidGenerator file (Some userPath) (Some userUuid) fs
    = (fs', Normal fileObject)
    /\ userPath = dir +:+ name
    /\ contains "/" name = false
    /\ contains "\" name = false
    /\ FilesClass.getFile (Some userUuid) fs' = (fs', Normal fileObject).
Proof.
  intros Hnode.
  destruct (createFile_by_path_entry fs uuidGenerator file userPath userUuid stats Hnode)
    as (name & dir & Hc & Hpath & Hslash & Hback).
  exists name, dir. cbn zeta in *.
  split; [exact Hc|]. split; [exact Hpath|]. split; [exact Hslash|]. split; [exact Hback|].
  unfold_files. cbn [fileList set_fileList]. rewrite lookup_insert_eq. reflexivity.
Qed.

Lemma createFile_by_path_witness :
  exists name dir,
    let fileObject :=
      {| file_uuid := "part-1"; file_name := name;
         file_dateChanged := ctime {| isDirectory := false; ctime := 5 |};
         file_filePath := "/tmp/upload_7f3a" |} in
    let fs' := set_fileList (<["part-1" := fileObject]> (fileList sample_files)) sample_files in
    FilesClass.createFile sample_uuid None (Some "/tmp/upload_7f3a") (Some "part-1") sample_files
    = (fs', Normal fileObject)
    /\ "/tmp/upload_7f3a" = dir +:+ name
    /\ contains "/" name = false
    /\ contains "\" name = false
    /\ FilesClass.getFile (Some "part-1") fs' = (fs', Normal fileObject).
Proof.
  apply (createFile_by_path sample_files sample_uuid None "/tmp/upload_7f3a" "part-1"
           {| isDirectory := false; ctime := 5 |}).
  reflexivity.
Defined.

Lemma js_split_nonempty sep s : js_split sep s = [] -> chars sep = [].
Proof.
  unfold js_split, JsString.split. destruct (chars sep) as [|d u]; [reflexivity|].
  intros H. apply map_eq_nil in H. exfalso. exact (split_from_nonempty _ _ _ H).
Qed.

(** X15. Registering by path is all or nothing.  It fails when no identifier is
    given (before the disk is looked at) and when nothing is at the path, and
    the store is then exactly what it was; when it returns, the one entry has
    been written under the identifier given and nothing else has changed. *)
Theorem createFile_by_path_all_or_nothing (fs : Files) (uuidGenerator : string)
    (file : option Upload) (userPath : string) (userUuid : option string) :
  match FilesClass.createFile uuidGenerator file (Some userPath) userUuid fs with
  | (fs', Throw ex) =>
      fs' = fs
      /\ (userUuid = None /\ ex = ThrownString "userUuid must be defined"
          \/ nodes (disk fs) !! userPath = None
             /\ ex = Fs.failure Fs.ENOENT "stat" userPath)
  | (fs', Normal fileObject) =>
      userUuid = Some (file_uuid fileObject)
      /\ file_filePath fileObject = userPath
      /\ is_Some (nodes (disk fs) !! userPath)
      /\ fs' = set_fileList (<[file_uuid fileObject := fileObject]> (fileList fs)) fs
  end.
Proof.
  unfold_files. destruct userUuid as [userUuid|]; [|auto].
  destruct (nodes (disk fs) !! userPath) as [stats|] eqn:Hnode; [|auto].
  destruct (last (js_split "\" userPath)) as [t|] eqn:Hl.
  - repeat split; try reflexivity. exists stats. reflexivity.
  - exfalso. apply last_None in Hl. apply js_split_nonempty in Hl. discriminate Hl.
Qed.

(** ** Deleting a file *)


(** The store after a file that is listed and on the disk was deleted. *)
Definition deleted (fileUuid : string) (file : FileObject) (fs : Files) : Files :=
  {| uploadDir := uploadDir fs;
     fileList := delete fileUuid (fileList fs);
     files_logger :=
       files_logger fs
         ++ [ {| level := LInfo; args := ["Just deleted file"; file_filePath file] |} ];
     files_io :=
       {| broadcasts :=
            broadcasts (files_io fs)
              ++ [ {| fm_topic := "fileEvent"; fm_uuid := fileUuid; fm_event := "delete";
                      fm_data := None |} ];
          io_broken := None |};
     disk := {| nodes := delete (file_filePath file) (nodes (disk fs));
                clock := clock (disk fs) |} |}.

Lemma deleteFile_on_disk (fs : Files) (fileUuid : string) (file : FileObject) (stats : Stats) :
  fileList fs !! fileUuid = Some file ->
  nodes (disk fs) !! file_filePath file = Some stats ->
  isDirectory stats = false ->
  io_broken (files_io fs) = None ->
  FilesClass.deleteFile fileUuid fs
  = (deleted fileUuid file fs, Normal ("File " +:+ fileUuid +:+ " deleted")).
Proof.
  intros H Hnode Hdir Hio. unfold_files. rewrite H. cbn -[String.append].
  rewrite Hnode. cbn -[String.append]. rewrite Hnode, Hdir. cbn -[String.append].
  rewrite Hio. reflexivity.
Qed.

(** X17. A listed file that is on the disk is unlinked, taken off the list and
    announced; no other entry and no other path is touched.  Afterwards
    [getFile] says that the file does not exist, and deleting it again raises
    the [TypeError]. *)
Theorem deleteFile_deletes (fs : Files) (fileUuid : string) (file : FileObject) (stats : Stats) :
  fileList fs !! fileUuid = Some file ->
  nodes (disk fs) !! file_filePath file = Some stats ->
  isDirectory stats = false ->
  io_broken (files_io fs) = None ->
  exists fs',
    FilesClass.deleteFile fileUuid fs = (fs', Normal ("File " +:+ fileUuid +:+ " deleted"))
    /\ fileList fs' = delete fileUuid (fileList fs)
    /\ nodes (disk fs') = delete (file_filePath file) (nodes (disk fs))
    /\ broadcasts (files_io fs')
       = broadcasts (files_io fs)
           ++ [ {| fm_topic := "fileEvent"; fm_uuid := fileUuid; fm_event := "delete";
                   fm_data := None |} ]
    /\ files_logger fs'
       = files_logger fs
           ++ [ {| level := LInfo; args := ["Just deleted file"; file_filePath file] |} ]
    /\ FilesClass.getFile (Some fileUuid) fs'
       = (fs', Throw (ThrownString ("File " +:+ fileUuid +:+ " does not exist")))
    /\ FilesClass.deleteFile fileUuid fs'
       = (fs', Throw (TypeError "Cannot read property 'filePath' of undefined")).
Proof.
  intros H Hnode Hdir Hio. exists (deleted fileUuid file fs).
  split; [exact (deleteFile_on_disk fs fileUuid file stats H Hnode Hdir Hio)|].
  repeat split; unfold_files; cbn [fileList deleted]; rewrite lookup_delete_eq; reflexivity.
Qed.

Definition listed_file : FileObject :=
  {| file_uuid := "part-1"; file_name := "upload_7f3a";
     file_dateChanged := 5; file_filePath := "/tmp/upload_7f3a" |}.

Definition listing_files : Files :=
  set_fileList {[ "part-1" := listed_file ]} sample_files.

Lemma deleteFile_deletes_witness :
  exists fs',
    FilesClass.deleteFile "part-1" listing_files
    = (fs', Normal ("File " +:+ "part-1" +:+ " deleted"))
    /\ fileList fs' = delete "part-1" (fileList listing_files)
    /\ nodes (disk fs') = delete (file_filePath listed_file) (nodes (disk listing_files))
    /\ broadcasts (files_io fs')
       = broadcasts (files_io listing_files)
           ++ [ {| fm_topic := "fileEvent"; fm_uuid := "part-1"; fm_event := "delete";
                   fm_data := None |} ]
    /\ files_logger fs'
       = files_logger listing_files
           ++ [ {| level := LInfo; args := ["Just deleted file"; file_filePath listed_file] |} ]
    /\ FilesClass.getFile (Some "part-1") fs'
       = (fs', Throw (ThrownString ("File " +:+ "part-1" +:+ " does not exist")))
    /\ FilesClass.deleteFile "part-1" fs'
       = (fs', Throw (TypeError "Cannot read property 'filePath' of undefined")).
Proof.
  apply (deleteFile_deletes listing_files "part-1" listed_file
           {| isDirectory := false; ctime := 5 |}); reflexivity.
Defined.

(** X18. A file registered by its path is not copied: deleting the entry unlinks
    the file at that very path. *)
Theorem deleteFile_after_createFile_by_path (fs : Files) (uuidGenerator : string)
    (file : option Upload) (userPath userUuid : string) (stats : Stats) :
  nodes (disk fs) !! userPath = Some stats ->
  isDirectory stats = false ->
  io_broken (files_io fs) = None ->
  let fs1 := fst (FilesClass.createFile uuidGenerator file (Some userPath) (Some userUuid) fs) in
  let fs2 := fst (FilesClass.deleteFile userUuid fs1) in
  snd (FilesClass.deleteFile userUuid fs1) = Normal ("File " +:+ userUuid +:+ " deleted")
  /\ nodes (disk fs2) !! userPath = None
  /\ fileList fs2 = delete userUuid (fileList fs).
Proof.
  intros Hnode Hdir Hio fs1 fs2.
  destruct (createFile_by_path_entry fs uuidGenerator file userPath userUuid stats Hnode)
    as (name & dir & Hc & _).
  cbn zeta in Hc. subst fs2 fs1. rewrite Hc. cbn [fst].
  set (fileObject := {| file_uuid := userUuid; file_name := name;
                        file_dateChanged := ctime stats; file_filePath := userPath |}).
  rewrite (deleteFile_on_disk
             (set_fileList (<[userUuid := fileObject]> (fileList fs)) fs)
             userUuid fileObject stats); auto.
  2:{ cbn. apply lookup_insert_eq. }
  cbn [fst snd]. split; [reflexivity|].
  split.
  - cbn. apply lookup_delete_eq.
  - cbn. apply delete_insert_eq.
Qed.

Lemma deleteFile_after_createFile_by_path_witness :
  let fs1 := fst (FilesClass.createFile sample_uuid None (Some "/tmp/upload_7f3a")
                    (Some "part-1") sample_files) in
  let fs2 := fst (FilesClass.deleteFile "part-1" fs1) in
  snd (FilesClass.deleteFile "part-1" fs1) = Normal ("File " +:+ "part-1" +:+ " deleted")
  /\ nodes (disk fs2) !! "/tmp/upload_7f3a" = None
  /\ fileList fs2 = delete "part-1" (fileList sample_files).
Proof.
  apply (deleteFile_after_createFile_by_path sample_files sample_uuid None
           "/tmp/upload_7f3a" "part-1" {| isDirectory := false; ctime := 5 |}); reflexivity.
Defined.

(** ** When the disk or the socket fails *)


(** X27. A listed path that turns out to be a directory is not deleted: the
    [unlink] error is raised and nothing changes.  Where the socket is broken
    the call raises the socket's exception only after the file was unlinked
    and taken off the list. *)
Theorem deleteFile_failures (fs : Files) (fileUuid : string) (file : FileObject)
    (stats : Stats) :
  fileList fs !! fileUuid = Some file ->
  nodes (disk fs) !! file_filePath file = Some stats ->
  (isDirectory stats = true ->
   FilesClass.deleteFile fileUuid fs
   = (fs, Throw (Fs.failure Fs.EISDIR "unlink" (file_filePath file))))
  /\ (forall ex,
        isDirectory stats = false ->
        io_broken (files_io fs) = Some ex ->
        exists fs',
          FilesClass.deleteFile fileUuid fs = (fs', Throw ex)
          /\ fileList fs' = delete fileUuid (fileList fs)
          /\ nodes (disk fs') = delete (file_filePath file) (nodes (disk fs))
          /\ broadcasts (files_io fs') = broadcasts (files_io fs)).
Proof.
  intros H Hnode. split.
  - intros Hdir. unfold_files. rewrite H. cbn -[String.append].
    rewrite Hnode. cbn -[String.append]. rewrite Hnode, Hdir. reflexivity.
  - intros ex Hdir Hio. unfold_files. rewrite H. cbn -[String.append].
    rewrite Hnode. cbn -[String.append]. rewrite Hnode, Hdir. cbn -[String.append].
    rewrite Hio. eexists. split; [reflexivity|]. repeat split.
Qed.

(** The upload directory itself, registered as a file. *)
Definition directory_entry : FileObject :=
  {| file_uuid := "dir"; file_name := "uploads";
     file_dateChanged := 1; file_filePath := "/srv/uploads" |}.

Lemma deleteFile_failures_witness :
  let fs := set_fileList {[ "dir" := directory_entry ]} sample_files in
  let stats := {| isDirectory := true; ctime := 1 |} in
  (isDirectory stats = true ->
   FilesClass.deleteFile "dir" fs
   = (fs, Throw (Fs.failure Fs.EISDIR "unlink" (file_filePath directory_entry))))
  /\ (forall ex,
        isDirectory stats = false ->
        io_broken (files_io fs) = Some ex ->
        exists fs',
          FilesClass.deleteFile "dir" fs = (fs', Throw ex)
          /\ fileList fs' = delete "dir" (fileList fs)
          /\ nodes (disk fs') = delete (file_filePath directory_entry) (nodes (disk fs))
          /\ broadcasts (files_io fs') = broadcasts (files_io fs)).
Proof.
  apply (deleteFile_failures (set_fileList {[ "dir" := directory_entry ]} sample_files)
           "dir" directory_entry {| isDirectory := true; ctime := 1 |}); reflexivity.
Defined.

(** ** Listing the files, and the upload directory *)



(** X20. [createUploadDirectory] never raises: it makes the directory only where
    nothing is at the path, and leaves everything else alone; it can be run
    again, to no effect. *)
Theorem createUploadDirectory_idempotent (fs : Files) :
  exists fs1,
    FilesClass.createUploadDirectory fs = (fs1, Normal tt)
    /\ is_Some (nodes (disk fs1) !! uploadDir fs)
    /\ (is_Some (nodes (disk fs) !! uploadDir fs) -> fs1 = fs)
    /\ (forall path, path <> uploadDir fs ->
                     nodes (disk fs1) !! path = nodes (disk fs) !! path)
    /\ fileList fs1 = fileList fs
    /\ FilesClass.createUploadDirectory fs1 = (fs1, Normal tt).
Proof.
  destruct (nodes (disk fs) !! uploadDir fs) as [stats|] eqn:Hnode.
  - exists fs. unfold_files. cbn. rewrite Hnode. cbn. repeat split; eauto.
  - unfold_files. cbn. rewrite Hnode. cbn. rewrite Hnode. cbn.
    eexists. split; [reflexivity|]. cbn.
    rewrite lookup_insert_eq. cbn.
    split; [eauto|]. split; [intros [x Hx]; discriminate|].
    split; [intros path Hne; apply lookup_insert_ne; congruence|].
    split; reflexivity.
Qed.

(** ** The list is keyed by identifier *)








(** * More on the pause command *)



(** X23. [pause] queues before it fires.  Where the device's state machine then
    refuses the event, the error is logged and the call returns normally
    with the state unchanged, but the entry that pauses the job and starts
    the movements is already at the head of the queue. *)
Theorem pause_refused_by_the_state_machine (defs : BotFsmDefinitions) (b : Bot) (job : Job)
    (to : string) :
  currentJob b = Some job ->
  includes (pauseable defs) (fsm_current b) = true ->
  String.eqb (job_fsm job) "running" = true ->
  transient (fsm_current b) = false ->
  StateMachine.fire (botFsmEvents defs) "pause" (fsm_current b)
    = StateMachine.Invalid (fsm_current b) to ->
  let b1 := fst (pause defs b) in
  snd (pause defs b) = Normal (getBot b1)
  /\ fsm_current b1 = fsm_current b
  /\ queue b1 = stageA (length (cells b)) :: queue b
  /\ pauseableState b1 = Some (fsm_current b)
  /\ last (logger b1)
     = Some {| level := LError;
               args := ["Pause error";
                        StateMachine.invalid_message "pause" (fsm_current b)] |}.
Proof.
  intros Hjob Hp Hr Ht Hfire b1. subst b1.
  unfold pause, pause_try, transient, just_queued_pause, self_logger, prependCommands,
    self_fsm, record in *.
  unfold_M. rewrite Hjob, Hp, Hr. cbn -[StateMachine.fire StateMachine.invalid_message].
  rewrite Ht. cbn -[StateMachine.fire StateMachine.invalid_message]. rewrite Hfire.
  cbn -[StateMachine.invalid_message].
  repeat split. unfold log_to. rewrite last_snoc. reflexivity.
Qed.

(** A table in which [idle] counts as pauseable although [pause] is only
    accepted while printing. *)
Definition mismatched_botFsmDefinitions : BotFsmDefinitions :=
  {| botFsmEvents :=
       [ {| ev_name := "pause"; ev_from := "printing"; ev_to := "pausing" |};
         {| ev_name := "pauseDone"; ev_from := "pausing"; ev_to := "paused" |} ];
     pauseable := ["idle"; "printing"] |}.

Lemma pause_refused_by_the_state_machine_witness :
  let defs := mismatched_botFsmDefinitions in
  let b := printing_bot "idle" in
  let b1 := fst (pause defs b) in
  snd (pause defs b) = Normal (getBot b1)
  /\ fsm_current b1 = fsm_current b
  /\ queue b1 = stageA (length (cells b)) :: queue b
  /\ pauseableState b1 = Some (fsm_current b)
  /\ last (logger b1)
     = Some {| level := LError;
               args := ["Pause error";
                        StateMachine.invalid_message "pause" (fsm_current b)] |}.
Proof.
  apply (pause_refused_by_the_state_machine mismatched_botFsmDefinitions
           (printing_bot "idle") (sample_job "running") "idle"); reflexivity.
Defined.

(** The cascade of an accepted pause request on a device that answers. *)
Lemma pause_cascade_completes_witness :
  let b := sample_bot "idle" (Some (sample_job "running")) [] in
  let m := [Some telemetry_line; Some "10.5"; Some ".5"; Some "-2.0"; Some ".0";
            Some "5.0"; Some ".0"; Some "100.25"; Some ".25"] in
  at_state (drain jobFsmDefinitions (sample_botFsmDefinitions ["idle"]) done_when_true (2 + 20)
              ["ok"; telemetry_line; "ok"]
              (fst (pause (sample_botFsmDefinitions ["idle"]) b)))
           (settings b) "paused" (Some (job_after_pause jobFsmDefinitions (sample_job "running")))
           (Some (offset_position (settings b) m)) [] None
           (history b
              ++ [ BotFsm "pause";
                   Completed (stageA (length (cells b)));
                   Sent "M400"; Completed (CmdCode "M400");
                   Sent "M114"; Completed telemetryCommand;
                   Sent (lift_code undefined_position);
                   Completed (liftCommand (length (cells b)));
                   Completed closingCommand;
                   BotFsm "pauseDone"; Completed pauseEndCommand ]).
Proof.
  apply (pause_cascade_completes jobFsmDefinitions (sample_botFsmDefinitions ["idle"])
           done_when_true (sample_bot "idle" (Some (sample_job "running")) [])
           (sample_job "running") "ok" telemetry_line "ok" _ 20 "pausing" "paused");
    reflexivity.
Defined.

(** * The Melzi bot *)

Lemma assign_lookup (target source : gmap string Json) (k : string) :
  Melzi.assign target source !! k
  = match source !! k with
    | Some v => Some v
    | None => target !! k
    end.
Proof.
  unfold Melzi.assign. rewrite lookup_union.
  destruct (source !! k), (target !! k); reflexivity.
Qed.

(** X25. The Melzi bot is the Virtual bot except for its name and model, its five
    connection facts, and the three commands it brings: every other setting,
    fact and command is the Virtual bot's own, the [pause] command among
    them. *)
Theorem melzi_overrides_virtual (VirtualBot : Melzi.BotDefinition) :
  let melzi := Melzi.exports VirtualBot in
  Melzi.settings melzi !! "name" = Some (JString "Melzi Bot")
  /\ Melzi.settings melzi !! "model" = Some (JString "Melzi")
  /\ (forall k, k <> "name" -> k <> "model" ->
        Melzi.settings melzi !! k = Melzi.settings VirtualBot !! k)
  /\ Melzi.commands melzi !! "pause" = Melzi.commands VirtualBot !! "pause"
  /\ (forall k, k <> "connect" -> k <> "generateParkCommands" ->
        k <> "generateUnparkCommands" ->
        Melzi.commands melzi !! k = Melzi.commands VirtualBot !! k)
  /\ (forall k, is_Some (Melzi.own_commands !! k) ->
        Melzi.commands melzi !! k = Melzi.own_commands !! k)
  /\ (forall k, Melzi.info melzi !! k
                = match Melzi.own_info !! k with
                  | Some v => Some v
                  | None => Melzi.info VirtualBot !! k
                  end).
Proof.
  cbn zeta. unfold Melzi.exports. cbn [Melzi.info Melzi.settings Melzi.commands].
  assert (forall m : gmap string Json, Melzi.assign ∅ m = m) as Hcopy.
  { intros m. unfold Melzi.assign. apply map_eq. intros k. rewrite lookup_union, lookup_empty.
    destruct (m !! k); reflexivity. }
  rewrite !Hcopy.
  split; [rewrite assign_lookup; reflexivity|].
  split; [rewrite assign_lookup; reflexivity|].
  split.
  { intros k H1 H2. rewrite assign_lookup. unfold Melzi.own_settings.
    cbn [list_to_map foldr uncurry fst snd].
    rewrite !lookup_insert_ne by congruence. rewrite lookup_empty. reflexivity. }
  split; [rewrite assign_lookup; reflexivity|].
  split.
  { intros k H1 H2 H3. rewrite assign_lookup. unfold Melzi.own_commands.
    cbn [list_to_map foldr uncurry fst snd].
    rewrite !lookup_insert_ne by congruence. rewrite lookup_empty. reflexivity. }
  split.
  { intros k [v Hv]. rewrite assign_lookup, Hv. reflexivity. }
  intros k. apply assign_lookup.
Qed.
